(** * Fundable Protocol, Stellar client: amount and address validation,
      stream progress and distribution submission

    A shallow embedding of the TypeScript sources of the web client

    - [apps/web/src/utils/amount-validation.ts]
    - [apps/web/src/utils/stellar-validation.ts]
    - [apps/web/src/utils/csv-processing.ts]
    - [apps/web/src/components/modules/payment-stream/StreamProgressBar.tsx]
    - [apps/web/src/components/modules/payment-stream/StreamCountdown.tsx]
    - the [useDistributionState] and [useDistributionTransaction] hooks
    - the [Errors] table of the generated payment-stream bindings

    together with the fragment of ECMAScript they run on: strings as
    sequences of UTF-16 code units, regular expressions, and [Number]
    values as IEEE 754 binary64 (round to nearest, ties to even). *)

From Stdlib Require DecimalFacts DecimalPos SpecFloat.
From Stdlib Require Import ZArith QArith Qround Qabs Lia Lqa List Bool.
From Stdlib Require Import String Ascii.
Import ListNotations.

Set Implicit Arguments.

(* ================================================================== *)
(** * The ECMAScript fragment *)
(* ================================================================== *)

Module JS.

(** ** Strings

    A JavaScript string is a sequence of 16-bit code units.  [lit]
    embeds a literal of the sources. *)

Definition jsstring := list N.

Definition lit (s : string) : jsstring :=
  map N_of_ascii (list_ascii_of_string s).

(** [WhiteSpace] and [LineTerminator] code points of ECMA-262, the set
    that [String.prototype.trim] and the numeric parsers strip. *)
Definition isWhiteSpace (c : N) : bool :=
  ((9 <=? c) && (c <=? 13) || (c =? 32) || (c =? 160) || (c =? 5760)
   || (8192 <=? c) && (c <=? 8202) || (c =? 8232) || (c =? 8233)
   || (c =? 8239) || (c =? 8287) || (c =? 12288) || (c =? 65279))%N.

Fixpoint dropWhile (p : N -> bool) (s : jsstring) : jsstring :=
  match s with
  | [] => []
  | c :: t => if p c then dropWhile p t else s
  end.

Fixpoint takeWhile (p : N -> bool) (s : jsstring) : jsstring :=
  match s with
  | [] => []
  | c :: t => if p c then c :: takeWhile p t else []
  end.

Definition trimStart (s : jsstring) : jsstring := dropWhile isWhiteSpace s.
Definition trimEnd (s : jsstring) : jsstring :=
  rev (dropWhile isWhiteSpace (rev s)).
Definition trim (s : jsstring) : jsstring := trimEnd (trimStart s).

Fixpoint str_eqb (a b : jsstring) : bool :=
  match a, b with
  | [], [] => true
  | x :: a', y :: b' => (x =? y)%N && str_eqb a' b'
  | _, _ => false
  end.

Fixpoint startsWith (s p : jsstring) : bool :=
  match p, s with
  | [], _ => true
  | x :: p', y :: s' => (x =? y)%N && startsWith s' p'
  | _ :: _, [] => false
  end.

Definition endsWith (s p : jsstring) : bool := startsWith (rev s) (rev p).

(** [s.indexOf(c)] for a one-unit pattern; [None] stands for [-1]. *)
Fixpoint indexOf (s : jsstring) (c : N) : option nat :=
  match s with
  | [] => None
  | x :: t => if (x =? c)%N then Some O
              else match indexOf t c with
                   | Some i => Some (S i)
                   | None => None
                   end
  end.

(** [s.padStart(n, "0")]. *)
Definition padStart0 (n : nat) (s : jsstring) : jsstring :=
  repeat 48%N (n - List.length s) ++ s.

(** ASCII case folding; the other code units are left alone, none of
    them lowers to a letter of the words the sources compare with. *)
Definition toLowerCase (s : jsstring) : jsstring :=
  map (fun c => if ((65 <=? c) && (c <=? 90))%N then (c + 32)%N else c) s.

(** ** Regular expressions

    Patterns are matched by Brzozowski derivatives.  The patterns of the
    sources are either anchored on both sides ([test]) or anchored at
    the end of the subject ([replace_at_end]). *)

Inductive regex :=
| Empty
| Eps
| Chr (p : N -> bool)
| Cat (r1 r2 : regex)
| Alt (r1 r2 : regex)
| Star (r : regex).

Fixpoint nullable (r : regex) : bool :=
  match r with
  | Empty => false
  | Eps => true
  | Chr _ => false
  | Cat r1 r2 => nullable r1 && nullable r2
  | Alt r1 r2 => nullable r1 || nullable r2
  | Star _ => true
  end.

Fixpoint deriv (c : N) (r : regex) : regex :=
  match r with
  | Empty => Empty
  | Eps => Empty
  | Chr p => if p c then Eps else Empty
  | Cat r1 r2 =>
      if nullable r1 then Alt (Cat (deriv c r1) r2) (deriv c r2)
      else Cat (deriv c r1) r2
  | Alt r1 r2 => Alt (deriv c r1) (deriv c r2)
  | Star r1 => Cat (deriv c r1) (Star r1)
  end.

Fixpoint matches (r : regex) (s : jsstring) : bool :=
  match s with
  | [] => nullable r
  | c :: t => matches (deriv c r) t
  end.

Definition Opt (r : regex) : regex := Alt r Eps.
Definition Plus (r : regex) : regex := Cat r (Star r).
Fixpoint Rep (n : nat) (r : regex) : regex :=
  match n with
  | O => Eps
  | S k => Cat r (Rep k r)
  end.

Definition range (lo hi : string) : N -> bool :=
  fun c => match lit lo, lit hi with
           | [l], [h] => ((l <=? c) && (c <=? h))%N
           | _, _ => false
           end.
Definition oneOf (cs : string) : N -> bool :=
  fun c => existsb (N.eqb c) (lit cs).
Definition orC (p q : N -> bool) : N -> bool := fun c => p c || q c.

(** [/^r$/.test(s)] *)
Definition test (r : regex) (s : jsstring) : bool := matches r s.

(** [s.replace(/r$/, "")]: the leftmost position from which [r] matches
    up to the end of [s] is where the result is cut. *)
Fixpoint replace_at_end (r : regex) (s : jsstring) : jsstring :=
  if matches r s then []
  else match s with
       | [] => []
       | c :: t => c :: replace_at_end r t
       end.

(** ** Numbers

    A [Number] is NaN, an infinity or a finite binary64 value, kept as
    the rational it denotes.  The sign of zero is not tracked: no
    division of the sources has a zero divisor ([x / 0] is read as
    [x / +0]), and comparison, [Math.min], [Math.max], [toFixed] and
    [toString] do not tell the two zeros apart in any way the modelled
    functions observe. *)

Inductive number :=
| NaN
| Inf (neg : bool)
| Fin (q : Q).

(** Round half to even, to an integer. *)
Definition half_even (y : Q) : Z :=
  let f := Qfloor y in
  match Qcompare (y - inject_Z f) (1 # 2) with
  | Lt => f
  | Gt => (f + 1)%Z
  | Eq => if Z.even f then f else (f + 1)%Z
  end.

(** The least positive binary64 value, [2^-1074]. *)
Definition quantum : Q := 1 / inject_Z (2 ^ 1074).

(** The exponent of the unit in the last place of [X], a positive
    rational counted in quanta: 53 significant bits, gradual underflow
    below [2^52] quanta. *)
Definition ulp_exp (X : Q) : Z := Z.max 0 (Z.log2 (Qfloor X) - 52).

Definition round_pos (x : Q) : Q :=
  let X := x / quantum in
  let s := inject_Z (2 ^ ulp_exp X) in
  inject_Z (half_even (X / s)) * s * quantum.

Definition overflow_threshold : Q := inject_Z (2 ^ 1024).

(** Rounding of an exact result to binary64: to nearest, ties to even,
    overflow to the infinities. *)
Definition binary64 (x : Q) : number :=
  match Qcompare x 0 with
  | Eq => Fin 0
  | Gt => let r := round_pos x in
          if Qle_bool overflow_threshold r then Inf false else Fin (Qred r)
  | Lt => let r := round_pos (- x) in
          if Qle_bool overflow_threshold r then Inf true else Fin (Qred (- r))
  end.

(** The arithmetic is parameterised by the rounding of exact results.
    [IEEE754] is the arithmetic the engines implement; [exact] (no
    rounding at all) is kept to state what holds of the formulas
    themselves. *)
Class Arith := rnd : Q -> number.

#[export] Instance IEEE754 : Arith := binary64.
Definition exact : Arith := Fin.

Section Operations.
Context {A : Arith}.

Definition Qsign (x : Q) : bool := match Qcompare x 0 with Lt => true | _ => false end.
Definition Qzero (x : Q) : bool := Qeq_bool x 0.

Definition add (a b : number) : number :=
  match a, b with
  | NaN, _ | _, NaN => NaN
  | Inf s, Inf t => if Bool.eqb s t then Inf s else NaN
  | Inf s, Fin _ => Inf s
  | Fin _, Inf t => Inf t
  | Fin x, Fin y => rnd (x + y)
  end.

Definition sub (a b : number) : number :=
  match a, b with
  | NaN, _ | _, NaN => NaN
  | Inf s, Inf t => if Bool.eqb s t then NaN else Inf s
  | Inf s, Fin _ => Inf s
  | Fin _, Inf t => Inf (negb t)
  | Fin x, Fin y => rnd (x - y)
  end.

Definition mul (a b : number) : number :=
  match a, b with
  | NaN, _ | _, NaN => NaN
  | Inf s, Inf t => Inf (xorb s t)
  | Inf s, Fin y => if Qzero y then NaN else Inf (xorb s (Qsign y))
  | Fin x, Inf t => if Qzero x then NaN else Inf (xorb (Qsign x) t)
  | Fin x, Fin y => rnd (x * y)
  end.

Definition div (a b : number) : number :=
  match a, b with
  | NaN, _ | _, NaN => NaN
  | Inf _, Inf _ => NaN
  | Inf s, Fin y => Inf (xorb s (Qsign y))
  | Fin _, Inf _ => Fin 0
  | Fin x, Fin y =>
      if Qzero y then (if Qzero x then NaN else Inf (Qsign x))
      else rnd (x / y)
  end.

(** [Math.pow(10, n)] for a count of decimals [n].  A power of ten up
    to [10^22] is a binary64 number and [Math.pow] returns it; the
    sources ask for [10^7] only.  Beyond [10^22] ECMAScript leaves the
    last bits of [Math.pow] to the implementation, and the nearest
    binary64 number stands for it here. *)
Definition pow10 (n : nat) : number := rnd (inject_Z (10 ^ Z.of_nat n)).

End Operations.

(** Comparison: every comparison with NaN is false. *)
Definition ltb (a b : number) : bool :=
  match a, b with
  | NaN, _ | _, NaN => false
  | Inf s, Inf t => s && negb t
  | Inf s, Fin _ => s
  | Fin _, Inf t => negb t
  | Fin x, Fin y => match Qcompare x y with Lt => true | _ => false end
  end.

Definition leb (a b : number) : bool :=
  match a, b with
  | NaN, _ | _, NaN => false
  | Inf s, Inf t => s || negb t
  | Inf s, Fin _ => s
  | Fin _, Inf t => negb t
  | Fin x, Fin y => Qle_bool x y
  end.

Definition gtb (a b : number) : bool := ltb b a.
Definition geb (a b : number) : bool := leb b a.

(** [a <= b] and [a === b] as propositions. *)
Definition num_le (a b : number) : Prop := leb a b = true.

Definition num_eq (a b : number) : Prop :=
  match a, b with
  | Fin x, Fin y => x == y
  | Inf s, Inf t => s = t
  | _, _ => False
  end.

(** [Math.min] and [Math.max] of two arguments. *)
Definition min (a b : number) : number :=
  match a, b with
  | NaN, _ | _, NaN => NaN
  | _, _ => if leb a b then a else b
  end.

Definition max (a b : number) : number :=
  match a, b with
  | NaN, _ | _, NaN => NaN
  | _, _ => if leb a b then b else a
  end.

Definition isNaN (a : number) : bool :=
  match a with NaN => true | _ => false end.

Definition isFinite (a : number) : bool :=
  match a with Fin _ => true | _ => false end.

(** [Math.floor] and [Math.round] (half up); both are exact. *)
Definition floor (a : number) : number :=
  match a with
  | Fin q => Fin (inject_Z (Qfloor q))
  | _ => a
  end.

Definition round (a : number) : number :=
  match a with
  | Fin q => Fin (inject_Z (Qfloor (q + (1 # 2))))
  | _ => a
  end.

Definition ofZ (z : Z) : number := Fin (inject_Z z).

Definition isInteger (q : Q) : bool := Qeq_bool q (inject_Z (Qfloor q)).

(** Exceptions of the amount utilities: an [Error] with its message, or
    the [RangeError] of [BigInt]. *)
Inductive exn :=
| Error (message : jsstring)
| RangeError.

Inductive result (T : Type) :=
| Ok (v : T)
| Throw (e : exn).
Arguments Throw {T} e.

(** [BigInt(x)]: defined on the integral finite numbers only. *)
Definition BigInt (a : number) : result Z :=
  match a with
  | Fin q => if isInteger q then Ok (Qfloor q) else Throw RangeError
  | _ => Throw RangeError
  end.

Definition bind {T U : Type} (r : result T) (k : T -> result U) : result U :=
  match r with
  | Ok v => k v
  | Throw e => Throw e
  end.

(** ** Numbers and strings *)

Definition isDigit (c : N) : bool := ((48 <=? c) && (c <=? 57))%N.

Definition digit_value (c : N) : Z := (Z.of_N c - 48)%Z.

(** The mathematical value of a run of decimal digits. *)
Definition horner (a : Z) (c : N) : Z := (10 * a + digit_value c)%Z.

Definition digits_value (ds : jsstring) : Z := fold_left horner ds 0%Z.

Definition pow10Q (e : Z) : Q :=
  match e with
  | Zneg p => 1 / inject_Z (10 ^ Zpos p)
  | _ => inject_Z (10 ^ e)
  end.

(** [StrUnsignedDecimalLiteral]: [Infinity], or a mantissa and a decimal
    exponent. *)
Inductive literal :=
| LitInfinity
| LitDecimal (mantissa exponent : Z).

(** An [ExponentPart], when one is there. *)
Definition scan_exponent (s : jsstring) : Z * jsstring :=
  match s with
  | c :: t =>
      if ((c =? 101) || (c =? 69))%N then
        let '(neg, u) := match t with
                         | g :: u => if (g =? 43)%N then (false, u)
                                     else if (g =? 45)%N then (true, u)
                                     else (false, t)
                         | [] => (false, t)
                         end in
        match takeWhile isDigit u with
        | [] => (0%Z, s)
        | ds => ((if neg then - digits_value ds else digits_value ds)%Z,
                 dropWhile isDigit u)
        end
      else (0%Z, s)
  | [] => (0%Z, s)
  end.

(** The longest prefix of [s] that is a [StrUnsignedDecimalLiteral],
    and what follows it. *)
Definition scan_unsigned (s : jsstring) : option (literal * jsstring) :=
  if startsWith s (lit "Infinity") then Some (LitInfinity, skipn 8 s)
  else
    let ip := takeWhile isDigit s in
    let r1 := dropWhile isDigit s in
    let integral :=
      match ip with
      | [] => None
      | _ => let '(e, r) := scan_exponent r1 in
             Some (LitDecimal (digits_value ip) e, r)
      end in
    match r1 with
    | c :: t =>
        if (c =? 46)%N then
          let fp := takeWhile isDigit t in
          match ip, fp with
          | [], [] => None
          | _, _ =>
              let '(e, r) := scan_exponent (dropWhile isDigit t) in
              Some (LitDecimal (digits_value (ip ++ fp))
                               (e - Z.of_nat (List.length fp))%Z, r)
          end
        else integral
    | [] => integral
    end.

Definition scan_signed (s : jsstring) : option (bool * literal * jsstring) :=
  let signed neg t :=
    match scan_unsigned t with
    | Some (l, r) => Some (neg, l, r)
    | None => None
    end in
  match s with
  | c :: t => if (c =? 43)%N then signed false t
              else if (c =? 45)%N then signed true t
              else signed false s
  | [] => signed false s
  end.

(** Digits of the [0x], [0o] and [0b] literals. *)
Definition digit_in_base (b : Z) (c : N) : option Z :=
  let v := (if isDigit c then Z.of_N c - 48
            else if ((97 <=? c) && (c <=? 102))%N then Z.of_N c - 87
            else if ((65 <=? c) && (c <=? 70))%N then Z.of_N c - 55
            else 16)%Z in
  if (v <? b)%Z then Some v else None.

Fixpoint value_in_base (b : Z) (acc : Z) (ds : jsstring) : option Z :=
  match ds with
  | [] => Some acc
  | c :: t => match digit_in_base b c with
              | Some v => value_in_base b (b * acc + v)%Z t
              | None => None
              end
  end.

Definition non_decimal_literal (s : jsstring) : option Z :=
  match s with
  | z :: p :: ((_ :: _) as ds) =>
      if negb (z =? 48)%N then None
      else if ((p =? 120) || (p =? 88))%N then value_in_base 16 0 ds
      else if ((p =? 111) || (p =? 79))%N then value_in_base 8 0 ds
      else if ((p =? 98) || (p =? 66))%N then value_in_base 2 0 ds
      else None
  | _ => None
  end.

Section Conversions.
Context {A : Arith}.

(** The Number value of a literal: its mathematical value, rounded. *)
Definition literal_value (neg : bool) (l : literal) : number :=
  match l with
  | LitInfinity => Inf neg
  | LitDecimal m e =>
      rnd (inject_Z (if neg then - m else m) * pow10Q e)
  end.

(** [Number(s)] on a string. *)
Definition Number (s : jsstring) : number :=
  match trim s with
  | [] => Fin 0
  | t =>
      match non_decimal_literal t with
      | Some z => rnd (inject_Z z)
      | None =>
          match scan_signed t with
          | Some (neg, l, []) => literal_value neg l
          | _ => NaN
          end
      end
  end.

(** [parseFloat(s)]. *)
Definition parseFloat (s : jsstring) : number :=
  match scan_signed (trimStart s) with
  | Some (neg, l, _) => literal_value neg l
  | None => NaN
  end.

End Conversions.

Fixpoint uint_codes (u : Decimal.uint) : jsstring :=
  match u with
  | Decimal.Nil => []
  | Decimal.D0 v => 48%N :: uint_codes v
  | Decimal.D1 v => 49%N :: uint_codes v
  | Decimal.D2 v => 50%N :: uint_codes v
  | Decimal.D3 v => 51%N :: uint_codes v
  | Decimal.D4 v => 52%N :: uint_codes v
  | Decimal.D5 v => 53%N :: uint_codes v
  | Decimal.D6 v => 54%N :: uint_codes v
  | Decimal.D7 v => 55%N :: uint_codes v
  | Decimal.D8 v => 56%N :: uint_codes v
  | Decimal.D9 v => 57%N :: uint_codes v
  end.

(** [BigInt.prototype.toString], also the digits of an integral Number. *)
Definition Z_toString (z : Z) : jsstring :=
  match z with
  | Z0 => lit "0"
  | Zpos p => uint_codes (Pos.to_uint p)
  | Zneg p => lit "-" ++ uint_codes (Pos.to_uint p)
  end.

(** [Number::toString] on the finite values that are not integers below
    [10^21] prints the shortest digits that round back, possibly in
    exponential notation.  No property below depends on that text: it is
    a parameter. *)
Class NumberFormat := toString_other : Q -> jsstring.

Section Printing.
Context {F : NumberFormat}.

Definition ten21 : Q := inject_Z (10 ^ 21).

Definition Number_toString (x : number) : jsstring :=
  match x with
  | NaN => lit "NaN"
  | Inf neg => if neg then lit "-Infinity" else lit "Infinity"
  | Fin q =>
      if isInteger q && negb (Qle_bool ten21 (Qabs q))
      then Z_toString (Qfloor q)
      else toString_other q
  end.

(** [x.toFixed(f)]: the integer [n] nearest to [x * 10^f], the larger
    one on a tie, printed with [f] decimals. *)
Definition toFixed (x : number) (f : nat) : jsstring :=
  match x with
  | Fin q =>
      if Qle_bool ten21 (Qabs q) then Number_toString x
      else
        let n := Qfloor (Qabs q * inject_Z (10 ^ Z.of_nat f) + (1 # 2)) in
        let m := padStart0 (S f) (Z_toString n) in
        let k := List.length m in
        (if Qsign q then lit "-" else [])
          ++ match f with
             | O => m
             | _ => firstn (k - f) m ++ lit "." ++ skipn (k - f) m
             end
  | _ => Number_toString x
  end.

End Printing.

(** ** Decimal numerals

    What a string denotes when it is read as a signed decimal numeral:
    an optional sign, digits, and optionally a point followed by digits.
    [None]: the string is not such a numeral. *)

Definition unsigned_value (s : jsstring) : option Q :=
  let ip := takeWhile isDigit s in
  match ip, dropWhile isDigit s with
  | _ :: _, [] => Some (inject_Z (digits_value ip))
  | _ :: _, c :: fp =>
      match fp with
      | [] => None
      | _ => if (c =? 46)%N && forallb isDigit fp then
               Some (inject_Z (digits_value ip)
                     + inject_Z (digits_value fp)
                       / inject_Z (10 ^ Z.of_nat (List.length fp)))
             else None
      end
  | [], _ => None
  end.

Definition numeral_value (s : jsstring) : option Q :=
  match s with
  | c :: t => if (c =? 45)%N then option_map Qopp (unsigned_value t)
              else if (c =? 43)%N then unsigned_value t
              else unsigned_value s
  | [] => None
  end.

(** ** Notions for the accuracy of the arithmetic *)

(** An arithmetic whose rounding is monotone and leaves 0 and 100
    alone; binary64 and the exact arithmetic are two such. *)
Class Monotone (A : Arith) : Prop := {
  rnd_mono : forall x y, x <= y -> num_le (rnd x) (rnd y);
  rnd_zero : rnd 0 = Fin 0;
  rnd_hundred : rnd 100 = Fin 100
}.

Definition p2 (k : Z) : Q := inject_Z (2 ^ k).

(** Rounding in quanta. *)
Definition round_units (X : Q) : Q :=
  inject_Z (half_even (X / p2 (ulp_exp X))) * p2 (ulp_exp X).

(** The unit roundoff [2^-53] and the least normal number [2^-1022]. *)
Definition u53 : Q := 1 / inject_Z (2 ^ 53).
Definition min_normal : Q := p2 52 * quantum.

(** ** Collections

    A [Set<string>] and a [Map<string, number[]>] keep their entries in
    the order of insertion, which is the order in which [Array.from] and
    [forEach] visit them. *)

Definition str_dec : forall a b : jsstring, {a = b} + {a <> b} :=
  list_eq_dec N.eq_dec.

(** [set.has(x)] and [set.add(x)] *)
Definition set_has (s : list jsstring) (x : jsstring) : bool :=
  existsb (str_eqb x) s.
Definition set_add (s : list jsstring) (x : jsstring) : list jsstring :=
  if set_has s x then s else s ++ [x].

(** [m.get(k) ? m.get(k).push(v) : m.set(k, [v])] *)
Fixpoint push (m : list (jsstring * list nat)) (k : jsstring) (v : nat)
  : list (jsstring * list nat) :=
  match m with
  | [] => [(k, [v])]
  | (k', vs) :: r =>
      if str_eqb k' k then (k', vs ++ [v]) :: r
      else (k', vs) :: push r k v
  end.

(** [s.split(sep)] for a separator of one code unit. *)
Fixpoint split (sep : N) (s : jsstring) : list jsstring :=
  match s with
  | [] => [[]]
  | c :: t =>
      if (c =? sep)%N then [] :: split sep t
      else match split sep t with
           | h :: r => (c :: h) :: r
           | [] => [[c]]
           end
  end.

(** [xs.includes(x)] on an array of strings. *)
Definition includes (xs : list jsstring) (x : jsstring) : bool :=
  existsb (str_eqb x) xs.

(** [xs.join(sep)] *)
Fixpoint join (sep : jsstring) (xs : list jsstring) : jsstring :=
  match xs with
  | [] => []
  | [x] => x
  | x :: r => x ++ sep ++ join sep r
  end.



(** ** The remainder *)

(** The integer part, towards zero. *)
Definition Qtrunc (q : Q) : Z :=
  if Qle_bool 0 q then Qfloor q else Qceiling q.

(** [a % b]: the remainder of the division truncated towards zero, which
    binary64 holds without rounding. *)
Definition rem (a b : number) : number :=
  match a, b with
  | NaN, _ | _, NaN => NaN
  | Inf _, _ => NaN
  | Fin x, Inf _ => Fin x
  | Fin x, Fin y =>
      if Qzero y then NaN else Fin (x - y * inject_Z (Qtrunc (x / y)))
  end.

End JS.

Import JS.

Notation "x <- e ;; k" := (bind e (fun x => k))
  (at level 61, e at next level, right associativity).

(* ================================================================== *)
(** * [utils/amount-validation.ts] *)
(* ================================================================== *)

Module AmountValidation.

Definition MAX_DECIMAL_PLACES : nat := 7.

(** [/^[0-9]*\.?[0-9]*$/] *)
Definition re_amount : regex :=
  Cat (Star (Chr (range "0" "9")))
      (Cat (Opt (Chr (oneOf "."))) (Star (Chr (range "0" "9")))).

(** [(trimmed.match(/\./g) || []).length] *)
Definition decimalCount (s : jsstring) : nat :=
  List.length (filter (oneOf ".") s).

Definition validateAmount (amount : jsstring) : option jsstring :=
  match amount with
  | [] => Some (lit "Amount is required")
  | _ =>
    let trimmed := trim amount in
    if str_eqb trimmed [] then Some (lit "Amount cannot be empty")
    else if negb (str_eqb trimmed amount) then
      Some (lit "Amount cannot have leading or trailing whitespace")
    else if negb (test re_amount trimmed) then
      Some (lit "Amount can only contain numbers and one decimal point")
    else if startsWith trimmed (lit ".") || endsWith trimmed (lit ".") then
      Some (lit "Amount cannot start or end with a decimal point")
    else if (1 <? decimalCount trimmed)%nat then
      Some (lit "Amount cannot have multiple decimal points")
    else
      let num := Number trimmed in
      if isNaN num || negb (isFinite num) then
        Some (lit "Amount must be a valid number")
      else if leb num (Fin 0) then
        Some (lit "Amount must be greater than zero")
      else
        match indexOf trimmed 46%N with
        | Some decimalIndex =>
            let decimalPlaces :=
              (List.length trimmed - decimalIndex - 1)%nat in
            if (MAX_DECIMAL_PLACES <? decimalPlaces)%nat then
              Some (lit "Amount cannot have more than "
                      ++ Z_toString (Z.of_nat MAX_DECIMAL_PLACES)
                      ++ lit " decimal places")
            else None
        | None => None
        end
  end.

Definition isValidAmount (amount : jsstring) : bool :=
  match validateAmount amount with
  | None => true
  | Some _ => false
  end.

(** [decimals] is the optional second argument, 7 when left out. *)
Definition amountToStroops (amount : jsstring) (decimals : nat) : result Z :=
  if negb (isValidAmount amount) then Throw (Error (lit "Invalid amount"))
  else
    let num := Number (trim amount) in
    let multiplier := pow10 decimals in
    BigInt (round (mul num multiplier)).

(** [/0+$/] and [/\.$/] *)
Definition re_zeros : regex := Plus (Chr (oneOf "0")).
Definition re_dot : regex := Chr (oneOf ".").

(** BigInt [/] truncates and [%] takes the sign of the dividend. *)
Definition stroopsToAmount (stroops : Z) (decimals : nat) : result jsstring :=
  divisor <- BigInt (pow10 decimals) ;;
  let wholePart := Z.quot stroops divisor in
  let fractionalPart := Z.rem stroops divisor in
  if (fractionalPart =? 0)%Z then Ok (Z_toString wholePart)
  else
    let fractionalStr := padStart0 decimals (Z_toString fractionalPart) in
    let trimmedFractional := replace_at_end re_zeros fractionalStr in
    Ok (Z_toString wholePart ++ lit "." ++ trimmedFractional).

Section Formatting.
Context {F : NumberFormat}.

Definition calculateEqualAmount (totalAmount : jsstring)
    (recipientCount : number) : jsstring :=
  if negb (isValidAmount totalAmount) || leb recipientCount (Fin 0)
  then lit "0"
  else
    let total := Number (trim totalAmount) in
    let perRecipient := div total recipientCount in
    replace_at_end re_dot
      (replace_at_end re_zeros (toFixed perRecipient MAX_DECIMAL_PLACES)).

End Formatting.

(** *** Notions for the statements *)

Definition isZeroDigit : N -> bool := oneOf "0".

(** The amounts the pattern and the two checks on the point let through:
    digits [d1], or [d1], a point and digits [d2]. *)
Definition shaped (a d1 d2 : jsstring) : Prop :=
  forallb isDigit d1 = true /\ forallb isDigit d2 = true /\ d1 <> []
  /\ (a = d1 /\ d2 = [] \/ a = d1 ++ 46%N :: d2 /\ d2 <> []).

Definition shaped_value (d1 d2 : jsstring) : Q :=
  inject_Z (digits_value (d1 ++ d2)) * pow10Q (0 - Z.of_nat (List.length d2)).

(** The stroops that a shaped amount with at most seven decimals
    denotes, and the scale [10^7]. *)
Definition stroops_of (d1 d2 : jsstring) : Z :=
  (digits_value (d1 ++ d2) * 10 ^ (7 - Z.of_nat (List.length d2)))%Z.

Definition ten7 : Q := inject_Z 10000000.

(** [2^51] stroops, in tokens: 225179981.3685248. *)
Definition safe_amount : Q := inject_Z (2 ^ 51) / ten7.

(** *** The other utilities of the file *)

(** [/\.?0+$/] *)
Definition re_point_zeros : regex :=
  Cat (Opt (Chr (oneOf "."))) (Plus (Chr (oneOf "0"))).

Definition getDecimalPlaces (amount : jsstring) : nat :=
  match indexOf amount 46%N with
  | None => 0
  | Some decimalIndex => List.length amount - decimalIndex - 1
  end.

(** The body of the loop of [calculateTotalAmount]. *)
Definition add_valid (total : number) (amount : jsstring) : number :=
  if isValidAmount amount then add total (Number (trim amount)) else total.

Record InvalidAmount := {
  amount : jsstring;
  error : jsstring;
  index : nat
}.

Record AmountListResult := {
  validAmounts : list jsstring;
  invalidAmounts : list InvalidAmount;
  totalAmount : jsstring
}.

(** The callback of [amounts.forEach] in [validateAmountList], on the two
    arrays; [if (error)] asks for a message that is not empty. *)
Definition sort_amount (acc : list jsstring * list InvalidAmount)
    (entry : nat * jsstring) : list jsstring * list InvalidAmount :=
  let '(validAmounts, invalidAmounts) := acc in
  let '(index, amount) := entry in
  match validateAmount amount with
  | Some ((_ :: _) as error) =>
      (validAmounts,
       invalidAmounts
         ++ [{| amount := amount; error := error; index := index |}])
  | _ => (validAmounts ++ [amount], invalidAmounts)
  end.

Section Lists.
Context {F : NumberFormat}.

Definition formatAmount (amount : jsstring) : jsstring :=
  if negb (isValidAmount amount) then amount
  else
    let num := Number (trim amount) in
    let formatted := toFixed num MAX_DECIMAL_PLACES in
    replace_at_end re_point_zeros formatted.

Definition calculateTotalAmount (amounts : list jsstring) : jsstring :=
  let total := fold_left add_valid amounts (Fin 0) in
  replace_at_end re_dot
    (replace_at_end re_zeros (toFixed total MAX_DECIMAL_PLACES)).

Definition validateAmountList (amounts : list jsstring) : AmountListResult :=
  let '(validAmounts, invalidAmounts) :=
    fold_left sort_amount (combine (seq 0 (List.length amounts)) amounts)
              ([], []) in
  {| validAmounts := validAmounts;
     invalidAmounts := invalidAmounts;
     totalAmount := calculateTotalAmount validAmounts |}.

End Lists.

(** Two strings that denote the same number. *)
Definition same_value (a b : jsstring) : Prop :=
  match numeral_value a, numeral_value b with
  | Some p, Some q => p == q
  | _, _ => False
  end.

End AmountValidation.

(* ================================================================== *)
(** * [utils/stellar-validation.ts] *)
(* ================================================================== *)

Module StellarValidation.

(** [/^[GC][A-Z2-7]{55}$/] *)
Definition base32 : N -> bool := orC (range "A" "Z") (range "2" "7").

Definition base32Regex : regex :=
  Cat (Chr (oneOf "GC")) (Rep 55 (Chr base32)).

Definition isValidStellarAddress (address : jsstring) : bool :=
  match address with
  | [] => false
  | _ =>
    if negb (List.length address =? 56)%nat then false
    else if negb (startsWith address (lit "G"))
            && negb (startsWith address (lit "C")) then false
    else test base32Regex address
  end.

Definition length_text (address : jsstring) : jsstring :=
  Z_toString (Z.of_nat (List.length address)).

Definition validateStellarAddress (address : jsstring) : option jsstring :=
  match address with
  | [] => Some (lit "Address is required")
  | _ =>
    if negb (str_eqb (trim address) address) then
      Some (lit "Address cannot have leading or trailing whitespace")
    else if (List.length address =? 0)%nat then
      Some (lit "Address cannot be empty")
    else if (List.length address <? 56)%nat then
      Some (lit "Address is too short (" ++ length_text address
              ++ lit " characters, expected 56)")
    else if (56 <? List.length address)%nat then
      Some (lit "Address is too long (" ++ length_text address
              ++ lit " characters, expected 56)")
    else if negb (startsWith address (lit "G"))
            && negb (startsWith address (lit "C")) then
      Some (lit "Address must start with G (public key) or C (contract address)")
    else if negb (test base32Regex address) then
      Some (lit "Address contains invalid characters (must be A-Z, 2-7)")
    else None
  end.

Definition isSameAddress (address1 address2 : jsstring) : bool :=
  str_eqb address1 address2.

(** The body of the loop of [findDuplicateAddresses], on the sets [seen]
    and [duplicates]. *)
Definition scan_address (acc : list jsstring * list jsstring)
    (address : jsstring) : list jsstring * list jsstring :=
  let '(seen, duplicates) := acc in
  if set_has seen address then (seen, set_add duplicates address)
  else (set_add seen address, duplicates).

Definition findDuplicateAddresses (addresses : list jsstring) : list jsstring :=
  snd (fold_left scan_address addresses ([], [])).

Record InvalidAddress := {
  address : jsstring;
  error : jsstring
}.

Record AddressListResult := {
  validAddresses : list jsstring;
  invalidAddresses : list InvalidAddress;
  duplicateAddresses : list jsstring
}.

(** The body of the loop of [validateAddressList]; [if (error)] asks for
    a message that is not empty. *)
Definition sort_address (acc : list jsstring * list InvalidAddress)
    (address : jsstring) : list jsstring * list InvalidAddress :=
  let '(validAddresses, invalidAddresses) := acc in
  match validateStellarAddress address with
  | Some ((_ :: _) as error) =>
      (validAddresses,
       invalidAddresses ++ [{| address := address; error := error |}])
  | _ => (validAddresses ++ [address], invalidAddresses)
  end.

Definition validateAddressList (addresses : list jsstring) : AddressListResult :=
  let '(validAddresses, invalidAddresses) :=
    fold_left sort_address addresses ([], []) in
  {| validAddresses := validAddresses;
     invalidAddresses := invalidAddresses;
     duplicateAddresses := findDuplicateAddresses validAddresses |}.

(** What the loop of [findDuplicateAddresses] keeps true of its two sets
    after the addresses [p]. *)
Definition scanned (p : list jsstring)
    (acc : list jsstring * list jsstring) : Prop :=
  (forall a, In a (fst acc) <-> In a p)
  /\ NoDup (snd acc)
  /\ (forall a, In a (snd acc) <-> (2 <= count_occ str_dec p a)%nat).

End StellarValidation.

(* ================================================================== *)
(** * [components/modules/payment-stream/StreamProgressBar.tsx] *)
(* ================================================================== *)

Module StreamProgressBar.

Record StreamProgressBarProps := {
  startTime : number;
  endTime : number;
  totalAmount : jsstring;
  withdrawnAmount : jsstring;
  status : jsstring;
  tokenSymbol : jsstring
}.

Record Stats := {
  withdrawnPercent : number;
  vestedPercent : number;
  remainingPercent : number;
  withdrawnSize : number;
  vestedSize : number;
  vestedNotWithdrawnSize : number;
  remainingSize : number;
  total : number
}.

Section Component.
Context {A : Arith}.

Definition hundred : number := Fin 100.
Definition zero : number := Fin 0.

(** The input validation of lines 44-49. *)
Definition isValid (total withdrawnSize start end_ duration : number) : bool :=
  isFinite total && gtb total zero
  && isFinite withdrawnSize
  && isFinite start
  && isFinite end_
  && isFinite duration && gtb duration zero.

(** The vested size of lines 64-68: linear in the time elapsed since
    [start], capped at [duration]. *)
Definition vestedAt (total start duration now : number) : number :=
  if gtb now start then
    let elapsed := min (sub now start) duration in
    div (mul total elapsed) duration
  else zero.

(** The [useMemo] body: the breakdown shown for the clock reading
    [currentTime]. *)
Definition stats (p : StreamProgressBarProps) (currentTime : number) : Stats :=
  let total := parseFloat (totalAmount p) in
  let withdrawnSize := parseFloat (withdrawnAmount p) in
  let now := currentTime in
  let start := startTime p in
  let end_ := endTime p in
  let duration := sub end_ start in
  if negb (isValid total withdrawnSize start end_ duration) then
    {| withdrawnPercent := zero; vestedPercent := zero;
       remainingPercent := zero; withdrawnSize := zero;
       vestedSize := zero; vestedNotWithdrawnSize := zero;
       remainingSize := zero; total := zero |}
  else
    let vestedSize := vestedAt total start duration now in
    let currentVested := min total (max withdrawnSize vestedSize) in
    let withdrawnSizeClamped := min total (max zero withdrawnSize) in
    let withdrawnPercent :=
      min hundred (max zero (mul (div withdrawnSizeClamped total) hundred)) in
    let vestedNotWithdrawnSize :=
      max zero (sub currentVested withdrawnSizeClamped) in
    let vestedPercent :=
      min (sub hundred withdrawnPercent)
          (max zero (mul (div vestedNotWithdrawnSize total) hundred)) in
    let remainingPercent :=
      max zero (sub (sub hundred withdrawnPercent) vestedPercent) in
    {| withdrawnPercent := withdrawnPercent;
       vestedPercent := vestedPercent;
       remainingPercent := remainingPercent;
       withdrawnSize := withdrawnSizeClamped;
       vestedSize := currentVested;
       vestedNotWithdrawnSize := vestedNotWithdrawnSize;
       remainingSize := max zero (sub total currentVested);
       total := total |}.

(** The props for which [stats] takes the second branch. *)
Definition validInputs (p : StreamProgressBarProps) : bool :=
  isValid (parseFloat (totalAmount p)) (parseFloat (withdrawnAmount p))
          (startTime p) (endTime p) (sub (endTime p) (startTime p)).

End Component.

(** The [useEffect] clock: an interval is registered only while
    [status.toLowerCase()] is ["active"], and each time it fires the
    state [currentTime] is set to the reading of [Date.now()]. *)
Definition ticking (p : StreamProgressBarProps) : bool :=
  str_eqb (toLowerCase (status p)) (lit "active").

Definition fire (p : StreamProgressBarProps) (currentTime dateNow : number)
  : number :=
  if ticking p then dateNow else currentTime.

(** The clock after the interval came due at the successive readings
    [readings] of [Date.now()]. *)
Definition clock (p : StreamProgressBarProps) (currentTime : number)
    (readings : list number) : number :=
  fold_left (fire p) readings currentTime.

(** The texts that the component prints from a breakdown. *)
Section Render.
Context {A : Arith} {F : NumberFormat}.

(** [aria-label={`Withdrawn ${size.toFixed(4)} ${tokenSymbol}`}] and its
    two siblings. *)
Definition ariaLabel (name : string) (size : number) (tokenSymbol : jsstring)
  : jsstring :=
  lit name ++ lit " " ++ toFixed size 4 ++ lit " " ++ tokenSymbol.

(** [style={{ width: `${percent}%` }}] *)
Definition width (percent : number) : jsstring :=
  Number_toString percent ++ lit "%".

(** The two texts under the bar. *)
Definition withdrawnText (st : Stats) : jsstring :=
  toFixed (withdrawnPercent st) 1 ++ lit "% withdrawn".

Definition vestedShare (st : Stats) : number :=
  mul (div (vestedSize st) (total st)) hundred.

Definition vestedText (st : Stats) : jsstring :=
  toFixed (vestedShare st) 1 ++ lit "% vested".

End Render.

End StreamProgressBar.

(* ================================================================== *)
(** * The vesting formula of the specification *)
(* ================================================================== *)

Module VestingSpec.











End VestingSpec.

(* ================================================================== *)
(** * The [useDistributionTransaction] hook *)
(* ================================================================== *)

Module DistributionTransaction.

Inductive DistributionType := equal | weighted.

Record Recipient := {
  address : jsstring;
  amount : option jsstring          (* [amount?: string] *)
}.

Record DistributionState := {
  type : DistributionType;
  recipients : list Recipient;
  totalAmount : jsstring
}.

Record TransactionResult := {
  success : bool;
  transactionHash : option jsstring;
  error : option jsstring
}.

(** A request sent to the [StellarService]. *)
Inductive call :=
| distributeEqual (sender token totalAmount : jsstring)
                  (recipients : list jsstring)
| distributeWeighted (sender token : jsstring)
                     (recipients amounts : list jsstring).

(** What a [catch] clause can tell of the value it receives: an instance
    of [Error] (of any subclass) with its message, or something else. *)
Inductive thrown :=
| ErrorObject (message : jsstring)
| OtherValue.

Inductive outcome (T : Type) :=
| Returned (v : T)
| Raised (e : thrown).
Arguments Raised {T} e.

(** The service is outside the client: it answers a request with a
    transaction hash or by throwing. *)
Definition StellarService := call -> outcome jsstring.

(** What a run acts on: the two state cells of the hook and the log of
    the requests sent so far. *)
Record World := {
  isLoading : bool;
  hookError : option jsstring;
  sent : list call
}.

(** Computations of the hook: state passing, with exceptions. *)
Definition M (T : Type) : Type := World -> outcome T * World.

Definition ret {T} (v : T) : M T := fun w => (Returned v, w).
Definition throw {T} (e : thrown) : M T := fun w => (Raised e, w).
Definition mbind {T U} (m : M T) (k : T -> M U) : M U :=
  fun w => match m w with
           | (Returned v, w') => k v w'
           | (Raised e, w') => (Raised e, w')
           end.

Notation "x <~ e ;; k" := (mbind e (fun x => k))
  (at level 61, e at next level, right associativity).
Notation "e ;;; k" := (mbind e (fun _ => k))
  (at level 61, right associativity).

Definition setIsLoading (b : bool) : M unit :=
  fun w => (Returned tt,
            {| isLoading := b; hookError := hookError w; sent := sent w |}).
Definition setError (e : option jsstring) : M unit :=
  fun w => (Returned tt,
            {| isLoading := isLoading w; hookError := e; sent := sent w |}).

(** [await stellarService.method(...)] *)
Definition await (service : StellarService) (c : call) : M jsstring :=
  fun w => (service c,
            {| isLoading := isLoading w; hookError := hookError w;
               sent := sent w ++ [c] |}).

(** [try { body } catch (err) { handler } finally { fin }], for a
    handler and a [finally] block that do not throw. *)
Definition try_catch_finally {T} (body : M T) (handler : thrown -> M T)
    (fin : M unit) : M T :=
  fun w => match body w with
           | (Returned v, w') =>
               match fin w' with (_, w'') => (Returned v, w'') end
           | (Raised e, w') =>
               match handler e w' with
               | (r, w'') => match fin w'' with (_, w3) => (r, w3) end
               end
           end.

Section Hook.
Context {F : NumberFormat}.
Variable stellarService : StellarService.
Variables senderAddress tokenAddress : jsstring.

(** [parseFloat(r.amount)] of an optional field: [undefined] reads as
    the string ["undefined"], which is not a number. *)
Definition parseFloat_opt (a : option jsstring) : number :=
  match a with
  | Some s => parseFloat s
  | None => NaN
  end.

(** [!r.amount]: the field is absent or the empty string. *)
Definition falsy (a : option jsstring) : bool :=
  match a with
  | None | Some [] => true
  | Some (_ :: _) => false
  end.

(** [r => !r.amount || parseFloat(r.amount) <= 0] *)
Definition invalidAmount (r : Recipient) : bool :=
  falsy (amount r) || leb (parseFloat_opt (amount r)) (Fin 0).

Definition toStroopsString (x : number) : jsstring :=
  Number_toString (floor (mul x (Fin 10000000))).

Definition executeTransaction (state : DistributionState)
  : M TransactionResult :=
  setIsLoading true ;;;
  setError None ;;;
  try_catch_finally
    ((* Validate state before execution *)
     (match recipients state with
      | [] => throw (ErrorObject (lit "No recipients provided"))
      | _ => ret tt
      end) ;;;
     (match type state, totalAmount state with
      | equal, [] =>
          throw (ErrorObject
                   (lit "Total amount is required for equal distribution"))
      | _, _ => ret tt
      end) ;;;
     (match type state with
      | weighted =>
          let hasInvalidAmounts :=
            existsb invalidAmount (recipients state) in
          if hasInvalidAmounts then
            throw (ErrorObject
                     (lit "All recipients must have valid amounts for weighted distribution"))
          else ret tt
      | equal => ret tt
      end) ;;;
     let addresses := map address (recipients state) in
     transactionHash <~
       match type state with
       | equal =>
           let totalAmountStroops :=
             floor (mul (parseFloat (totalAmount state)) (Fin 10000000)) in
           await stellarService
             (distributeEqual senderAddress tokenAddress
                (Number_toString totalAmountStroops) addresses)
       | weighted =>
           let amounts :=
             map (fun r => toStroopsString (parseFloat_opt (amount r)))
                 (recipients state) in
           await stellarService
             (distributeWeighted senderAddress tokenAddress addresses amounts)
       end ;;
     ret {| success := true;
            transactionHash := Some transactionHash;
            error := None |})
    (fun err =>
       let errorMessage :=
         match err with
         | ErrorObject message => message
         | OtherValue => lit "Transaction failed"
         end in
       setError (Some errorMessage) ;;;
       ret {| success := false;
              transactionHash := None;
              error := Some errorMessage |})
    (setIsLoading false).

(** A run that fails before anything is sent: the result carries the
    message, the error cell holds it, and the log is as it was. *)
Definition rejected (state : DistributionState) (w : World)
    (message : jsstring) : Prop :=
  executeTransaction state w
  = (Returned {| success := false; transactionHash := None;
                 error := Some message |},
     {| isLoading := false; hookError := Some message; sent := sent w |}).

End Hook.

Definition initial : World :=
  {| isLoading := false; hookError := None; sent := [] |}.

(** The [TransactionSummary] of [types/distribution.ts]. *)
Module Summary.
Record TransactionSummary := {
  type : DistributionType;
  recipientCount : nat;
  totalAmount : jsstring;
  tokenSymbol : jsstring;
  estimatedFee : jsstring
}.
End Summary.

Section Summaries.
Context {F : NumberFormat}.
Variable tokenAddress : jsstring.

(** [recipient.amount || '0'] *)
Definition amount_or_zero (recipient : Recipient) : jsstring :=
  match amount recipient with
  | Some ((_ :: _) as a) => a
  | _ => lit "0"
  end.

Definition prepareSummary (state : DistributionState)
  : Summary.TransactionSummary :=
  let totalAmount :=
    match type state with
    | equal => totalAmount state
    | weighted =>
        Number_toString
          (fold_left (fun sum recipient =>
                        add sum (parseFloat (amount_or_zero recipient)))
                     (recipients state) (Fin 0))
    end in
  {| Summary.type := type state;
     Summary.recipientCount := List.length (recipients state);
     Summary.totalAmount := totalAmount;
     Summary.tokenSymbol :=
       if str_eqb tokenAddress (lit "native") then lit "XLM" else lit "TOKEN";
     Summary.estimatedFee := lit "0.00001" |}.

Definition reset : M unit :=
  setIsLoading false ;;; setError None.

End Summaries.

End DistributionTransaction.

(* ================================================================== *)
(** * [packages/sdk/src/generated/payment-stream]: the error table *)
(* ================================================================== *)

Module PaymentStream.

(** The [Errors] object: numeric keys, in the order in which the object
    enumerates them, with the [message] of each entry. *)
Definition Errors : list (N * string) :=
  [ (1%N, "AlreadyInitialized"%string);
    (2%N, "NotInitialized"%string);
    (3%N, "Unauthorized"%string);
    (4%N, "InvalidAmount"%string);
    (5%N, "InvalidTimeRange"%string);
    (6%N, "StreamNotFound"%string);
    (7%N, "StreamNotActive"%string);
    (8%N, "StreamNotPaused"%string);
    (9%N, "StreamCannotBeCanceled"%string);
    (10%N, "InsufficientWithdrawable"%string);
    (11%N, "TransferFailed"%string);
    (12%N, "FeeTooHigh"%string);
    (13%N, "InvalidRecipient"%string);
    (14%N, "DepositExceedsTotal"%string);
    (15%N, "ArithmeticOverflow"%string);
    (16%N, "InvalidDelegate"%string) ].

(** [Errors[code]?.message] *)
Fixpoint message_of (table : list (N * string)) (code : N) : option string :=
  match table with
  | [] => None
  | (k, m) :: t => if (k =? code)%N then Some m else message_of t code
  end.

(** Modelled from the spec: the error enumeration of the payment-stream
    contract (the Rust sources are not part of the client); section 7
    lists its kinds, and a failed operation carries one of them. *)
Inductive ErrorKind :=
| AlreadyInitialized | NotInitialized | Unauthorized | InvalidAmount
| InvalidTimeRange | StreamNotFound | StreamNotActive | StreamNotPaused
| StreamCannotBeCanceled | InsufficientWithdrawable | TransferFailed
| FeeTooHigh | InvalidRecipient | DepositExceedsTotal | ArithmeticOverflow
| InvalidDelegate.

Definition all_kinds : list ErrorKind :=
  [ AlreadyInitialized; NotInitialized; Unauthorized; InvalidAmount;
    InvalidTimeRange; StreamNotFound; StreamNotActive; StreamNotPaused;
    StreamCannotBeCanceled; InsufficientWithdrawable; TransferFailed;
    FeeTooHigh; InvalidRecipient; DepositExceedsTotal; ArithmeticOverflow;
    InvalidDelegate ].

Definition kind_name (k : ErrorKind) : string :=
  match k with
  | AlreadyInitialized => "AlreadyInitialized"
  | NotInitialized => "NotInitialized"
  | Unauthorized => "Unauthorized"
  | InvalidAmount => "InvalidAmount"
  | InvalidTimeRange => "InvalidTimeRange"
  | StreamNotFound => "StreamNotFound"
  | StreamNotActive => "StreamNotActive"
  | StreamNotPaused => "StreamNotPaused"
  | StreamCannotBeCanceled => "StreamCannotBeCanceled"
  | InsufficientWithdrawable => "InsufficientWithdrawable"
  | TransferFailed => "TransferFailed"
  | FeeTooHigh => "FeeTooHigh"
  | InvalidRecipient => "InvalidRecipient"
  | DepositExceedsTotal => "DepositExceedsTotal"
  | ArithmeticOverflow => "ArithmeticOverflow"
  | InvalidDelegate => "InvalidDelegate"
  end%string.

(** The contract error code of a kind: its 1-based position in the
    enumeration. *)
Definition code (k : ErrorKind) : N :=
  match k with
  | AlreadyInitialized => 1
  | NotInitialized => 2
  | Unauthorized => 3
  | InvalidAmount => 4
  | InvalidTimeRange => 5
  | StreamNotFound => 6
  | StreamNotActive => 7
  | StreamNotPaused => 8
  | StreamCannotBeCanceled => 9
  | InsufficientWithdrawable => 10
  | TransferFailed => 11
  | FeeTooHigh => 12
  | InvalidRecipient => 13
  | DepositExceedsTotal => 14
  | ArithmeticOverflow => 15
  | InvalidDelegate => 16
  end%N.

End PaymentStream.

(* ================================================================== *)
(** * [types/distribution.ts] *)
(* ================================================================== *)

Module Distribution.

Record Recipient := {
  id : jsstring;
  address : jsstring;
  amount : option jsstring;
  isValid : bool;
  validationError : option jsstring
}.

Record ValidationError := {
  field : jsstring;
  message : jsstring;
  recipientId : option jsstring
}.

Record DistributionState := {
  type : DistributionTransaction.DistributionType;
  recipients : list Recipient;
  totalAmount : jsstring;
  stateIsValid : bool;                       (* [isValid] *)
  errors : list ValidationError
}.

(** The fields that [executeTransaction] reads. *)
Definition request_recipient (r : Recipient) : DistributionTransaction.Recipient :=
  {| DistributionTransaction.address := address r;
     DistributionTransaction.amount := amount r |}.

Definition request (s : DistributionState) : DistributionTransaction.DistributionState :=
  {| DistributionTransaction.type := type s;
     DistributionTransaction.recipients := map request_recipient (recipients s);
     DistributionTransaction.totalAmount := totalAmount s |}.

End Distribution.

(* ================================================================== *)
(** * [utils/csv-processing.ts] *)
(* ================================================================== *)

Module CsvProcessing.
Import DistributionTransaction (DistributionType, equal, weighted).
Import StellarValidation AmountValidation.

Record CSVError := {
  line : nat;
  column : option jsstring;
  message : jsstring;
  value : option jsstring
}.

Record CSVProcessingResult := {
  recipients : list Distribution.Recipient;
  errors : list CSVError;
  warnings : list jsstring
}.

Definition MAX_FILE_SIZE : N := 10 * 1024 * 1024.
Definition MAX_RECIPIENTS : nat := 1000.

Definition nat_text (n : nat) : jsstring := Z_toString (Z.of_nat n).

Definition detectHeader (firstLine : jsstring)
    (distributionType : DistributionType) : bool :=
  let columns := map (fun col => toLowerCase (trim col)) (split 44 firstLine) in
  match distributionType with
  | equal => includes columns (lit "address") || includes columns (lit "recipient")
  | weighted =>
      (includes columns (lit "address") || includes columns (lit "recipient"))
      && (includes columns (lit "amount") || includes columns (lit "value"))
  end.

(** What a call of [parseLine] comes to: a recipient, [null], or an
    [Error] thrown with its message. *)
Inductive parsed :=
| Parsed (recipient : Distribution.Recipient)
| Skipped
| Failed (message : jsstring).

(** [now] is the reading of [Date.now()] that goes into the id. *)
Definition parseLine (line : jsstring) (distributionType : DistributionType)
    (lineNumber : nat) (now : Z) : parsed :=
  let columns := map trim (split 44 line) in
  match columns with
  | [] => Skipped
  | [[]] => Skipped
  | address :: rest =>
      let finish (amount : option jsstring) :=
        Parsed {| Distribution.id :=
                    lit "csv-" ++ nat_text lineNumber ++ lit "-"
                      ++ Z_toString now;
                  Distribution.address := address;
                  Distribution.amount := amount;
                  Distribution.isValid := true;
                  Distribution.validationError := None |} in
      match address with
      | [] => Failed (lit "Address is required")
      | _ =>
          match validateStellarAddress address with
          | Some ((_ :: _) as addressError) =>
              Failed (lit "Invalid address: " ++ addressError)
          | _ =>
              match distributionType with
              | weighted =>
                  match rest with
                  | [] =>
                      Failed (lit "Amount is required for weighted distribution")
                  | [] :: _ => Failed (lit "Amount cannot be empty")
                  | amount :: _ =>
                      match validateAmount amount with
                      | Some ((_ :: _) as amountError) =>
                          Failed (lit "Invalid amount: " ++ amountError)
                      | _ => finish (Some amount)
                      end
                  end
              | equal => finish None
              end
          end
      end
  end.

(** One turn of the loop over the lines: [i] is the index of [line].
    What [parseLine] throws is an [Error], whose message is recorded. *)
Definition process_line (distributionType : DistributionType)
    (clock : nat -> Z)
    (acc : list Distribution.Recipient * list CSVError)
    (entry : nat * jsstring) : list Distribution.Recipient * list CSVError :=
  let '(recipients, errors) := acc in
  let '(i, line) := entry in
  let lineNumber := (i + 1)%nat in
  match parseLine line distributionType lineNumber (clock i) with
  | Parsed recipient => (recipients ++ [recipient], errors)
  | Skipped => (recipients, errors)
  | Failed message =>
      (recipients,
       errors ++ [{| line := lineNumber; column := None;
                     message := message; value := Some line |}])
  end.

(** The callback of [recipients.forEach], on the map. *)
Definition note_address (m : list (jsstring * list nat))
    (entry : nat * Distribution.Recipient) : list (jsstring * list nat) :=
  let '(index, recipient) := entry in
  push m (Distribution.address recipient) index.

Definition addressMap (recipients : list Distribution.Recipient)
  : list (jsstring * list nat) :=
  fold_left note_address
            (combine (seq 0 (List.length recipients)) recipients) [].

Definition duplicate_error (startLine : nat) (entry : jsstring * list nat)
  : list CSVError :=
  let '(address, indices) := entry in
  if (1 <? List.length indices)%nat then
    [{| line := 0; column := None;
        message :=
          lit "Duplicate address found: " ++ address ++ lit " (lines: "
            ++ join (lit ", ")
                    (map (fun i => nat_text (i + startLine + 1)) indices)
            ++ lit ")";
        value := Some address |}]
  else [].

(** [text.split('\n').map(line => line.trim()).filter(line => line)] *)
Definition lines_of (text : jsstring) : list jsstring :=
  filter (fun line => match line with [] => false | _ => true end)
         (map trim (split 10 text)).

Definition startLine_of (lines : list jsstring)
    (distributionType : DistributionType) : nat :=
  match lines with
  | firstLine :: _ => if detectHeader firstLine distributionType then 1 else 0
  | [] => 0
  end.

(** [clock i] is the reading of [Date.now()] while line [i] is parsed. *)
Definition processCSVText (clock : nat -> Z) (text : jsstring)
    (distributionType : DistributionType) : CSVProcessingResult :=
  let lines := lines_of text in
  match lines with
  | [] =>
      {| recipients := [];
         errors := [{| line := 0; column := None;
                       message := lit "CSV file is empty"; value := None |}];
         warnings := [] |}
  | _ :: _ =>
      let startLine := startLine_of lines distributionType in
      let warnings :=
        if (MAX_RECIPIENTS <? List.length lines - startLine)%nat then
          [lit "File contains " ++ nat_text (List.length lines - startLine)
             ++ lit " recipients. Only the first " ++ nat_text MAX_RECIPIENTS
             ++ lit " will be processed."]
        else [] in
      let stop := Nat.min (List.length lines) (startLine + MAX_RECIPIENTS) in
      let '(recipients, errors) :=
        fold_left (process_line distributionType clock)
                  (combine (seq startLine (stop - startLine))
                           (skipn startLine lines))
                  ([], []) in
      let errors :=
        errors ++ flat_map (duplicate_error startLine) (addressMap recipients) in
      {| recipients := recipients; errors := errors; warnings := warnings |}
  end.

Definition newline : jsstring := [10%N].

Definition generateCSVTemplate (distributionType : DistributionType) : jsstring :=
  match distributionType with
  | equal =>
      lit "address" ++ newline
        ++ lit "GXXXXXXXXXXXXXXXXXXXXXXXXXXXXXXXXXXXXXXXXXXXXXXXXXXXXXXX" ++ newline
        ++ lit "GYYYYYYYYYYYYYYYYYYYYYYYYYYYYYYYYYYYYYYYYYYYYYYYYYYYYYYY"
  | weighted =>
      lit "address,amount" ++ newline
        ++ lit "GXXXXXXXXXXXXXXXXXXXXXXXXXXXXXXXXXXXXXXXXXXXXXXXXXXXXXXX,100.0000000"
        ++ newline
        ++ lit "GYYYYYYYYYYYYYYYYYYYYYYYYYYYYYYYYYYYYYYYYYYYYYYYYYYYYYYY,250.0000000"
  end.

(** What the functions read of a [File]: [size] is the length of its
    content in bytes, and [text] is what the promise [file.text()]
    settles to: the content as a string, or the reason of a rejection
    when the content cannot be read. *)
Record File := {
  name : jsstring;
  type : jsstring;
  size : N;
  text : DistributionTransaction.outcome jsstring
}.

Definition validateCSVFile (file : File) : option jsstring :=
  let validTypes := [lit "text/csv"; lit "application/csv"; lit "text/plain"] in
  if negb (includes validTypes (type file))
     && negb (endsWith (toLowerCase (name file)) (lit ".csv")) then
    Some (lit "Please select a valid CSV file")
  else
    let maxSize := (1024 * 1024)%N in
    if (maxSize <? size file)%N then
      Some (lit "File size exceeds maximum limit of "
              ++ Z_toString (Z.of_N (maxSize / 1024 / 1024)) ++ lit "MB")
    else if (size file =? 0)%N then Some (lit "The selected file is empty")
    else None.

(** The promise that [processCSVFile] returns: fulfilled with a result,
    or rejected with its own [Error] or with the reason for which
    [file.text()] was rejected. *)
Definition processCSVFile (clock : nat -> Z) (file : File)
    (distributionType : DistributionType)
  : DistributionTransaction.outcome CSVProcessingResult :=
  if (MAX_FILE_SIZE <? size file)%N then
    DistributionTransaction.Raised
      (DistributionTransaction.ErrorObject
         (lit "File size exceeds maximum limit of "
            ++ Z_toString (Z.of_N (MAX_FILE_SIZE / 1024 / 1024))
            ++ lit "MB"))
  else
    match text file with
    | DistributionTransaction.Returned content =>
        DistributionTransaction.Returned
          (processCSVText clock content distributionType)
    | DistributionTransaction.Raised reason =>
        DistributionTransaction.Raised reason
    end.

(** *** Notions for the statements *)

(** What [parseLine] checked of a recipient that it returns. *)
Definition well_formed (ty : DistributionType) (r : Distribution.Recipient)
  : Prop :=
  validateStellarAddress (Distribution.address r) = None
  /\ Distribution.isValid r = true
  /\ Distribution.validationError r = None
  /\ match ty with
     | weighted => exists a, Distribution.amount r = Some a
                             /\ validateAmount a = None
     | equal => Distribution.amount r = None
     end.

(** The lines that reach the loop: trimmed and not empty. *)
Definition trimmed_line (l : jsstring) : Prop := l <> [] /\ trim l = l.

(** The errors that carry the number of a line. *)
Definition line_error (e : CSVError) : bool := negb (line e =? 0)%nat.

(** [m.get(k)], the empty array standing for [undefined]. *)
Definition get (m : list (jsstring * list nat)) (k : jsstring) : list nat :=
  match find (fun e => str_eqb (fst e) k) m with
  | Some e => snd e
  | None => []
  end.

End CsvProcessing.

(* ================================================================== *)
(** * [hooks/use-distribution-state.ts] *)
(* ================================================================== *)

Module DistributionStateHook.
Import DistributionTransaction (DistributionType, equal, weighted).
Import StellarValidation AmountValidation.
Import Distribution.

Definition createInitialState : DistributionState :=
  {| type := equal;
     recipients := [];
     totalAmount := [];
     stateIsValid := false;
     errors := [{| field := lit "recipients";
                   message := lit "At least one recipient is required";
                   recipientId := None |}] |}.

(** The callback of [recipients.forEach] in [validateState], on the
    errors collected so far. *)
Definition check_recipient (ty : DistributionType)
    (errors : list ValidationError) (entry : nat * Recipient)
  : list ValidationError :=
  let '(index, recipient) := entry in
  let errors :=
    match validateStellarAddress (address recipient) with
    | Some ((_ :: _) as addressError) =>
        errors ++ [{| field := lit "recipients";
                      message := lit "Recipient " ++ Z_toString (Z.of_nat (index + 1))
                                   ++ lit ": " ++ addressError;
                      recipientId := Some (id recipient) |}]
    | _ => errors
    end in
  match ty, amount recipient with
  | weighted, Some a =>
      match validateAmount a with
      | Some ((_ :: _) as amountError) =>
          errors ++ [{| field := lit "recipients";
                        message := lit "Recipient "
                                     ++ Z_toString (Z.of_nat (index + 1))
                                     ++ lit " amount: " ++ amountError;
                        recipientId := Some (id recipient) |}]
      | _ => errors
      end
  | _, _ => errors
  end.

Definition validateState (currentState : DistributionState)
  : list ValidationError :=
  let errors :=
    match recipients currentState with
    | [] => [{| field := lit "recipients";
                message := lit "At least one recipient is required";
                recipientId := None |}]
    | _ => []
    end in
  let errors :=
    fold_left (check_recipient (type currentState))
              (combine (seq 0 (List.length (recipients currentState)))
                       (recipients currentState))
              errors in
  let addresses :=
    filter (fun addr => negb (str_eqb (trim addr) []))
           (map address (recipients currentState)) in
  let duplicates := findDuplicateAddresses addresses in
  let errors :=
    match duplicates with
    | [] => errors
    | _ => errors ++ [{| field := lit "recipients";
                         message := lit "Duplicate addresses found: "
                                      ++ join (lit ", ") duplicates;
                         recipientId := None |}]
    end in
  match type currentState with
  | equal =>
      match totalAmount currentState with
      | [] => errors ++ [{| field := lit "totalAmount";
                            message := lit "Total amount is required for equal distribution";
                            recipientId := None |}]
      | _ =>
          if str_eqb (trim (totalAmount currentState)) [] then
            errors ++ [{| field := lit "totalAmount";
                          message := lit "Total amount is required for equal distribution";
                          recipientId := None |}]
          else
            match validateAmount (totalAmount currentState) with
            | Some ((_ :: _) as totalAmountError) =>
                errors ++ [{| field := lit "totalAmount";
                              message := totalAmountError;
                              recipientId := None |}]
            | _ => errors
            end
      end
  | weighted => errors
  end.

(** [{ ...newState, errors, isValid: errors.length === 0 }] *)
Definition validated (newState : DistributionState) : DistributionState :=
  let errors := validateState newState in
  {| type := type newState;
     recipients := recipients newState;
     totalAmount := totalAmount newState;
     stateIsValid := match errors with [] => true | _ => false end;
     errors := errors |}.

(** [amount || ''] *)
Definition or_empty (a : option jsstring) : jsstring :=
  match a with
  | Some a => a
  | None => []
  end.

Definition updateType (ty : DistributionType) (prevState : DistributionState)
  : DistributionState :=
  validated
    {| type := ty;
       recipients :=
         map (fun recipient =>
                {| id := id recipient;
                   address := address recipient;
                   amount := match ty with
                             | weighted => Some (or_empty (amount recipient))
                             | equal => None
                             end;
                   isValid := true;
                   validationError := None |})
             (recipients prevState);
       totalAmount := match ty with
                      | equal => totalAmount prevState
                      | weighted => []
                      end;
       stateIsValid := stateIsValid prevState;
       errors := errors prevState |}.

(** [newId] is what [generateRecipientId()] returns; [address] and
    [amount] are the optional arguments. *)
Definition addRecipient (newId : jsstring) (address : option jsstring)
    (amount : option jsstring) (prevState : DistributionState)
  : DistributionState :=
  let newRecipient :=
    {| id := newId;
       Distribution.address := trim (or_empty address);
       Distribution.amount := match type prevState with
                              | weighted => Some (or_empty amount)
                              | equal => None
                              end;
       isValid := true;
       validationError := None |} in
  validated
    {| type := type prevState;
       recipients := recipients prevState ++ [newRecipient];
       totalAmount := totalAmount prevState;
       stateIsValid := stateIsValid prevState;
       errors := errors prevState |}.

(** A [Partial<Recipient>]: the keys that are present.  [isValid] and
    [validationError], which the update overrides, are left out; a
    present [amount] may hold [undefined]. *)
Record Updates := {
  new_id : option jsstring;
  new_address : option jsstring;
  new_amount : option (option jsstring)
}.

Definition updateRecipient (target : jsstring) (updates : Updates)
    (prevState : DistributionState) : DistributionState :=
  validated
    {| type := type prevState;
       recipients :=
         map (fun recipient =>
                if str_eqb (id recipient) target then
                  {| id := match new_id updates with
                           | Some i => i
                           | None => id recipient
                           end;
                     address := match new_address updates with
                                | Some a => a
                                | None => address recipient
                                end;
                     amount := match new_amount updates with
                               | Some a => a
                               | None => amount recipient
                               end;
                     isValid := true;
                     validationError := None |}
                else recipient)
             (recipients prevState);
       totalAmount := totalAmount prevState;
       stateIsValid := stateIsValid prevState;
       errors := errors prevState |}.

Definition removeRecipient (target : jsstring) (prevState : DistributionState)
  : DistributionState :=
  validated
    {| type := type prevState;
       recipients :=
         filter (fun recipient => negb (str_eqb (id recipient) target))
                (recipients prevState);
       totalAmount := totalAmount prevState;
       stateIsValid := stateIsValid prevState;
       errors := errors prevState |}.

Definition bulkAddRecipients (added : list Recipient)
    (prevState : DistributionState) : DistributionState :=
  validated
    {| type := type prevState;
       recipients := recipients prevState ++ added;
       totalAmount := totalAmount prevState;
       stateIsValid := stateIsValid prevState;
       errors := errors prevState |}.

Definition replaceRecipients (replacement : list Recipient)
    (prevState : DistributionState) : DistributionState :=
  validated
    {| type := type prevState;
       recipients := replacement;
       totalAmount := totalAmount prevState;
       stateIsValid := stateIsValid prevState;
       errors := errors prevState |}.

Definition setTotalAmount (amount : jsstring) (prevState : DistributionState)
  : DistributionState :=
  validated
    {| type := type prevState;
       recipients := recipients prevState;
       totalAmount := amount;
       stateIsValid := stateIsValid prevState;
       errors := errors prevState |}.

Definition reset (prevState : DistributionState) : DistributionState :=
  createInitialState.

Definition revalidate (prevState : DistributionState) : DistributionState :=
  validated prevState.

(** The actions of the hook, and the state after one of them. *)
Inductive action :=
| UpdateType (ty : DistributionType)
| AddRecipient (newId : jsstring) (address amount : option jsstring)
| UpdateRecipient (target : jsstring) (updates : Updates)
| RemoveRecipient (target : jsstring)
| BulkAddRecipients (added : list Recipient)
| ReplaceRecipients (replacement : list Recipient)
| SetTotalAmount (amount : jsstring)
| Reset
| Revalidate.

Definition act (state : DistributionState) (a : action) : DistributionState :=
  match a with
  | UpdateType ty => updateType ty state
  | AddRecipient newId address amount => addRecipient newId address amount state
  | UpdateRecipient target updates => updateRecipient target updates state
  | RemoveRecipient target => removeRecipient target state
  | BulkAddRecipients added => bulkAddRecipients added state
  | ReplaceRecipients replacement => replaceRecipients replacement state
  | SetTotalAmount amount => setTotalAmount amount state
  | Reset => reset state
  | Revalidate => revalidate state
  end.

(** The state after the actions [actions], from the initial state. *)
Definition run (actions : list action) : DistributionState :=
  fold_left act actions createInitialState.

Record CalculatedValues := {
  perRecipientAmount : option jsstring;
  calculatedTotal : jsstring;                (* [totalAmount] *)
  recipientCount : nat;
  validRecipientCount : option nat
}.

Section Calculated.
Context {F : NumberFormat}.

Definition calculatedValues (state : DistributionState) : CalculatedValues :=
  match type state, totalAmount state, recipients state with
  | equal, _ :: _, _ :: _ =>
      {| perRecipientAmount :=
           Some (calculateEqualAmount (totalAmount state)
                   (ofZ (Z.of_nat (List.length (recipients state)))));
         calculatedTotal := totalAmount state;
         recipientCount := List.length (recipients state);
         validRecipientCount := None |}
  | weighted, _, _ =>
      let amounts :=
        filter (fun amount => negb (str_eqb amount []))
               (map (fun r => match amount r with
                              | Some ((_ :: _) as a) => a
                              | _ => lit "0"
                              end)
                    (recipients state)) in
      {| perRecipientAmount := None;
         calculatedTotal := calculateTotalAmount amounts;
         recipientCount := List.length (recipients state);
         validRecipientCount := Some (List.length amounts) |}
  | _, _, _ =>
      {| perRecipientAmount := None;
         calculatedTotal := lit "0";
         recipientCount := List.length (recipients state);
         validRecipientCount := None |}
  end.

End Calculated.
(** *** Notions for the statements *)

(** What [validateState] asks of one recipient. *)
Definition recipient_ok (ty : DistributionType) (r : Recipient) : Prop :=
  validateStellarAddress (address r) = None
  /\ (ty = weighted -> forall a, amount r = Some a -> validateAmount a = None).

(** The flag and the errors of a state agree with a fresh validation on
    whether the state is valid. *)
Definition coherent (s : DistributionState) : Prop :=
  (stateIsValid s = true <-> validateState s = [])
  /\ (errors s = [] <-> validateState s = []).

Definition switch (s : DistributionState) (ty : DistributionType)
  : DistributionState :=
  updateType ty s.

(** The state after a type was chosen, a total entered and the
    recipients of a file put in place. *)
Definition imported (ty : DistributionType) (total : jsstring)
    (rs : list Recipient) : DistributionState :=
  replaceRecipients rs (setTotalAmount total (updateType ty createInitialState)).

(** The request that [executeTransaction] sends for a state. *)
Definition request_call {F : NumberFormat} (sender token : jsstring)
    (s : DistributionState) : DistributionTransaction.call :=
  match type s with
  | equal =>
      DistributionTransaction.distributeEqual sender token
        (DistributionTransaction.toStroopsString (parseFloat (totalAmount s)))
        (map address (recipients s))
  | weighted =>
      DistributionTransaction.distributeWeighted sender token
        (map address (recipients s))
        (map (fun r => DistributionTransaction.toStroopsString
                         (DistributionTransaction.parseFloat_opt (amount r)))
             (recipients s))
  end.

End DistributionStateHook.


(* ================================================================== *)
(** * [components/modules/payment-stream/StreamCountdown.tsx] *)
(* ================================================================== *)

Module StreamCountdown.

Record StreamCountdownProps := {
  endTime : number;
  status : jsstring
}.

Record TimeLeft := {
  days : number;
  hours : number;
  minutes : number;
  seconds : number
}.

Section Component.
Context {A : Arith}.

(** The [useMemo] body, for the clock reading [currentTime]. *)
Definition timeLeft (p : StreamCountdownProps) (currentTime : number)
  : option TimeLeft :=
  let normalizedStatus := toLowerCase (status p) in
  if negb (str_eqb normalizedStatus (lit "active")) then None
  else
    let diff := sub (endTime p) currentTime in
    if leb diff (Fin 0) then None
    else
      let seconds := floor (rem (div diff (Fin 1000)) (Fin 60)) in
      let minutes :=
        floor (rem (div diff (mul (Fin 1000) (Fin 60))) (Fin 60)) in
      let hours :=
        floor (rem (div diff (mul (mul (Fin 1000) (Fin 60)) (Fin 60)))
                   (Fin 24)) in
      let days :=
        floor (div diff
                 (mul (mul (mul (Fin 1000) (Fin 60)) (Fin 60)) (Fin 24))) in
      Some {| days := days; hours := hours;
              minutes := minutes; seconds := seconds |}.

End Component.
End StreamCountdown.

(* ================================================================== *)
(** * The Standard Library's binary64, for comparison *)
(* ================================================================== *)

Module Reference.

(** The value of a [spec_float] as a [number]. *)
Definition of_spec_float (f : SpecFloat.spec_float) : number :=
  match f with
  | SpecFloat.S754_nan => NaN
  | SpecFloat.S754_infinity s => Inf s
  | SpecFloat.S754_zero _ => Fin 0
  | SpecFloat.S754_finite s m e =>
      let v := match e with
               | Zneg p => Zpos m # (2 ^ p)
               | _ => inject_Z (Zpos m * 2 ^ e)
               end in
      Fin (Qred (if s then - v else v))
  end.

Definition of_Z (z : Z) : SpecFloat.spec_float :=
  match z with
  | Z0 => SpecFloat.S754_zero false
  | Zpos p => SpecFloat.S754_finite false p 0
  | Zneg p => SpecFloat.S754_finite true p 0
  end.

(** [a / b] rounded by [SFdiv] at precision 53 and maximal exponent
    1024. *)
Definition quotient (a b : Z) : number :=
  of_spec_float (SpecFloat.SFdiv 53 1024 (of_Z a) (of_Z b)).

Definition same (x y : number) : bool :=
  match x, y with
  | NaN, NaN => true
  | Inf s, Inf t => Bool.eqb s t
  | Fin p, Fin q => Qeq_bool p q
  | _, _ => false
  end.

(** Quotients, as numerator and positive denominator, around every case
    of the rounding: ties, subnormals, underflow to zero, the largest
    finite value and overflow. *)
Definition samples : list (Z * Z) :=
  [ (1, 10); (2, 3); (-7, 9); (1, 3); (100, 3); (7, 10);
    (9007199254740993, 1); (9007199254740995, 1);
    (9007199254740993, 10000000); (123456789012345678901234567890, 7);
    (1, 2 ^ 1074); (3, 2 ^ 1075); (1, 2 ^ 1075); (5, 2 ^ 1075);
    (4503599627370497, 2 ^ 1075); (1, 10 ^ 320); (-1, 10 ^ 330);
    (2 ^ 1024 - 2 ^ 970, 1); (2 ^ 1024 - 2 ^ 970 - 1, 1);
    (2 ^ 1024, 1); (- 2 ^ 1024, 1); (10 ^ 309, 1) ]%Z.

End Reference.

(* ================================================================== *)
(** * Inputs used as examples *)
(* ================================================================== *)

Module Examples.




Definition example_props (st : string) : StreamProgressBar.StreamProgressBarProps :=
  {| StreamProgressBar.startTime := Fin 0;
     StreamProgressBar.endTime := Fin 1000;
     StreamProgressBar.totalAmount := lit "1000";
     StreamProgressBar.withdrawnAmount := lit "0";
     StreamProgressBar.status := lit st;
     StreamProgressBar.tokenSymbol := lit "XLM" |}.

(** One token over ten ticks, 0.2 of it withdrawn. *)
Definition tenth_props : StreamProgressBar.StreamProgressBarProps :=
  {| StreamProgressBar.startTime := Fin 0;
     StreamProgressBar.endTime := Fin 10;
     StreamProgressBar.totalAmount := lit "1";
     StreamProgressBar.withdrawnAmount := lit "0.2";
     StreamProgressBar.status := lit "active";
     StreamProgressBar.tokenSymbol := lit "XLM" |}.

Definition G_address : jsstring :=
  lit "GAAAAAAAAAAAAAAAAAAAAAAAAAAAAAAAAAAAAAAAAAAAAAAAAAAAAAAA".

(** A weighted distribution whose only amount is not a number. *)
Definition nan_state : DistributionTransaction.DistributionState :=
  {| DistributionTransaction.type := DistributionTransaction.weighted;
     DistributionTransaction.recipients :=
       [ {| DistributionTransaction.address := G_address;
            DistributionTransaction.amount := Some (lit "abc") |} ];
     DistributionTransaction.totalAmount := [] |}.

(** An equal distribution to nobody. *)
Definition empty_state : DistributionTransaction.DistributionState :=
  {| DistributionTransaction.type := DistributionTransaction.equal;
     DistributionTransaction.recipients := [];
     DistributionTransaction.totalAmount := lit "100" |}.

(** An equal distribution of the total "-5" to one recipient. *)
Definition negative_state : DistributionTransaction.DistributionState :=
  {| DistributionTransaction.type := DistributionTransaction.equal;
     DistributionTransaction.recipients :=
       [ {| DistributionTransaction.address := G_address;
            DistributionTransaction.amount := None |} ];
     DistributionTransaction.totalAmount := lit "-5" |}.

(** A service that accepts every request. *)
Definition accepting : DistributionTransaction.StellarService :=
  fun _ => DistributionTransaction.Returned (lit "hash").

(** A [Number::toString] for the witnesses; its text is never reached. *)
Definition plain_format : NumberFormat := fun _ => [].

(** A clock that stands still. *)
Definition still : nat -> Z := fun _ => 0%Z.

(** A file of blank lines. *)
Definition blank_text : jsstring :=
  lit "  " ++ CsvProcessing.newline ++ lit " " ++ CsvProcessing.newline.

(** A file that holds the template of an equal distribution, 121
    characters of ASCII. *)
Definition sample_file : CsvProcessing.File :=
  {| CsvProcessing.name := lit "Recipients.CSV";
     CsvProcessing.type := [];
     CsvProcessing.size := 121;
     CsvProcessing.text :=
       DistributionTransaction.Returned
         (CsvProcessing.generateCSVTemplate DistributionTransaction.equal) |}.



(** A stream whose total was not loaded. *)
Definition unloaded_props : StreamProgressBar.StreamProgressBarProps :=
  {| StreamProgressBar.startTime := Fin 0;
     StreamProgressBar.endTime := Fin 10;
     StreamProgressBar.totalAmount := [];
     StreamProgressBar.withdrawnAmount := lit "0";
     StreamProgressBar.status := lit "active";
     StreamProgressBar.tokenSymbol := lit "XLM" |}.

(** The first recipient of the template of an equal distribution, read
    on line 2 while the clock shows 0. *)
Definition template_recipient : Distribution.Recipient :=
  {| Distribution.id := lit "csv-2-0";
     Distribution.address :=
       lit "GXXXXXXXXXXXXXXXXXXXXXXXXXXXXXXXXXXXXXXXXXXXXXXXXXXXXXXX";
     Distribution.amount := None;
     Distribution.isValid := true;
     Distribution.validationError := None |}.

(** A weighted distribution whose only recipient has no amount. *)
Definition missing_amount_state : Distribution.DistributionState :=
  {| Distribution.type := DistributionTransaction.weighted;
     Distribution.recipients :=
       [ {| Distribution.id := lit "r1";
            Distribution.address := G_address;
            Distribution.amount := None;
            Distribution.isValid := true;
            Distribution.validationError := None |} ];
     Distribution.totalAmount := [];
     Distribution.stateIsValid := true;
     Distribution.errors := [] |}.

(** An equal distribution of 100 to one recipient. *)
Definition ready_state : Distribution.DistributionState :=
  {| Distribution.type := DistributionTransaction.equal;
     Distribution.recipients := [template_recipient];
     Distribution.totalAmount := lit "100";
     Distribution.stateIsValid := true;
     Distribution.errors := [] |}.

End Examples.

(* ================================================================== *)
(** * Properties *)
(* ================================================================== *)

Import AmountValidation StellarValidation VestingSpec.
Import DistributionTransaction PaymentStream StreamProgressBar Examples.

(** ** The rounding, against the Standard Library's

    On the sample quotients [binary64] returns what [SFdiv] of
    [SpecFloat] returns at the binary64 format. *)

Lemma binary64_agrees_on_samples :
  forallb (fun p => Reference.same (binary64 (fst p # Z.to_pos (snd p)))
                                   (Reference.quotient (fst p) (snd p)))
          Reference.samples = true.
Proof. vm_compute. reflexivity. Qed.

(** ** Integer parts and rounding to an integer *)

Lemma Qfloor_spec (y : Q) : inject_Z (Qfloor y) <= y < inject_Z (Qfloor y) + 1.
Proof.
  split; [apply Qfloor_le|].
  generalize (Qlt_floor y). rewrite inject_Z_plus. auto.
Qed.

Lemma Qfloor_mono (x y : Q) : x <= y -> (Qfloor x <= Qfloor y)%Z.
Proof. apply Qfloor_resp_le. Qed.

Lemma Qfloor_ge (n : Z) (y : Q) : inject_Z n <= y -> (n <= Qfloor y)%Z.
Proof.
  intros H. rewrite <- (Qfloor_Z n). now apply Qfloor_resp_le.
Qed.

Lemma Qfloor_lt (n : Z) (y : Q) : y < inject_Z n -> (Qfloor y < n)%Z.
Proof.
  intros H. destruct (Z_lt_le_dec (Qfloor y) n) as [|Hc]; [assumption|].
  exfalso. apply (Qlt_irrefl y). eapply Qlt_le_trans; [exact H|].
  eapply Qle_trans; [|apply Qfloor_le]. rewrite <- Zle_Qle. exact Hc.
Qed.

Lemma half_even_bounds (y : Q) :
  inject_Z (half_even y) - (1 # 2) <= y <= inject_Z (half_even y) + (1 # 2).
Proof.
  unfold half_even. generalize (Qfloor_spec y).
  set (f := Qfloor y). intros [H1 H2].
  destruct (Qcompare_spec (y - inject_Z f) (1 # 2)) as [E|E|E].
  - destruct (Z.even f); rewrite ?inject_Z_plus; change (inject_Z 1) with 1;
      split; lra.
  - split; lra.
  - rewrite inject_Z_plus. change (inject_Z 1) with 1. split; lra.
Qed.

Lemma half_even_mono (x y : Q) : x <= y -> (half_even x <= half_even y)%Z.
Proof.
  intros Hxy. pose proof (Qfloor_mono Hxy) as Hf.
  unfold half_even.
  generalize (Qfloor_spec x) (Qfloor_spec y).
  set (f := Qfloor x) in *. set (g := Qfloor y) in *. intros [X1 X2] [Y1 Y2].
  destruct (Z.eq_dec f g) as [E|NE].
  - rewrite <- E in *.
    destruct (Qcompare_spec (x - inject_Z f) (1 # 2)) as [Ex|Ex|Ex];
    destruct (Qcompare_spec (y - inject_Z f) (1 # 2)) as [Ey|Ey|Ey];
    destruct (Z.even f); try lia; exfalso; lra.
  - assert (f + 1 <= g)%Z by lia.
    destruct (Qcompare (x - inject_Z f) (1 # 2));
    destruct (Qcompare (y - inject_Z g) (1 # 2));
    destruct (Z.even f); destruct (Z.even g); lia.
Qed.

Lemma half_even_Z (n : Z) : half_even (inject_Z n) = n.
Proof.
  unfold half_even. rewrite Qfloor_Z.
  destruct (Qcompare_spec (inject_Z n - inject_Z n) (1 # 2)) as [E|E|E].
  - exfalso. lra.
  - reflexivity.
  - exfalso. lra.
Qed.

Lemma half_even_ge (n : Z) (y : Q) : inject_Z n <= y -> (n <= half_even y)%Z.
Proof. intros H. rewrite <- (half_even_Z n). now apply half_even_mono. Qed.

Lemma half_even_le (n : Z) (y : Q) : y <= inject_Z n -> (half_even y <= n)%Z.
Proof. intros H. rewrite <- (half_even_Z n). now apply half_even_mono. Qed.

(** ** Monotonicity of binary64 rounding *)

Lemma p2_pos (k : Z) : (0 <= k)%Z -> 0 < p2 k.
Proof.
  intros H. unfold p2. change 0 with (inject_Z 0). rewrite <- Zlt_Qlt.
  apply Z.pow_pos_nonneg; lia.
Qed.

Lemma p2_add (a b : Z) : (0 <= a)%Z -> (0 <= b)%Z -> p2 (a + b) == p2 a * p2 b.
Proof.
  intros Ha Hb. unfold p2. rewrite Z.pow_add_r by assumption.
  now rewrite inject_Z_mult.
Qed.

Lemma p2_le (a b : Z) : (0 <= a <= b)%Z -> p2 a <= p2 b.
Proof.
  intros H. unfold p2. rewrite <- Zle_Qle. apply Z.pow_le_mono_r; lia.
Qed.

Lemma ulp_exp_nonneg (X : Q) : (0 <= ulp_exp X)%Z.
Proof. unfold ulp_exp. lia. Qed.

Lemma ulp_exp_mono (X Y : Q) : X <= Y -> (ulp_exp X <= ulp_exp Y)%Z.
Proof.
  intros H. unfold ulp_exp.
  pose proof (Z.log2_le_mono _ _ (Qfloor_mono H)). lia.
Qed.

Lemma ulp_exp_upper (X : Q) : X < p2 (53 + ulp_exp X).
Proof.
  unfold p2. apply Qlt_le_trans with (inject_Z (Qfloor X + 1)).
  - rewrite inject_Z_plus. apply (Qfloor_spec X).
  - rewrite <- Zle_Qle.
    assert (Qfloor X < 2 ^ (53 + ulp_exp X))%Z; [|lia].
    destruct (Z_lt_le_dec 0 (Qfloor X)) as [Hp|Hn].
    + destruct (Z.log2_spec _ Hp) as [_ Hu].
      eapply Z.lt_le_trans; [exact Hu|].
      apply Z.pow_le_mono_r; [lia|]. unfold ulp_exp. lia.
    + eapply Z.le_lt_trans; [exact Hn|].
      apply Z.pow_pos_nonneg; [lia|]. pose proof (ulp_exp_nonneg X). lia.
Qed.

Lemma ulp_exp_lower (X : Q) : (0 < ulp_exp X)%Z -> p2 (52 + ulp_exp X) <= X.
Proof.
  intros HD. unfold p2.
  apply Qle_trans with (inject_Z (Qfloor X)); [|apply Qfloor_le].
  rewrite <- Zle_Qle. unfold ulp_exp in *.
  assert (Hp : (0 < Qfloor X)%Z).
  { destruct (Z_lt_le_dec 0 (Qfloor X)) as [|Hn]; [assumption|].
    rewrite (Z.log2_nonpos _ Hn) in HD. lia. }
  destruct (Z.log2_spec _ Hp) as [Hl _].
  replace (52 + Z.max 0 (Z.log2 (Qfloor X) - 52))%Z with (Z.log2 (Qfloor X)) by lia.
  exact Hl.
Qed.


Lemma round_units_upper (X : Q) : round_units X <= p2 (53 + ulp_exp X).
Proof.
  unfold round_units. pose proof (ulp_exp_nonneg X) as HD.
  pose proof (p2_pos HD) as Hs.
  rewrite p2_add by lia.
  apply Qmult_le_compat_r; [|lra].
  unfold p2 at 2. rewrite <- Zle_Qle. apply half_even_le.
  apply Qle_shift_div_r; [assumption|].
  fold (p2 53). rewrite <- p2_add by lia.
  apply Qlt_le_weak, ulp_exp_upper.
Qed.

Lemma round_units_lower (X : Q) :
  (0 < ulp_exp X)%Z -> p2 (52 + ulp_exp X) <= round_units X.
Proof.
  intros HD. unfold round_units.
  assert (Hs : 0 < p2 (ulp_exp X)) by (apply p2_pos; lia).
  rewrite p2_add by lia.
  apply Qmult_le_compat_r; [|lra].
  unfold p2 at 1. rewrite <- Zle_Qle. apply half_even_ge.
  apply Qle_shift_div_l; [assumption|].
  fold (p2 52). rewrite <- p2_add by lia.
  now apply ulp_exp_lower.
Qed.

Lemma round_units_mono (X Y : Q) : X <= Y -> round_units X <= round_units Y.
Proof.
  intros H. pose proof (ulp_exp_mono H) as HD.
  pose proof (ulp_exp_nonneg X) as HX.
  destruct (Z.eq_dec (ulp_exp X) (ulp_exp Y)) as [E|NE].
  - unfold round_units. rewrite E.
    assert (Hs : 0 < p2 (ulp_exp Y)) by (apply p2_pos; lia).
    apply Qmult_le_compat_r; [|lra].
    rewrite <- Zle_Qle. apply half_even_mono.
    apply Qmult_le_compat_r; [assumption|].
    apply Qlt_le_weak, Qinv_lt_0_compat, Hs.
  - apply Qle_trans with (p2 (53 + ulp_exp X)); [apply round_units_upper|].
    apply Qle_trans with (p2 (52 + ulp_exp Y)); [apply p2_le; lia|].
    apply round_units_lower. lia.
Qed.

Lemma quantum_pos : 0 < quantum.
Proof. reflexivity. Qed.

Lemma round_pos_units (x : Q) : round_pos x == round_units (x / quantum) * quantum.
Proof. unfold round_pos, round_units, p2. ring. Qed.

Lemma round_pos_mono (x y : Q) : x <= y -> round_pos x <= round_pos y.
Proof.
  intros H. rewrite !round_pos_units.
  apply Qmult_le_compat_r; [|apply Qlt_le_weak, quantum_pos].
  apply round_units_mono.
  apply Qmult_le_compat_r; [assumption|].
  apply Qlt_le_weak, Qinv_lt_0_compat, quantum_pos.
Qed.

(** ** binary64 as a monotone function into the numbers *)

Lemma round_pos_0 : round_pos 0 == 0.
Proof. reflexivity. Qed.

Lemma round_pos_nonneg (x : Q) : 0 <= x -> 0 <= round_pos x.
Proof. intros H. rewrite <- round_pos_0. now apply round_pos_mono. Qed.

Lemma leb_Fin (x y : Q) : leb (Fin x) (Fin y) = true <-> x <= y.
Proof. simpl. apply Qle_bool_iff. Qed.

Lemma Qle_bool_false (x y : Q) : Qle_bool x y = false <-> y < x.
Proof.
  split; intros H.
  - apply Qnot_le_lt. intros C. apply Qle_bool_iff in C. congruence.
  - destruct (Qle_bool x y) eqn:E; [|reflexivity].
    apply Qle_bool_iff in E. exfalso. lra.
Qed.

Lemma binary64_mono (x y : Q) : x <= y -> leb (binary64 x) (binary64 y) = true.
Proof.
  intros H. unfold binary64.
  destruct (Qcompare_spec x 0) as [Ex|Ex|Ex];
  destruct (Qcompare_spec y 0) as [Ey|Ey|Ey]; try (exfalso; lra).
  - reflexivity.
  - destruct (Qle_bool overflow_threshold (round_pos y)); [reflexivity|].
    apply leb_Fin. rewrite Qred_correct. apply round_pos_nonneg. lra.
  - destruct (Qle_bool overflow_threshold (round_pos (- x))); [reflexivity|].
    apply leb_Fin. rewrite Qred_correct.
    assert (0 <= round_pos (- x)) by (apply round_pos_nonneg; lra). lra.
  - assert (Hm : round_pos (- y) <= round_pos (- x)) by (apply round_pos_mono; lra).
    destruct (Qle_bool overflow_threshold (round_pos (- x))) eqn:Ox;
    destruct (Qle_bool overflow_threshold (round_pos (- y))) eqn:Oy;
      try reflexivity.
    + apply Qle_bool_iff in Oy. apply Qle_bool_false in Ox. exfalso. lra.
    + apply leb_Fin. rewrite !Qred_correct. lra.
  - destruct (Qle_bool overflow_threshold (round_pos (- x)));
    destruct (Qle_bool overflow_threshold (round_pos y)); try reflexivity.
    apply leb_Fin. rewrite !Qred_correct.
    assert (0 <= round_pos (- x)) by (apply round_pos_nonneg; lra).
    assert (0 <= round_pos y) by (apply round_pos_nonneg; lra). lra.
  - assert (Hm : round_pos x <= round_pos y) by (apply round_pos_mono; lra).
    destruct (Qle_bool overflow_threshold (round_pos x)) eqn:Ox;
    destruct (Qle_bool overflow_threshold (round_pos y)) eqn:Oy;
      try reflexivity.
    + apply Qle_bool_iff in Ox. apply Qle_bool_false in Oy. exfalso. lra.
    + apply leb_Fin. rewrite !Qred_correct. lra.
Qed.

(** ** Order, minimum, maximum and the monotone operations *)

(** ** The order of numbers *)

Lemma num_le_trans (a b c : number) : num_le a b -> num_le b c -> num_le a c.
Proof.
  unfold num_le. destruct a as [|[]|x], b as [|[]|y], c as [|[]|z]; simpl;
    try congruence; try reflexivity.
  rewrite !Qle_bool_iff. apply Qle_trans.
Qed.

Lemma num_le_refl (a : number) : isNaN a = false -> num_le a a.
Proof.
  unfold num_le. destruct a as [|[]|x]; simpl; try congruence.
  intros _. apply Qle_bool_iff. apply Qle_refl.
Qed.

Lemma num_le_real_l (a b : number) : num_le a b -> isNaN a = false.
Proof. unfold num_le. destruct a; simpl; congruence. Qed.

Lemma num_le_real_r (a b : number) : num_le a b -> isNaN b = false.
Proof. unfold num_le. destruct a as [|[]|], b; simpl; congruence. Qed.

Lemma leb_false_le (a b : number) :
  isNaN a = false -> isNaN b = false -> leb a b = false -> num_le b a.
Proof.
  unfold num_le. destruct a as [|[]|x], b as [|[]|y]; simpl; try congruence.
  intros _ _ H. apply Qle_bool_false in H. apply Qle_bool_iff. lra.
Qed.

Lemma ltb_le (a b : number) : ltb a b = true -> num_le a b.
Proof.
  unfold num_le. destruct a as [|[]|x], b as [|[]|y]; simpl; try congruence.
  destruct (Qcompare_spec x y) as [E|E|E]; try congruence. intros _.
  apply Qle_bool_iff. lra.
Qed.

Lemma ltb_le_trans (a b c : number) : ltb a b = true -> num_le b c -> ltb a c = true.
Proof.
  unfold num_le. destruct a as [|[]|x], b as [|[]|y], c as [|[]|z]; simpl;
    try congruence.
  rewrite Qle_bool_iff.
  destruct (Qcompare_spec x y) as [E|E|E]; try congruence. intros _ H.
  destruct (Qcompare_spec x z) as [E'|E'|E']; try reflexivity; exfalso; lra.
Qed.

Lemma min_real (a b : number) :
  isNaN a = false -> isNaN b = false -> min a b = if leb a b then a else b.
Proof. destruct a, b; simpl; congruence. Qed.

Lemma max_real (a b : number) :
  isNaN a = false -> isNaN b = false -> max a b = if leb a b then b else a.
Proof. destruct a, b; simpl; congruence. Qed.

Lemma min_le_l (a b : number) :
  isNaN a = false -> isNaN b = false -> num_le (min a b) a.
Proof.
  intros Ha Hb. rewrite min_real by assumption.
  destruct (leb a b) eqn:E; [now apply num_le_refl | now apply leb_false_le].
Qed.

Lemma min_le_r (a b : number) :
  isNaN a = false -> isNaN b = false -> num_le (min a b) b.
Proof.
  intros Ha Hb. rewrite min_real by assumption.
  destruct (leb a b) eqn:E; [exact E | now apply num_le_refl].
Qed.

Lemma min_glb (a b c : number) : num_le c a -> num_le c b -> num_le c (min a b).
Proof.
  intros Ha Hb. rewrite min_real by eauto using num_le_real_r.
  now destruct (leb a b).
Qed.

Lemma max_le_l (a b : number) :
  isNaN a = false -> isNaN b = false -> num_le a (max a b).
Proof.
  intros Ha Hb. rewrite max_real by assumption.
  destruct (leb a b) eqn:E; [exact E | now apply num_le_refl].
Qed.

Lemma max_le_r (a b : number) :
  isNaN a = false -> isNaN b = false -> num_le b (max a b).
Proof.
  intros Ha Hb. rewrite max_real by assumption.
  destruct (leb a b) eqn:E; [now apply num_le_refl | now apply leb_false_le].
Qed.

Lemma max_lub (a b c : number) : num_le a c -> num_le b c -> num_le (max a b) c.
Proof.
  intros Ha Hb. rewrite max_real by eauto using num_le_real_l.
  now destruct (leb a b).
Qed.

Lemma min_isNaN (a b : number) :
  isNaN a = false -> isNaN b = false -> isNaN (min a b) = false.
Proof. intros. rewrite min_real by assumption. now destruct (leb a b). Qed.

Lemma max_isNaN (a b : number) :
  isNaN a = false -> isNaN b = false -> isNaN (max a b) = false.
Proof. intros. rewrite max_real by assumption. now destruct (leb a b). Qed.

Lemma min_mono (a b b' : number) :
  isNaN a = false -> num_le b b' -> num_le (min a b) (min a b').
Proof.
  intros Ha H. pose proof (num_le_real_l H). pose proof (num_le_real_r H).
  apply min_glb; [now apply min_le_l|].
  eapply num_le_trans; [now apply min_le_r | exact H].
Qed.

Lemma min_mono_l (a a' b : number) :
  isNaN b = false -> num_le a a' -> num_le (min a b) (min a' b).
Proof.
  intros Hb H. pose proof (num_le_real_l H). pose proof (num_le_real_r H).
  apply min_glb; [|now apply min_le_r].
  eapply num_le_trans; [now apply min_le_l | exact H].
Qed.

Lemma max_mono (a b b' : number) :
  isNaN a = false -> num_le b b' -> num_le (max a b) (max a b').
Proof.
  intros Ha H. pose proof (num_le_real_l H). pose proof (num_le_real_r H).
  apply max_lub; [now apply max_le_l|].
  eapply num_le_trans; [exact H | now apply max_le_r].
Qed.

Section Laws.
Context {A : Arith} {M : Monotone A}.

Lemma rnd_real (x : Q) : isNaN (rnd x) = false.
Proof. apply num_le_real_l with (rnd x). apply rnd_mono. apply Qle_refl. Qed.

Lemma rnd_nonneg (x : Q) : 0 <= x -> num_le (Fin 0) (rnd x).
Proof. intros H. rewrite <- rnd_zero. now apply rnd_mono. Qed.

Lemma rnd_nonpos (x : Q) : x <= 0 -> num_le (rnd x) (Fin 0).
Proof. intros H. rewrite <- rnd_zero. now apply rnd_mono. Qed.

Lemma sub_mono_l (a a' : number) (s : Q) :
  num_le a a' -> num_le (sub a (Fin s)) (sub a' (Fin s)).
Proof.
  unfold num_le. destruct a as [|[]|x], a' as [|[]|y]; simpl; try congruence;
    intros H; try reflexivity.
  - pose proof (rnd_real (y - s)). destruct (rnd (y - s)); simpl in *; congruence.
  - pose proof (rnd_real (x - s)). destruct (rnd (x - s)) as [|[]|]; simpl in *; congruence.
  - apply Qle_bool_iff in H. apply rnd_mono. lra.
Qed.

Lemma sub_mono_r (a : Q) (b b' : number) :
  num_le b b' -> num_le (sub (Fin a) b') (sub (Fin a) b).
Proof.
  unfold num_le. destruct b as [|[]|x], b' as [|[]|y]; simpl; try congruence;
    intros H; try reflexivity.
  - pose proof (rnd_real (a - y)). destruct (rnd (a - y)) as [|[]|]; simpl in *; congruence.
  - pose proof (rnd_real (a - x)). destruct (rnd (a - x)) as [|[]|]; simpl in *; congruence.
  - apply Qle_bool_iff in H. apply rnd_mono. lra.
Qed.

Lemma Qzero_false (x : Q) : 0 < x -> Qzero x = false.
Proof.
  intros H. unfold Qzero. destruct (Qeq_bool x 0) eqn:E; [|reflexivity].
  apply Qeq_bool_iff in E. exfalso. lra.
Qed.

Lemma Qsign_false (x : Q) : 0 <= x -> Qsign x = false.
Proof.
  intros H. unfold Qsign. destruct (Qcompare_spec x 0); try reflexivity.
  exfalso. lra.
Qed.

(** Multiplication by a positive finite number, on the non-negative
    numbers. *)
Lemma mul_pos_mono (t : Q) (a b : number) :
  0 < t -> num_le (Fin 0) a -> num_le a b -> num_le (mul (Fin t) a) (mul (Fin t) b).
Proof.
  intros Ht. unfold num_le.
  destruct a as [|[]|x], b as [|[]|y]; simpl; try congruence;
    rewrite ?Qzero_false by assumption; rewrite ?(Qsign_false (x:=t)) by lra;
    simpl; try reflexivity; try congruence.
  - intros _ _. pose proof (rnd_real (t * x)).
    destruct (rnd (t * x)) as [|[]|]; simpl in *; congruence.
  - rewrite !Qle_bool_iff. intros H0 H. apply rnd_mono.
    apply Qmult_le_l; assumption.
Qed.

Lemma mul_pos_nonneg (t : Q) (a : number) :
  0 < t -> num_le (Fin 0) a -> num_le (Fin 0) (mul (Fin t) a).
Proof.
  intros Ht. unfold num_le.
  destruct a as [|[]|x]; simpl; try congruence;
    rewrite ?Qzero_false by assumption; rewrite ?(Qsign_false (x:=t)) by lra;
    simpl; try reflexivity.
  rewrite Qle_bool_iff. intros H. apply rnd_nonneg.
  apply Qmult_le_0_compat; lra.
Qed.

Lemma div_pos_mono (d : Q) (a b : number) :
  0 < d -> num_le a b -> num_le (div a (Fin d)) (div b (Fin d)).
Proof.
  intros Hd. unfold num_le.
  destruct a as [|[]|x], b as [|[]|y]; simpl; try congruence;
    rewrite ?Qzero_false by assumption; rewrite ?(Qsign_false (x:=d)) by lra;
    simpl; try reflexivity; try congruence.
  - intros _. pose proof (rnd_real (y / d)).
    destruct (rnd (y / d)) as [|[]|]; simpl in *; congruence.
  - intros _. pose proof (rnd_real (x / d)).
    destruct (rnd (x / d)) as [|[]|]; simpl in *; congruence.
  - rewrite !Qle_bool_iff. intros H. apply rnd_mono.
    apply Qmult_le_compat_r; [assumption|].
    apply Qlt_le_weak, Qinv_lt_0_compat, Hd.
Qed.

Lemma div_pos_nonneg (d : Q) (a : number) :
  0 < d -> num_le (Fin 0) a -> num_le (Fin 0) (div a (Fin d)).
Proof.
  intros Hd H. pose proof (div_pos_mono Hd H) as H'.
  simpl in H'. rewrite Qzero_false in H' by assumption.
  eapply num_le_trans; [|exact H'].
  apply rnd_nonneg. unfold Qdiv. lra.
Qed.

End Laws.

#[export] Instance IEEE754_monotone : Monotone IEEE754.
Proof.
  split.
  - exact binary64_mono.
  - reflexivity.
  - reflexivity.
Qed.

#[export] Instance exact_monotone : Monotone exact.
Proof.
  split.
  - intros x y H. now apply leb_Fin.
  - reflexivity.
  - reflexivity.
Qed.

(** ** The vested size grows with the clock *)

Lemma gtb_zero (x : Q) : gtb (Fin x) zero = true <-> 0 < x.
Proof.
  unfold gtb, zero. simpl. destruct (Qcompare_spec 0 x) as [E|E|E]; split;
    intros H; try congruence; try reflexivity; exfalso; lra.
Qed.

Lemma isValid_inv (T W S E D : number) :
  isValid T W S E D = true ->
  exists t w s e d, T = Fin t /\ W = Fin w /\ S = Fin s /\ E = Fin e
                    /\ D = Fin d /\ 0 < t /\ 0 < d.
Proof.
  unfold isValid. rewrite !andb_true_iff.
  intros [[[[[[HT Ht] HW] HS] HE] HD] Hd].
  destruct T as [| |t], W as [| |w], S as [| |s], E as [| |e], D as [| |d];
    try discriminate.
  exists t, w, s, e, d. apply gtb_zero in Ht. apply gtb_zero in Hd. auto 10.
Qed.

Section Stats.
Context {A : Arith} {M : Monotone A}.

Lemma sub_start_nonneg (now : number) (s : Q) :
  gtb now (Fin s) = true -> num_le (Fin 0) (sub now (Fin s)).
Proof.
  destruct now as [|[]|x]; simpl; try congruence; try reflexivity.
  destruct (Qcompare_spec s x) as [E|E|E]; try congruence. intros _.
  apply rnd_nonneg. lra.
Qed.

Lemma vestedAt_nonneg (t s d : Q) (now : number) :
  0 < t -> 0 < d -> num_le (Fin 0) (vestedAt (Fin t) (Fin s) (Fin d) now).
Proof.
  intros Ht Hd. unfold vestedAt.
  destruct (gtb now (Fin s)) eqn:G; [|now apply num_le_refl].
  apply div_pos_nonneg; [assumption|].
  apply mul_pos_nonneg; [assumption|].
  apply min_glb; [now apply sub_start_nonneg|].
  apply leb_Fin. lra.
Qed.

Lemma vestedAt_mono (t s d : Q) (now1 now2 : number) :
  0 < t -> 0 < d -> num_le now1 now2 ->
  num_le (vestedAt (Fin t) (Fin s) (Fin d) now1)
         (vestedAt (Fin t) (Fin s) (Fin d) now2).
Proof.
  intros Ht Hd H.
  destruct (gtb now1 (Fin s)) eqn:G1.
  - assert (G2 : gtb now2 (Fin s) = true) by (eapply ltb_le_trans; eassumption).
    unfold vestedAt. rewrite G1, G2.
    apply div_pos_mono; [assumption|].
    apply mul_pos_mono; [assumption| |].
    + apply min_glb; [now apply sub_start_nonneg | apply leb_Fin; lra].
    + apply min_mono_l; [reflexivity|]. now apply sub_mono_l.
  - unfold vestedAt at 1. rewrite G1. now apply vestedAt_nonneg.
Qed.

Lemma stats_vestedSize_mono (p : StreamProgressBarProps) (now1 now2 : number) :
  num_le now1 now2 ->
  num_le (vestedSize (stats p now1)) (vestedSize (stats p now2)).
Proof.
  intros H. unfold stats.
  destruct (isValid _ _ _ _ _) eqn:V; simpl; [|reflexivity].
  apply isValid_inv in V.
  destruct V as (t & w & s & e & d & -> & -> & -> & -> & -> & Ht & Hd).
  apply min_mono; [reflexivity|]. apply max_mono; [reflexivity|].
  now apply vestedAt_mono.
Qed.

End Stats.

(** ** The breakdown on valid inputs *)

Lemma between_Fin (a b : Q) (x : number) :
  num_le (Fin a) x -> num_le x (Fin b) -> exists q, x = Fin q /\ a <= q <= b.
Proof.
  unfold num_le. destruct x as [|[]|q]; simpl; try congruence.
  rewrite !Qle_bool_iff. eauto.
Qed.

Lemma nonneg_cases (x : number) :
  num_le (Fin 0) x -> x = Inf false \/ exists q, x = Fin q /\ 0 <= q.
Proof.
  unfold num_le. destruct x as [|[]|q]; simpl; try congruence; auto.
  rewrite Qle_bool_iff. eauto.
Qed.

Lemma max_zero_Fin (x : Q) : 0 <= x -> max zero (Fin x) = Fin x.
Proof.
  intros H. unfold zero. simpl. apply Qle_bool_iff in H. now rewrite H.
Qed.

(** The two clamped sizes. *)
Lemma clamped_sizes (t w : Q) (x : number) :
  0 < t -> num_le (Fin 0) x ->
  exists c k, min (Fin t) (max (Fin w) x) = Fin c
              /\ min (Fin t) (max zero (Fin w)) = Fin k
              /\ 0 <= k /\ k <= c /\ c <= t.
Proof.
  intros Ht Hx. unfold zero.
  assert (Hk : exists k, min (Fin t) (max (Fin 0) (Fin w)) = Fin k
                         /\ 0 <= k <= t /\ (k <= w \/ k <= 0)).
  { simpl. destruct (Qle_bool 0 w) eqn:E1.
    - apply Qle_bool_iff in E1. simpl. destruct (Qle_bool t w) eqn:E2.
      + apply Qle_bool_iff in E2. exists t. repeat split; auto; lra.
      + apply Qle_bool_false in E2. exists w. repeat split; auto; lra.
    - apply Qle_bool_false in E1. simpl. destruct (Qle_bool t 0) eqn:E2.
      + apply Qle_bool_iff in E2. exfalso. lra.
      + exists 0. repeat split; auto; lra. }
  destruct Hk as (k & Ek & Hk & Hkw).
  destruct (nonneg_cases Hx) as [->|(v & -> & Hv)].
  - exists t, k. simpl. repeat split; auto; lra.
  - simpl. destruct (Qle_bool w v) eqn:E1; simpl.
    + apply Qle_bool_iff in E1. destruct (Qle_bool t v) eqn:E2.
      * exists t, k. repeat split; auto; lra.
      * apply Qle_bool_false in E2. exists v, k. repeat split; auto; lra.
    + apply Qle_bool_false in E1. destruct (Qle_bool t w) eqn:E2.
      * exists t, k. repeat split; auto; lra.
      * apply Qle_bool_false in E2. exists w, k. repeat split; auto; lra.
Qed.

Section Shape.
Context {A : Arith} {M : Monotone A}.

Lemma mul_hundred_real (a : number) :
  isNaN a = false -> isNaN (mul a hundred) = false.
Proof.
  destruct a as [|s|x]; simpl; try congruence; intros _.
  apply rnd_real.
Qed.

Lemma div_total_real (x t : Q) : 0 < t -> isNaN (div (Fin x) (Fin t)) = false.
Proof.
  intros Ht. simpl. rewrite Qzero_false by assumption. apply rnd_real.
Qed.

Lemma percent_real (x t : Q) :
  0 < t -> isNaN (mul (div (Fin x) (Fin t)) hundred) = false.
Proof. intros Ht. apply mul_hundred_real. now apply div_total_real. Qed.

Lemma sub_hundred_range (q : Q) :
  0 <= q <= 100 ->
  exists r, sub hundred (Fin q) = Fin r /\ 0 <= r <= 100.
Proof.
  intros Hq. apply between_Fin; simpl.
  - apply rnd_nonneg. lra.
  - rewrite <- rnd_hundred. apply rnd_mono. lra.
Qed.

(** What [stats] returns on valid inputs, with the clamps that cannot
    bite resolved. *)
Lemma stats_shape (p : StreamProgressBarProps) (now : number) :
  validInputs p = true ->
  exists t k c q r v,
    let st := stats p now in
    total st = Fin t /\ withdrawnSize st = Fin k /\ vestedSize st = Fin c
    /\ vestedNotWithdrawnSize st = max zero (sub (Fin c) (Fin k))
    /\ remainingSize st = max zero (sub (Fin t) (Fin c))
    /\ withdrawnPercent st = Fin q
    /\ sub hundred (Fin q) = Fin r
    /\ vestedPercent st = Fin v
    /\ remainingPercent st = max zero (sub (Fin r) (Fin v))
    /\ (0 <= k /\ k <= c /\ c <= t)
    /\ 0 <= q <= 100 /\ 0 <= r <= 100 /\ 0 <= v <= r.
Proof.
  unfold validInputs, stats. intros V. rewrite V.
  cbv zeta. cbn [negb withdrawnPercent vestedPercent remainingPercent
                 withdrawnSize vestedSize vestedNotWithdrawnSize
                 remainingSize total].
  apply isValid_inv in V.
  destruct V as (t & w & s & e & d & -> & -> & -> & -> & -> & Ht & Hd).
  destruct (clamped_sizes w Ht (vestedAt_nonneg s now Ht Hd))
    as (c & k & -> & -> & Hk0 & Hkc & Hct).
  assert (Z100 : num_le zero hundred) by reflexivity.
  set (wp := min hundred (max zero (mul (div (Fin k) (Fin t)) hundred))).
  assert (Hwp : exists q, wp = Fin q /\ 0 <= q <= 100).
  { apply between_Fin; subst wp.
    - apply min_glb; [exact Z100|]. apply max_le_l; [reflexivity|].
      now apply percent_real.
    - apply min_le_l; [reflexivity|]. apply max_isNaN; [reflexivity|].
      now apply percent_real. }
  destruct Hwp as (q & Eq & Hq). rewrite Eq.
  destruct (sub_hundred_range Hq) as (r & Er & Hr). rewrite Er.
  set (vn := max zero (sub (Fin c) (Fin k))).
  assert (Hvn : (exists n, vn = Fin n) \/ vn = Inf false).
  { subst vn. unfold zero. simpl. pose proof (rnd_real (c - k)) as R.
    destruct (rnd (c - k)) as [|[]|n]; simpl in *; try congruence; eauto.
    destruct (Qle_bool 0 n); eauto. }
  set (y := max zero (mul (div vn (Fin t)) hundred)).
  assert (Hy : num_le zero y).
  { subst y. apply max_le_l; [reflexivity|]. apply mul_hundred_real.
    destruct Hvn as [(n & ->) | ->]; [now apply div_total_real | reflexivity]. }
  set (vp := min (Fin r) y).
  assert (Hvp : exists v, vp = Fin v /\ 0 <= v <= r).
  { apply between_Fin; subst vp.
    - apply min_glb; [apply leb_Fin; lra | exact Hy].
    - apply min_le_l; [reflexivity | eapply num_le_real_r; exact Hy]. }
  destruct Hvp as (v & Ev & Hv). rewrite Ev.
  exists t, k, c, q, r, v. repeat split; auto; lra.
Qed.

Lemma percents_in_range (p : StreamProgressBarProps) (now : number) :
  validInputs p = true ->
  let st := stats p now in
  (num_le zero (withdrawnPercent st) /\ num_le (withdrawnPercent st) hundred)
  /\ (num_le zero (vestedPercent st) /\ num_le (vestedPercent st) hundred)
  /\ (num_le zero (remainingPercent st)
      /\ num_le (remainingPercent st) hundred).
Proof.
  intros V.
  destruct (stats_shape p now V)
    as (t & k & c & q & r & v & Et & Ek & Ec & En & Er & Eq & Es & Ev
        & Ep & Hs & Hq & Hr & Hv).
  cbv zeta. rewrite Eq, Ev, Ep.
  assert (R0 : num_le zero (sub (Fin r) (Fin v))) by (apply rnd_nonneg; lra).
  assert (R1 : num_le (sub (Fin r) (Fin v)) hundred).
  { unfold hundred. rewrite <- rnd_hundred. apply rnd_mono. lra. }
  repeat split; try (apply leb_Fin; lra).
  - apply max_le_l; [reflexivity | eapply num_le_real_r; exact R0].
  - apply max_lub; [reflexivity | exact R1].
Qed.

End Shape.

(** In exact arithmetic the breakdown partitions the total. *)
Lemma exact_partition (p : StreamProgressBarProps) (now : number) :
  @validInputs exact p = true ->
  let st := @stats exact p now in
  num_eq (@add exact (@add exact (withdrawnSize st) (vestedNotWithdrawnSize st))
                     (remainingSize st))
         (total st)
  /\ num_eq (@add exact (@add exact (withdrawnPercent st) (vestedPercent st))
                        (remainingPercent st))
            hundred.
Proof.
  intros V.
  destruct (@stats_shape exact _ p now V)
    as (t & k & c & q & r & v & Et & Ek & Ec & En & Er & Eq & Es & Ev
        & Ep & Hs & Hq & Hr & Hv).
  cbv zeta. rewrite Et, Ek, En, Er, Eq, Ev, Ep.
  change (@sub exact (Fin c) (Fin k)) with (Fin (c - k)).
  change (@sub exact (Fin t) (Fin c)) with (Fin (t - c)).
  change (@sub exact (Fin r) (Fin v)) with (Fin (r - v)).
  change (@sub exact hundred (Fin q)) with (Fin (100 - q)) in Es.
  injection Es as Es.
  rewrite !max_zero_Fin by lra.
  unfold hundred. simpl. subst r. split; ring.
Qed.

(** ** Regular expressions: matching by derivatives and its meaning *)

Lemma matches_Empty (s : jsstring) : matches Empty s = false.
Proof. induction s; simpl; auto. Qed.

Lemma matches_Eps (s : jsstring) : matches Eps s = true <-> s = [].
Proof.
  destruct s; simpl; [tauto|]. rewrite matches_Empty. split; congruence.
Qed.

Lemma matches_Alt (r1 r2 : regex) (s : jsstring) :
  matches (Alt r1 r2) s = matches r1 s || matches r2 s.
Proof. revert r1 r2. induction s; intros; simpl; auto. Qed.

Lemma matches_Chr (p : N -> bool) (s : jsstring) :
  matches (Chr p) s = true <-> exists c, s = [c] /\ p c = true.
Proof.
  destruct s as [|c t]; simpl.
  - split; [congruence | intros (c & H & _); congruence].
  - destruct (p c) eqn:E.
    + rewrite matches_Eps. split.
      * intros ->. eauto.
      * intros (c' & H & _). congruence.
    + rewrite matches_Empty. split; [congruence|].
      intros (c' & H & H'). congruence.
Qed.

Lemma matches_Cat (r1 r2 : regex) (s : jsstring) :
  matches (Cat r1 r2) s = true <->
  exists s1 s2, s = s1 ++ s2 /\ matches r1 s1 = true /\ matches r2 s2 = true.
Proof.
  revert r1 r2. induction s as [|c t IH]; intros r1 r2.
  - simpl. rewrite andb_true_iff. split.
    + intros [H1 H2]. exists [], []. auto.
    + intros (s1 & s2 & E & H1 & H2).
      symmetry in E. apply app_eq_nil in E. destruct E; subst. auto.
  - simpl. destruct (nullable r1) eqn:N1.
    + rewrite matches_Alt, orb_true_iff, IH. split.
      * intros [(s1 & s2 & E & H1 & H2) | H].
        -- exists (c :: s1), s2. subst. auto.
        -- exists [], (c :: t). auto.
      * intros (s1 & s2 & E & H1 & H2). destruct s1 as [|c' s1].
        -- right. simpl in E. subst s2. exact H2.
        -- left. simpl in E. injection E as -> ->. eauto.
    + rewrite IH. split.
      * intros (s1 & s2 & E & H1 & H2). exists (c :: s1), s2. subst. auto.
      * intros (s1 & s2 & E & H1 & H2). destruct s1 as [|c' s1].
        -- simpl in H1. congruence.
        -- simpl in E. injection E as -> ->. eauto.
Qed.

Lemma matches_Star_Chr (p : N -> bool) (s : jsstring) :
  matches (Star (Chr p)) s = forallb p s.
Proof.
  induction s as [|c t IH]; [reflexivity|].
  simpl. destruct (p c) eqn:E.
  - simpl. rewrite <- IH.
    apply eq_true_iff_eq. rewrite matches_Cat. split.
    + intros (s1 & s2 & -> & H1 & H2). apply matches_Eps in H1. now subst.
    + intros H. exists [], t. auto.
  - simpl. apply not_true_is_false. rewrite matches_Cat.
    intros (s1 & s2 & _ & H1 & _). rewrite matches_Empty in H1. congruence.
Qed.

Lemma matches_Chr_cons (p : N -> bool) (r : regex) (c : N) (s : jsstring) :
  matches (Cat (Chr p) r) (c :: s) = p c && matches r s.
Proof.
  apply eq_true_iff_eq. rewrite matches_Cat, andb_true_iff. split.
  - intros (s1 & s2 & E & H1 & H2). apply matches_Chr in H1.
    destruct H1 as (c' & -> & Hc). injection E as -> ->. auto.
  - intros [H1 H2]. exists [c], s. repeat split; auto.
    apply matches_Chr. eauto.
Qed.

Lemma matches_Chr_nil (p : N -> bool) (r : regex) :
  matches (Cat (Chr p) r) [] = false.
Proof. reflexivity. Qed.

Lemma matches_Rep_Chr (p : N -> bool) (n : nat) (s : jsstring) :
  matches (Rep n (Chr p)) s = (List.length s =? n)%nat && forallb p s.
Proof.
  revert s. induction n as [|n IH]; intros s.
  - simpl. destruct s; simpl; [reflexivity|]. now rewrite matches_Empty.
  - destruct s as [|c t].
    + reflexivity.
    + cbn [Rep]. rewrite matches_Chr_cons, IH. simpl.
      destruct (p c); simpl; [reflexivity|]. now rewrite andb_false_r.
Qed.

Lemma matches_Plus_Chr (p : N -> bool) (s : jsstring) :
  matches (Plus (Chr p)) s =
  match s with [] => false | _ => forallb p s end.
Proof.
  destruct s as [|c t]; [reflexivity|].
  unfold Plus. rewrite matches_Chr_cons, matches_Star_Chr. reflexivity.
Qed.

Lemma matches_Opt (r : regex) (s : jsstring) :
  matches (Opt r) s = matches r s || match s with [] => true | _ => false end.
Proof.
  unfold Opt. rewrite matches_Alt. f_equal.
  destruct s; simpl; [reflexivity|]. apply matches_Empty.
Qed.

(** ** The two address validators *)

Lemma str_eqb_refl (s : jsstring) : str_eqb s s = true.
Proof. induction s; simpl; auto. now rewrite N.eqb_refl. Qed.

Lemma str_eqb_eq (a b : jsstring) : str_eqb a b = true <-> a = b.
Proof.
  split; [|intros ->; apply str_eqb_refl].
  revert b. induction a as [|x a IH]; destruct b as [|y b]; simpl;
    try congruence.
  rewrite andb_true_iff, N.eqb_eq. intros [-> H]. f_equal. auto.
Qed.


Lemma base32_bounds (c : N) : base32 c = true -> (50 <= c <= 90)%N.
Proof.
  unfold base32, orC, range.
  change (lit "A") with [65%N]. change (lit "Z") with [90%N].
  change (lit "2") with [50%N]. change (lit "7") with [55%N].
  rewrite orb_true_iff, !andb_true_iff, !N.leb_le. lia.
Qed.

Lemma GC_bounds (c : N) : oneOf "GC" c = true -> (50 <= c <= 90)%N.
Proof.
  unfold oneOf. change (lit "GC") with [71%N; 67%N]. cbn [existsb].
  rewrite !orb_true_iff, !N.eqb_eq. lia.
Qed.

Lemma not_white (c : N) : (50 <= c <= 90)%N -> isWhiteSpace c = false.
Proof.
  intros H. unfold isWhiteSpace.
  repeat match goal with
         | |- context [(?a <=? ?b)%N] =>
             destruct (N.leb_spec a b); try lia
         | |- context [(?a =? ?b)%N] =>
             destruct (N.eqb_spec a b); try lia
         end; reflexivity.
Qed.

Lemma dropWhile_head (p : N -> bool) (c : N) (s : jsstring) :
  p c = false -> dropWhile p (c :: s) = c :: s.
Proof. intros H. simpl. now rewrite H. Qed.

Lemma trim_id (s : jsstring) :
  (forall c, In c s -> isWhiteSpace c = false) -> trim s = s.
Proof.
  intros H. unfold trim, trimStart, trimEnd.
  assert (D : forall l, (forall c, In c l -> isWhiteSpace c = false) ->
                        dropWhile isWhiteSpace l = l).
  { intros [|c l] Hl; [reflexivity|]. apply dropWhile_head. apply Hl. now left. }
  rewrite (D s H). rewrite D.
  - apply rev_involutive.
  - intros c Hc. apply H. now apply in_rev.
Qed.

(** What the pattern [/^[GC][A-Z2-7]{55}$/] accepts. *)
Lemma base32Regex_spec (a : jsstring) :
  test base32Regex a = true <->
  exists c t, a = c :: t /\ oneOf "GC" c = true
              /\ List.length t = 55%nat /\ forallb base32 t = true.
Proof.
  unfold test, base32Regex. destruct a as [|c t].
  - split; [discriminate | intros (c & t & E & _); discriminate].
  - rewrite matches_Chr_cons, matches_Rep_Chr, !andb_true_iff, Nat.eqb_eq.
    fold base32. split.
    + intros (Hc & Hl & Hf). eauto 10.
    + intros (c' & t' & E & Hc & Hl & Hf). injection E as -> ->. auto.
Qed.

Lemma startsWith_GC (c : N) (t : jsstring) :
  negb (startsWith (c :: t) (lit "G")) && negb (startsWith (c :: t) (lit "C"))
  = negb (oneOf "GC" c).
Proof.
  change (lit "G") with [71%N]. change (lit "C") with [67%N].
  unfold oneOf. change (lit "GC") with [71%N; 67%N].
  cbn [startsWith existsb].
  assert (E : startsWith t [] = true) by (destruct t; reflexivity).
  rewrite E, (N.eqb_sym 71 c), (N.eqb_sym 67 c).
  destruct (c =? 71)%N, (c =? 67)%N; reflexivity.
Qed.

Lemma isValidStellarAddress_regex (a : jsstring) :
  isValidStellarAddress a = test base32Regex a.
Proof.
  destruct (test base32Regex a) eqn:R.
  - apply base32Regex_spec in R as R'.
    destruct R' as (c & t & -> & Hc & Hl & Hf).
    unfold isValidStellarAddress. rewrite startsWith_GC, Hc.
    cbn [List.length]. rewrite Hl. simpl. exact R.
  - unfold isValidStellarAddress. destruct a as [|c t]; [reflexivity|].
    rewrite R. now repeat match goal with |- context [if ?b then _ else _] =>
                                   destruct b end.
Qed.

Lemma validateStellarAddress_regex (a : jsstring) :
  validateStellarAddress a = None <-> test base32Regex a = true.
Proof.
  split.
  - unfold validateStellarAddress. destruct a as [|c t]; [discriminate|].
    repeat match goal with
           | |- context [if ?b then _ else _] => destruct b eqn:?
           end; try discriminate.
    intros _. now apply negb_false_iff.
  - intros R. apply base32Regex_spec in R as R'.
    destruct R' as (c & t & -> & Hc & Hl & Hf).
    unfold validateStellarAddress.
    rewrite trim_id, str_eqb_refl, startsWith_GC, Hc, R.
    + cbn [List.length]. rewrite Hl. reflexivity.
    + intros x [<-|Hx].
      * apply not_white. now apply GC_bounds.
      * apply not_white. apply base32_bounds.
        rewrite forallb_forall in Hf. now apply Hf.
Qed.

(** ** Digit strings *)

Lemma isDigit_bounds (c : N) : isDigit c = true <-> (48 <= c <= 57)%N.
Proof. unfold isDigit. rewrite andb_true_iff, !N.leb_le. tauto. Qed.

Lemma takeWhile_app (p : N -> bool) (d r : jsstring) :
  forallb p d = true ->
  match r with [] => True | c :: _ => p c = false end ->
  takeWhile p (d ++ r) = d /\ dropWhile p (d ++ r) = r.
Proof.
  intros Hd Hr. induction d as [|x d IH]; simpl in *.
  - destruct r as [|c r]; simpl; [auto|]. now rewrite Hr.
  - apply andb_true_iff in Hd. destruct Hd as [Hx Hd]. rewrite Hx.
    destruct (IH Hd) as [-> ->]. auto.
Qed.

Lemma takeWhile_all (p : N -> bool) (d : jsstring) :
  forallb p d = true -> takeWhile p d = d /\ dropWhile p d = [].
Proof.
  intros H. rewrite <- (app_nil_r d) at 1 3. now apply takeWhile_app.
Qed.


Lemma digits_value_from (ds : jsstring) (a : Z) :
  fold_left horner ds a
  = (a * 10 ^ Z.of_nat (List.length ds) + fold_left horner ds 0)%Z.
Proof.
  revert a. induction ds as [|c ds IH]; intros a.
  - simpl. lia.
  - cbn [fold_left List.length]. rewrite IH, (IH (horner 0 c)).
    rewrite Nat2Z.inj_succ, Z.pow_succ_r by lia. unfold horner. ring.
Qed.

Lemma digits_value_app (a b : jsstring) :
  digits_value (a ++ b)
  = (digits_value a * 10 ^ Z.of_nat (List.length b) + digits_value b)%Z.
Proof.
  unfold digits_value. fold horner. rewrite fold_left_app.
  apply digits_value_from.
Qed.

Lemma digits_value_cons (c : N) (ds : jsstring) :
  digits_value (c :: ds)
  = (digit_value c * 10 ^ Z.of_nat (List.length ds) + digits_value ds)%Z.
Proof.
  change (c :: ds) with ([c] ++ ds). rewrite digits_value_app.
  unfold digits_value at 1. cbn [fold_left]. unfold horner. lia.
Qed.

Lemma digits_value_bounds (ds : jsstring) :
  forallb isDigit ds = true ->
  (0 <= digits_value ds < 10 ^ Z.of_nat (List.length ds))%Z.
Proof.
  induction ds as [|c ds IH]; intros H.
  - simpl. unfold digits_value. simpl. lia.
  - simpl in H. apply andb_true_iff in H. destruct H as [Hc Hd].
    apply isDigit_bounds in Hc. specialize (IH Hd).
    rewrite digits_value_cons. cbn [List.length].
    rewrite Nat2Z.inj_succ, Z.pow_succ_r by lia.
    unfold digit_value. nia.
Qed.

Lemma pow10_pos (n : nat) : (0 < 10 ^ Z.of_nat n)%Z.
Proof. apply Z.pow_pos_nonneg; lia. Qed.

Lemma pow10Q_neg (n : nat) :
  pow10Q (0 - Z.of_nat n) == 1 / inject_Z (10 ^ Z.of_nat n).
Proof.
  destruct n as [|n].
  - reflexivity.
  - replace (0 - Z.of_nat (S n))%Z with (Z.neg (Pos.of_succ_nat n)) by lia.
    unfold pow10Q. now rewrite Zpos_P_of_succ_nat, <- Nat2Z.inj_succ.
Qed.

(** ** Accepted amounts *)

Lemma re_amount_spec (s : jsstring) :
  test re_amount s = true <->
  exists d1 d2, forallb isDigit d1 = true /\ forallb isDigit d2 = true
                /\ (s = d1 ++ d2 \/ s = d1 ++ 46%N :: d2).
Proof.
  unfold test, re_amount.
  change (range "0" "9") with isDigit.
  rewrite matches_Cat. split.
  - intros (s1 & s2 & -> & H1 & H2).
    rewrite matches_Star_Chr in H1.
    apply matches_Cat in H2. destruct H2 as (o & s3 & -> & Ho & H3).
    rewrite matches_Star_Chr in H3. rewrite matches_Opt in Ho.
    apply orb_true_iff in Ho. destruct Ho as [Ho|Ho].
    + apply matches_Chr in Ho. destruct Ho as (c & -> & Hc).
      unfold oneOf in Hc. change (lit ".") with [46%N] in Hc.
      cbn [existsb] in Hc. rewrite orb_false_r in Hc.
      apply N.eqb_eq in Hc. subst c. exists s1, s3. auto.
    + destruct o; [|discriminate]. exists s1, s3. auto.
  - intros (d1 & d2 & H1 & H2 & [-> | ->]).
    + exists d1, d2. split; [reflexivity|].
      split; [now rewrite matches_Star_Chr|].
      apply matches_Cat. exists [], d2. split; [reflexivity|].
      split; [reflexivity | now rewrite matches_Star_Chr].
    + exists d1, (46%N :: d2). split; [reflexivity|].
      split; [now rewrite matches_Star_Chr|].
      apply matches_Cat. exists [46%N], d2. split; [reflexivity|].
      split; [reflexivity | now rewrite matches_Star_Chr].
Qed.

Lemma startsWith_nil (s : jsstring) : startsWith s [] = true.
Proof. destruct s; reflexivity. Qed.

Lemma shaped_of_checks (a : jsstring) :
  a <> [] -> test re_amount a = true ->
  startsWith a (lit ".") = false -> endsWith a (lit ".") = false ->
  exists d1 d2, shaped a d1 d2.
Proof.
  intros Ha R S E. apply re_amount_spec in R.
  destruct R as (d1 & d2 & H1 & H2 & [-> | ->]).
  - exists (d1 ++ d2), []. unfold shaped. rewrite forallb_app, H1, H2.
    repeat split; auto.
  - destruct d1 as [|c d1].
    { exfalso. change (lit ".") with [46%N] in S. simpl in S.
      rewrite startsWith_nil in S. discriminate. }
    destruct d2 as [|c' d2].
    { exfalso. unfold endsWith in E. change (lit ".") with [46%N] in E.
      rewrite rev_app_distr in E. simpl in E.
      rewrite startsWith_nil in E. discriminate. }
    exists (c :: d1), (c' :: d2). unfold shaped.
    repeat split; auto; try discriminate. right. split; [auto|discriminate].
Qed.

Lemma shaped_head (a d1 d2 : jsstring) :
  shaped a d1 d2 -> exists c t, a = c :: t /\ isDigit c = true.
Proof.
  intros (H1 & _ & N1 & H). destruct d1 as [|c d1]; [congruence|].
  simpl in H1. apply andb_true_iff in H1. destruct H1 as [Hc _].
  destruct H as [[-> _] | [-> _]]; simpl; eauto.
Qed.

Lemma shaped_chars (a d1 d2 : jsstring) (c : N) :
  shaped a d1 d2 -> In c a -> isDigit c = true \/ c = 46%N.
Proof.
  intros (H1 & H2 & _ & H) Hc. rewrite forallb_forall in H1, H2.
  destruct H as [[-> _] | [-> _]]; [auto|].
  apply in_app_or in Hc. destruct Hc as [Hc | [<- | Hc]]; auto.
Qed.

Lemma shaped_split (a d1 d2 : jsstring) :
  shaped a d1 d2 ->
  takeWhile isDigit a = d1
  /\ dropWhile isDigit a = match d2 with [] => [] | _ => 46%N :: d2 end.
Proof.
  intros (H1 & H2 & N1 & [[-> ->] | [-> N2]]).
  - now apply takeWhile_all.
  - destruct d2 as [|c d2]; [congruence|]. now apply takeWhile_app.
Qed.

Lemma not_sign (c : N) :
  isDigit c = true -> (c =? 43)%N = false /\ (c =? 45)%N = false.
Proof. rewrite isDigit_bounds, !N.eqb_neq. lia. Qed.

Lemma shaped_numeral (a d1 d2 : jsstring) :
  shaped a d1 d2 ->
  exists q, numeral_value a = Some q /\ q == shaped_value d1 d2.
Proof.
  intros H. destruct (shaped_head H) as (c & t & E & Hc).
  destruct (not_sign c Hc) as [P M].
  unfold numeral_value. rewrite E, M, P, <- E.
  unfold unsigned_value. destruct (shaped_split H) as [-> ->].
  destruct H as (H1 & H2 & N1 & H).
  destruct d1 as [|x d1]; [congruence|].
  unfold shaped_value. destruct d2 as [|y d2].
  - eexists. split; [reflexivity|]. rewrite app_nil_r.
    change (pow10Q _) with (inject_Z 1). rewrite <- inject_Z_mult.
    now rewrite Z.mul_1_r.
  - rewrite N.eqb_refl, H2. eexists. split; [reflexivity|].
    rewrite digits_value_app, pow10Q_neg, inject_Z_plus, inject_Z_mult.
    pose proof (pow10_pos (List.length (y :: d2))) as P10.
    assert (~ inject_Z (10 ^ Z.of_nat (List.length (y :: d2))) == 0).
    { change 0 with (inject_Z 0). rewrite inject_Z_injective. lia. }
    field. assumption.
Qed.

Section Parsing.
Context {A : Arith}.

Lemma non_decimal_none (a : jsstring) :
  (forall c, In c a -> isDigit c = true \/ c = 46%N) ->
  non_decimal_literal a = None.
Proof.
  intros H. destruct a as [|z [|p [|x ds]]]; try reflexivity.
  unfold non_decimal_literal.
  assert (Hp : isDigit p = true \/ p = 46%N) by (apply H; simpl; auto).
  assert (B : (p <= 57)%N).
  { destruct Hp as [Hp | ->]; [apply isDigit_bounds in Hp|]; lia. }
  destruct (negb (z =? 48)%N); [reflexivity|].
  repeat match goal with
         | |- context [(p =? ?k)%N] =>
             destruct (N.eqb_spec p k); [lia|]
         end.
  reflexivity.
Qed.

Lemma shaped_scan (a d1 d2 : jsstring) :
  shaped a d1 d2 ->
  scan_signed a
  = Some (false,
          LitDecimal (digits_value (d1 ++ d2)) (0 - Z.of_nat (List.length d2)),
          []).
Proof.
  intros H. destruct (shaped_head H) as (c & t & E & Hc).
  destruct (not_sign c Hc) as [P M].
  unfold scan_signed. rewrite E, M, P, <- E.
  unfold scan_unsigned.
  assert (I : startsWith a (lit "Infinity") = false).
  { rewrite E. change (lit "Infinity") with (73%N :: lit "nfinity").
    cbn [startsWith]. apply isDigit_bounds in Hc.
    destruct (N.eqb_spec 73 c); [lia | reflexivity]. }
  rewrite I. destruct (shaped_split H) as [-> ->].
  destruct H as (H1 & H2 & N1 & H).
  destruct d1 as [|x d1]; [congruence|].
  destruct d2 as [|y d2].
  - rewrite app_nil_r. reflexivity.
  - rewrite N.eqb_refl. destruct (takeWhile_all _ _ H2) as [-> ->].
    reflexivity.
Qed.

Lemma shaped_Number (a d1 d2 : jsstring) :
  shaped a d1 d2 -> trim a = a -> Number a = rnd (shaped_value d1 d2).
Proof.
  intros H T. unfold Number. rewrite T.
  destruct (shaped_head H) as (c & t & E & Hc).
  rewrite E. cbv iota. rewrite <- E.
  rewrite non_decimal_none by (intros x; apply shaped_chars with (1 := H)).
  rewrite (shaped_scan H). reflexivity.
Qed.

End Parsing.

(** The checks an accepted amount went through. *)
Lemma validateAmount_accepts (a : jsstring) :
  validateAmount a = None ->
  trim a = a
  /\ (exists d1 d2, shaped a d1 d2
        /\ (List.length d2 <= MAX_DECIMAL_PLACES)%nat)
  /\ isFinite (Number a) = true
  /\ leb (Number a) (Fin 0) = false.
Proof.
  unfold validateAmount. destruct a as [|c t] eqn:Ea; [discriminate|].
  rewrite <- Ea.
  destruct (str_eqb (trim a) []) eqn:E0; [discriminate|].
  destruct (str_eqb (trim a) a) eqn:E1; [|discriminate].
  apply str_eqb_eq in E1. rewrite E1. cbn [negb].
  destruct (test re_amount a) eqn:E2; [|discriminate]. cbn [negb].
  destruct (startsWith a (lit ".")) eqn:E3; [discriminate|].
  destruct (endsWith a (lit ".")) eqn:E4; [discriminate|]. cbn [orb].
  destruct (1 <? decimalCount a)%nat; [discriminate|].
  destruct (isNaN (Number a)) eqn:E5; [discriminate|].
  destruct (isFinite (Number a)) eqn:E6; [|discriminate]. cbn [negb orb].
  destruct (leb (Number a) (Fin 0)) eqn:E7; [discriminate|].
  assert (Ha : a <> []) by (rewrite Ea; discriminate).
  destruct (shaped_of_checks Ha E2 E3 E4) as (d1 & d2 & Hs).
  intros D. repeat split; auto. exists d1, d2. split; [assumption|].
  destruct (shaped_split Hs) as [T1 T2].
  pose proof Hs as (H1 & H2 & N1 & [[-> ->] | [-> N2]]).
  - simpl. lia.
  - assert (I : indexOf (d1 ++ 46%N :: d2) 46 = Some (List.length d1)).
    { clear - H1. induction d1 as [|x d1 IH]; simpl in *.
      - reflexivity.
      - apply andb_true_iff in H1. destruct H1 as [Hx H1].
        apply isDigit_bounds in Hx.
        destruct (N.eqb_spec x 46); [lia|]. now rewrite IH. }
    rewrite I in D. rewrite length_app in D. cbn [List.length] in D.
    destruct (Nat.ltb_spec MAX_DECIMAL_PLACES
                (List.length d1 + S (List.length d2) - List.length d1 - 1));
      [discriminate|]. lia.
Qed.

(** An accepted amount is a decimal numeral that denotes a positive
    number. *)
Lemma validateAmount_positive (a : jsstring) :
  validateAmount a = None ->
  exists q, numeral_value a = Some q /\ 0 < q.
Proof.
  intros H. destruct (validateAmount_accepts a H)
    as (T & (d1 & d2 & Hs & _) & F & P).
  destruct (shaped_numeral Hs) as (q & Eq & Hq).
  exists q. split; [assumption|]. rewrite Hq.
  rewrite (shaped_Number Hs T) in P.
  apply Qnot_le_lt. intros C.
  pose proof (rnd_nonpos C) as L. unfold num_le in L. congruence.
Qed.

(** ** Accuracy of binary64 rounding *)

Lemma round_units_err (X : Q) :
  round_units X - p2 (ulp_exp X) * (1 # 2) <= X
  /\ X <= round_units X + p2 (ulp_exp X) * (1 # 2).
Proof.
  unfold round_units. pose proof (ulp_exp_nonneg X) as HD.
  pose proof (p2_pos HD) as Hs. set (s := p2 (ulp_exp X)) in *.
  destruct (half_even_bounds (X / s)) as [L U].
  set (h := inject_Z (half_even (X / s))) in *.
  assert (E : X == X / s * s) by (field; lra).
  assert (M1 : (h - (1 # 2)) * s <= X / s * s)
    by (apply Qmult_le_compat_r; lra).
  assert (M2 : X / s * s <= (h + (1 # 2)) * s)
    by (apply Qmult_le_compat_r; lra).
  set (z := X / s * s) in *.
  setoid_replace (h * s - s * (1 # 2)) with ((h - (1 # 2)) * s) by ring.
  setoid_replace (h * s + s * (1 # 2)) with ((h + (1 # 2)) * s) by ring.
  split; lra.
Qed.


Lemma u53_nonneg : 0 <= u53.
Proof. apply Qlt_le_weak. reflexivity. Qed.

Lemma half_ulp_le (X : Q) :
  p2 52 <= X -> p2 (ulp_exp X) * (1 # 2) <= X * u53.
Proof.
  intros H. pose proof (ulp_exp_nonneg X) as HD.
  assert (K : p2 52 * u53 == 1 # 2) by reflexivity.
  assert (L : p2 52 * p2 (ulp_exp X) <= X).
  { destruct (Z.eq_dec (ulp_exp X) 0) as [E|NE].
    - rewrite E. change (p2 0) with 1. now rewrite Qmult_1_r.
    - rewrite <- p2_add by lia. apply ulp_exp_lower. lia. }
  set (s := p2 (ulp_exp X)) in *.
  assert (M : p2 52 * s * u53 <= X * u53)
    by (apply Qmult_le_compat_r; [exact L | apply u53_nonneg]).
  setoid_replace (p2 52 * s * u53) with (s * (p2 52 * u53)) in M by ring.
  now rewrite K in M.
Qed.

Lemma round_units_rel (X : Q) :
  p2 52 <= X ->
  X * (1 - u53) <= round_units X /\ round_units X <= X * (1 + u53).
Proof.
  intros H. pose proof (half_ulp_le H). destruct (round_units_err X). split; lra.
Qed.


Lemma round_pos_rel (x : Q) :
  min_normal <= x ->
  x * (1 - u53) <= round_pos x /\ round_pos x <= x * (1 + u53).
Proof.
  intros H. rewrite !round_pos_units.
  assert (HX : p2 52 <= x / quantum).
  { apply Qle_shift_div_l; [apply quantum_pos | exact H]. }
  destruct (round_units_rel HX) as [L U].
  pose proof quantum_pos as Hq.
  assert (E : x == x / quantum * quantum) by (field; lra).
  assert (M1 : x / quantum * (1 - u53) * quantum
               <= round_units (x / quantum) * quantum)
    by (apply Qmult_le_compat_r; lra).
  assert (M2 : round_units (x / quantum) * quantum
               <= x / quantum * (1 + u53) * quantum)
    by (apply Qmult_le_compat_r; lra).
  setoid_replace (x / quantum * (1 - u53) * quantum)
    with (x / quantum * quantum * (1 - u53)) in M1 by ring.
  setoid_replace (x / quantum * (1 + u53) * quantum)
    with (x / quantum * quantum * (1 + u53)) in M2 by ring.
  rewrite <- E in M1, M2. split; assumption.
Qed.

(** A positive exact result in the normal range, away from overflow,
    rounds to a finite number within the relative error [2^-53]. *)
Lemma binary64_rel (x : Q) :
  min_normal <= x -> x * (1 + u53) < overflow_threshold ->
  exists r, binary64 x = Fin r
            /\ x * (1 - u53) <= r /\ r <= x * (1 + u53).
Proof.
  intros H O. destruct (round_pos_rel H) as [L U].
  assert (P : 0 < x).
  { eapply Qlt_le_trans; [|exact H]. reflexivity. }
  unfold binary64. destruct (Qcompare_spec x 0) as [E|E|E]; try (exfalso; lra).
  destruct (Qle_bool overflow_threshold (round_pos x)) eqn:V.
  - apply Qle_bool_iff in V. exfalso. lra.
  - eexists. split; [reflexivity|]. rewrite Qred_correct. split; assumption.
Qed.

Lemma binary64_proper (x y : Q) : x == y -> binary64 x = binary64 y.
Proof.
  intros E.
  assert (R : forall a b, a == b -> round_pos a == round_pos b).
  { intros a b H. apply Qle_antisym; apply round_pos_mono; lra. }
  assert (C : Qcompare x 0 = Qcompare y 0)
    by (apply Qcompare_comp; [exact E | reflexivity]).
  assert (B : forall a b, a == b ->
                Qle_bool overflow_threshold a = Qle_bool overflow_threshold b).
  { intros a b H. apply eq_true_iff_eq. rewrite !Qle_bool_iff.
    split; intros; lra. }
  unfold binary64. rewrite C.
  destruct (Qcompare y 0).
  - reflexivity.
  - assert (R' : round_pos (- x) == round_pos (- y)) by (apply R; lra).
    rewrite (B _ _ R').
    destruct (Qle_bool _ _); [reflexivity|].
    f_equal. apply Qred_complete. lra.
  - rewrite (B _ _ (R _ _ E)).
    destruct (Qle_bool _ _); [reflexivity|].
    f_equal. apply Qred_complete. now apply R.
Qed.

(** ** From amounts to stroops *)

Lemma shaped_value_stroops (d1 d2 : jsstring) :
  (List.length d2 <= 7)%nat ->
  shaped_value d1 d2 == inject_Z (stroops_of d1 d2) / ten7.
Proof.
  intros L. unfold shaped_value, stroops_of, ten7.
  rewrite pow10Q_neg, inject_Z_mult.
  set (k := Z.of_nat (List.length d2)).
  assert (Hk : (0 <= k <= 7)%Z) by (unfold k; lia).
  assert (E : (10 ^ k * 10 ^ (7 - k) = 10000000)%Z).
  { rewrite <- Z.pow_add_r by lia. replace (k + (7 - k))%Z with 7%Z by lia.
    reflexivity. }
  assert (P1 : (0 < 10 ^ k)%Z) by (apply Z.pow_pos_nonneg; lia).
  assert (N1 : ~ inject_Z (10 ^ k) == 0).
  { change 0 with (inject_Z 0). rewrite inject_Z_injective. lia. }
  assert (E' : inject_Z (10 ^ k) * inject_Z (10 ^ (7 - k)) == inject_Z 10000000).
  { rewrite <- inject_Z_mult. now rewrite E. }
  set (m := inject_Z (digits_value (d1 ++ d2))).
  set (a := inject_Z (10 ^ k)) in *. set (b := inject_Z (10 ^ (7 - k))) in *.
  rewrite <- E'. field. split; [|assumption].
  intros Hb. rewrite Hb in E'. rewrite Qmult_0_r in E'. discriminate E'.
Qed.

Lemma Qfloor_unique (n : Z) (x : Q) :
  inject_Z n <= x -> x < inject_Z n + 1 -> Qfloor x = n.
Proof.
  intros L U. apply Z.le_antisymm.
  - assert (Qfloor x < n + 1)%Z; [|lia].
    apply Qfloor_lt. rewrite inject_Z_plus. exact U.
  - now apply Qfloor_ge.
Qed.

Lemma BigInt_integer (n : Z) : BigInt (Fin (inject_Z n)) = Ok n.
Proof.
  unfold BigInt, isInteger. rewrite Qfloor_Z.
  assert (E : Qeq_bool (inject_Z n) (inject_Z n) = true)
    by (apply Qeq_bool_iff; reflexivity).
  now rewrite E.
Qed.

Lemma u53_val : u53 == 1 # 9007199254740992.
Proof. reflexivity. Qed.

Lemma min_normal_small : min_normal <= 1 # 10000000.
Proof. apply Qlt_le_weak. reflexivity. Qed.

Lemma overflow_large : 4503599627370496 <= overflow_threshold.
Proof. apply Qlt_le_weak. reflexivity. Qed.

Lemma binary64_close (x : Q) :
  1 # 10000000 <= x -> x <= 4503599627370000 ->
  exists r, binary64 x = Fin r
            /\ x * (9007199254740991 # 9007199254740992) <= r
            /\ r <= x * (9007199254740993 # 9007199254740992).
Proof.
  intros L U. pose proof min_normal_small. pose proof overflow_large.
  destruct (@binary64_rel x) as (r & E & L1 & U1).
  - lra.
  - rewrite u53_val. lra.
  - rewrite u53_val in L1, U1. exists r. split; [assumption|]. split; lra.
Qed.

(** Scaling by [10^7] and rounding to an integer recovers the stroops,
    below [2^51] of them. *)
Lemma scale_round_exact (n : Z) :
  (1 <= n < 2 ^ 51)%Z ->
  round (mul (binary64 (inject_Z n / ten7)) (pow10 7)) = Fin (inject_Z n).
Proof.
  intros [L U].
  assert (L' : 1 <= inject_Z n) by (change 1 with (inject_Z 1); now rewrite <- Zle_Qle).
  assert (U' : inject_Z n <= 2251799813685247).
  { change 2251799813685247 with (inject_Z (2 ^ 51 - 1)).
    rewrite <- Zle_Qle. lia. }
  set (q := inject_Z n / ten7).
  assert (Eq : q * 10000000 == inject_Z n) by (unfold q, ten7; field).
  destruct (@binary64_close q) as (r1 & E1 & L1 & U1); [lra | lra |].
  rewrite E1.
  change (pow10 7) with (binary64 (inject_Z 10000000)).
  replace (binary64 (inject_Z 10000000)) with (Fin 10000000)
    by (vm_compute; reflexivity).
  change (mul (Fin r1) (Fin 10000000)) with (binary64 (r1 * 10000000)).
  destruct (@binary64_close (r1 * 10000000)) as (r2 & E2 & L2 & U2);
    [lra | lra |].
  rewrite E2. unfold round. f_equal. f_equal.
  apply Qfloor_unique; lra.
Qed.

Lemma amountToStroops_exact (a : jsstring) :
  validateAmount a = None ->
  exists d1 d2,
    shaped a d1 d2 /\ (List.length d2 <= 7)%nat
    /\ (0 < stroops_of d1 d2)%Z
    /\ ((stroops_of d1 d2 < 2 ^ 51)%Z ->
        amountToStroops a 7 = Ok (stroops_of d1 d2)).
Proof.
  intros V. destruct (validateAmount_accepts a V)
    as (T & (d1 & d2 & Hs & Hl) & F & P).
  exists d1, d2. split; [assumption|]. split; [assumption|].
  assert (EN : Number a = binary64 (inject_Z (stroops_of d1 d2) / ten7)).
  { rewrite (shaped_Number Hs T). apply binary64_proper.
    now apply shaped_value_stroops. }
  assert (Pos : (0 < stroops_of d1 d2)%Z).
  { destruct (Z_lt_le_dec 0 (stroops_of d1 d2)) as [|C]; [assumption|].
    exfalso. rewrite EN in P.
    assert (Q0 : inject_Z (stroops_of d1 d2) / ten7 <= 0).
    { apply Qle_shift_div_r; [reflexivity|]. rewrite Qmult_0_l.
      change 0 with (inject_Z 0). now rewrite <- Zle_Qle. }
    pose proof (rnd_nonpos Q0) as C'. unfold num_le in C'.
    change (@rnd IEEE754) with binary64 in C'. congruence. }
  split; [assumption|]. intros B.
  unfold amountToStroops, isValidAmount. rewrite V. cbn [negb].
  rewrite T, EN, scale_round_exact by lia. apply BigInt_integer.
Qed.

(** ** From stroops to amounts *)


Lemma uint_codes_digits (u : Decimal.uint) :
  forallb isDigit (uint_codes u) = true.
Proof. induction u; simpl; auto. Qed.

Lemma uint_codes_length (u : Decimal.uint) :
  List.length (uint_codes u) = Decimal.nb_digits u.
Proof. induction u; simpl; auto. Qed.

Lemma uint_codes_acc (u : Decimal.uint) (acc : positive) :
  fold_left horner (uint_codes u) (Zpos acc) = Zpos (Pos.of_uint_acc u acc).
Proof.
  revert acc. induction u; intros acc;
    cbn [uint_codes fold_left Pos.of_uint_acc]; [reflexivity| ..];
    rewrite <- IHu; f_equal; unfold horner, digit_value; change 1~0~1~0%positive with 10%positive; lia.
Qed.

Lemma uint_codes_value (u : Decimal.uint) :
  digits_value (uint_codes u) = Z.of_N (Pos.of_uint u).
Proof.
  unfold digits_value. fold horner.
  induction u; cbn [uint_codes fold_left Pos.of_uint];
    [reflexivity | exact IHu | ..];
    cbn [Z.of_N]; rewrite <- uint_codes_acc; reflexivity.
Qed.

Lemma fold_horner_ge (ds : jsstring) (a : Z) :
  forallb isDigit ds = true -> (0 <= a)%Z ->
  (a * 10 ^ Z.of_nat (List.length ds) <= fold_left horner ds a)%Z.
Proof.
  intros H Ha. rewrite digits_value_from.
  pose proof (digits_value_bounds ds H) as B. unfold digits_value in B.
  fold horner in B. lia.
Qed.

(** A numeral without leading zero has as many digits as its value
    requires. *)
Lemma uint_codes_short (u : Decimal.uint) (k : nat) :
  Decimal.nzhead u = u ->
  (Z.of_N (Pos.of_uint u) < 10 ^ Z.of_nat k)%Z ->
  (List.length (uint_codes u) <= k)%nat.
Proof.
  intros Hn Hv. rewrite <- uint_codes_value in Hv.
  destruct u as [|u|u|u|u|u|u|u|u|u|u]; simpl; [lia | | ..].
  { exfalso. simpl in Hn. pose proof (DecimalFacts.nb_digits_nzhead u) as L.
    rewrite Hn in L. simpl in L. lia. }
  all: unfold digits_value in Hv; fold horner in Hv; cbn [uint_codes fold_left] in Hv;
    match type of Hv with
    | (fold_left horner ?ds ?a < _)%Z =>
        pose proof (@fold_horner_ge ds a (uint_codes_digits u) ltac:(unfold horner, digit_value; simpl; lia)) as G;
        assert (A1 : (1 <= a)%Z) by (unfold horner, digit_value; simpl; lia);
        assert (P : (10 ^ Z.of_nat (List.length ds) < 10 ^ Z.of_nat k)%Z) by nia;
        apply Z.pow_lt_mono_r_iff in P; lia
    end.
Qed.

Lemma to_uint_nzhead (p : positive) :
  Decimal.nzhead (Pos.to_uint p) = Pos.to_uint p.
Proof.
  pose proof (DecimalPos.Unsigned.to_of (Pos.to_uint p)) as H.
  rewrite DecimalPos.Unsigned.of_to in H. cbn [N.to_uint] in H.
  rewrite H at 2. symmetry. apply DecimalFacts.unorm_nzhead.
  intros C. unfold Decimal.unorm in H. rewrite C in H.
  exact (DecimalPos.Unsigned.to_uint_nonzero p H).
Qed.

Lemma Z_toString_spec (z : Z) :
  (0 <= z)%Z ->
  forallb isDigit (Z_toString z) = true
  /\ Z_toString z <> []
  /\ digits_value (Z_toString z) = z.
Proof.
  intros H. destruct z as [|p|p]; [| |lia].
  - repeat split. discriminate.
  - cbn [Z_toString]. split; [apply uint_codes_digits|]. split.
    + intros C. apply (f_equal (@List.length N)) in C.
      rewrite uint_codes_length in C. simpl in C.
      apply DecimalFacts.nb_digits_0 in C. exact (DecimalPos.Unsigned.to_uint_nonnil p C).
    + rewrite uint_codes_value, DecimalPos.Unsigned.of_to. reflexivity.
Qed.

Lemma Z_toString_length (z : Z) (k : nat) :
  (0 < z < 10 ^ Z.of_nat k)%Z -> (List.length (Z_toString z) <= k)%nat.
Proof.
  intros [L U]. destruct z as [|p|p]; try lia. cbn [Z_toString].
  apply uint_codes_short; [apply to_uint_nzhead|].
  now rewrite DecimalPos.Unsigned.of_to.
Qed.

(** ** Trailing zeros and padding *)


Lemma isZeroDigit_spec (c : N) : isZeroDigit c = true <-> c = 48%N.
Proof.
  unfold isZeroDigit, oneOf. change (lit "0") with [48%N]. cbn [existsb].
  rewrite orb_false_r. apply N.eqb_eq.
Qed.

Lemma all_zero_repeat (s : jsstring) :
  forallb isZeroDigit s = true -> s = repeat 48%N (List.length s).
Proof.
  induction s as [|c s IH]; simpl; [reflexivity|].
  rewrite andb_true_iff, isZeroDigit_spec. intros [-> H]. f_equal. auto.
Qed.

Lemma digits_value_zeros (k : nat) : digits_value (repeat 48%N k) = 0%Z.
Proof.
  induction k as [|k IH]; [reflexivity|].
  cbn [repeat]. rewrite digits_value_cons, IH. unfold digit_value. lia.
Qed.

Lemma zeros_digits (k : nat) : forallb isDigit (repeat 48%N k) = true.
Proof. induction k; simpl; auto. Qed.

(** [s.replace(/0+$/, "")] cuts a run of zeros off the end. *)
Lemma strip_zeros_spec (s : jsstring) :
  exists k, s = replace_at_end re_zeros s ++ repeat 48%N k.
Proof.
  induction s as [|c s (k & IH)].
  - exists O. reflexivity.
  - cbn [replace_at_end]. destruct (matches re_zeros (c :: s)) eqn:M.
    + exists (List.length (c :: s)). unfold re_zeros in M.
      rewrite matches_Plus_Chr in M. fold isZeroDigit in M.
      now apply all_zero_repeat.
    + exists k. simpl. now rewrite <- IH.
Qed.

Lemma strip_zeros_value (s : jsstring) :
  forallb isDigit s = true ->
  let f := replace_at_end re_zeros s in
  forallb isDigit f = true
  /\ (List.length f <= List.length s)%nat
  /\ (digits_value s
      = digits_value f * 10 ^ Z.of_nat (List.length s - List.length f))%Z.
Proof.
  intros H f. destruct (strip_zeros_spec s) as (k & E). fold f in E.
  assert (L : List.length s = (List.length f + k)%nat).
  { rewrite E at 1. now rewrite length_app, repeat_length. }
  split; [|split].
  - rewrite E, forallb_app in H. now apply andb_true_iff in H.
  - lia.
  - rewrite E at 1. rewrite digits_value_app, digits_value_zeros, repeat_length.
    replace (List.length s - List.length f)%nat with k by lia. lia.
Qed.

Lemma padStart0_spec (n : nat) (s : jsstring) :
  forallb isDigit s = true -> (List.length s <= n)%nat ->
  forallb isDigit (padStart0 n s) = true
  /\ List.length (padStart0 n s) = n
  /\ digits_value (padStart0 n s) = digits_value s.
Proof.
  intros H L. unfold padStart0. split; [|split].
  - now rewrite forallb_app, zeros_digits.
  - rewrite length_app, repeat_length. lia.
  - rewrite digits_value_app, digits_value_zeros. lia.
Qed.

(** ** [stroopsToAmount] prints the stroops exactly *)

Lemma numeral_of_parts (w f : jsstring) :
  forallb isDigit w = true -> w <> [] ->
  forallb isDigit f = true -> f <> [] ->
  exists q, numeral_value (w ++ lit "." ++ f) = Some q
            /\ q == inject_Z (digits_value w)
                    + inject_Z (digits_value f)
                      / inject_Z (10 ^ Z.of_nat (List.length f)).
Proof.
  intros Hw Nw Hf Nf.
  assert (Hs : shaped (w ++ 46%N :: f) w f).
  { unfold shaped. repeat split; auto. }
  destruct (shaped_numeral Hs) as (q & E & Hq).
  exists q. split; [exact E|]. rewrite Hq. unfold shaped_value.
  rewrite digits_value_app, pow10Q_neg, inject_Z_plus, inject_Z_mult.
  pose proof (pow10_pos (List.length f)).
  field. change 0 with (inject_Z 0). rewrite inject_Z_injective. lia.
Qed.

Lemma stroopsToAmount_exact (n : Z) :
  (0 <= n)%Z ->
  exists s q, stroopsToAmount n 7 = Ok s
              /\ numeral_value s = Some q
              /\ q == inject_Z n / ten7.
Proof.
  intros Hn. unfold stroopsToAmount.
  change (pow10 7) with (binary64 (inject_Z 10000000)).
  replace (binary64 (inject_Z 10000000)) with (Fin (inject_Z 10000000))
    by (vm_compute; reflexivity).
  rewrite BigInt_integer. cbn [bind].
  rewrite Z.quot_div_nonneg, Z.rem_mod_nonneg by lia.
  pose proof (Z.div_mod n 10000000 ltac:(lia)) as DM.
  pose proof (Z.mod_pos_bound n 10000000 ltac:(lia)) as MB.
  assert (WB : (0 <= n / 10000000)%Z) by (apply Z.div_pos; lia).
  set (w := (n / 10000000)%Z) in *. set (r := (n mod 10000000)%Z) in *.
  destruct (Z_toString_spec WB) as (Wd & Wn & Wv).
  assert (EN : inject_Z n == inject_Z w * inject_Z 10000000 + inject_Z r).
  { rewrite DM, inject_Z_plus, inject_Z_mult. ring. }
  assert (T0 : ~ inject_Z 10000000 == 0) by discriminate.
  destruct (Z.eqb_spec r 0) as [E0|NE].
  - exists (Z_toString w), (inject_Z w). split; [reflexivity|]. split.
    + assert (Hs : shaped (Z_toString w) (Z_toString w) []).
      { unfold shaped. repeat split; auto. }
      destruct (shaped_head Hs) as (c & t & Ec & Hc).
      destruct (not_sign c Hc) as [P M].
      unfold numeral_value. rewrite Ec, M, P, <- Ec. unfold unsigned_value.
      destruct (takeWhile_all _ _ Wd) as [-> ->].
      destruct (Z_toString w); [congruence|]. now rewrite Wv.
    + rewrite EN, E0. unfold ten7. field.
  - assert (RB : (0 <= r)%Z) by lia.
    destruct (Z_toString_spec RB) as (Rd & Rn & Rv).
    assert (RL : (List.length (Z_toString r) <= 7)%nat)
      by (apply Z_toString_length; simpl; lia).
    destruct (@padStart0_spec 7 _ Rd RL) as (Pd & Pl & Pv).
    destruct (strip_zeros_value _ Pd) as (Fd & Fl & Fv).
    set (f := replace_at_end re_zeros (padStart0 7 (Z_toString r))) in *.
    assert (Nf : f <> []).
    { intros C. rewrite C in Fv. rewrite Pv, Rv in Fv.
      unfold digits_value in Fv. simpl in Fv. lia. }
    destruct (numeral_of_parts Wd Wn Fd Nf) as (q & Eq & Hq).
    exists (Z_toString w ++ lit "." ++ f), q. split; [reflexivity|].
    split; [exact Eq|]. rewrite Hq, EN, Wv.
    rewrite Pv, Rv, Pl in Fv.
    assert (E7 : (10 ^ Z.of_nat (List.length f)
                  * 10 ^ Z.of_nat (7 - List.length f) = 10000000)%Z).
    { rewrite <- Z.pow_add_r by lia.
      replace (Z.of_nat (List.length f) + Z.of_nat (7 - List.length f))%Z
        with 7%Z by lia. reflexivity. }
    rewrite Fv, inject_Z_mult. unfold ten7. rewrite <- E7, !inject_Z_mult.
    pose proof (pow10_pos (List.length f)).
    pose proof (pow10_pos (7 - List.length f)).
    field. split; change 0 with (inject_Z 0); rewrite inject_Z_injective; lia.
Qed.

(** ** The vested size and the vesting formula *)

Lemma num_eq_refl (a : number) : isNaN a = false -> num_eq a a.
Proof. destruct a; simpl; try congruence; auto with qarith. Qed.

Lemma Qfloor_div_Z (a b : Z) :
  (0 < b)%Z -> Qfloor (inject_Z a / inject_Z b) = (a / b)%Z.
Proof.
  intros H. destruct b as [|p|p]; try lia.
  rewrite (Qfloor_comp _ _ (Qeq_sym _ _ (Qmake_Qdiv a p))). reflexivity.
Qed.

Section Formula.
Context {A : Arith} {M : Monotone A}.

Lemma rnd_of_zero (x : Q) : x == 0 -> exists z, rnd x = Fin z /\ z == 0.
Proof.
  intros H. destruct (@between_Fin 0 0 (rnd x)) as (z & E & Hz).
  - apply rnd_nonneg. lra.
  - apply rnd_nonpos. lra.
  - exists z. split; [assumption | lra].
Qed.

Lemma sub_start_nonpos (now : number) (s : Q) :
  isNaN now = false -> gtb now (Fin s) = false ->
  num_le (sub now (Fin s)) (Fin 0).
Proof.
  destruct now as [|[]|x]; simpl; try congruence; try reflexivity.
  intros _. destruct (Qcompare_spec s x) as [E|E|E]; try congruence;
    intros _; apply rnd_nonpos; lra.
Qed.

(** Lines 64-68 in one formula: the elapsed time clamped to
    [0, duration], times the total, over the duration. *)
Lemma vestedAt_clamped (t s d : Q) (now : number) :
  0 < t -> 0 < d -> isNaN now = false ->
  num_eq (vestedAt (Fin t) (Fin s) (Fin d) now)
         (div (mul (Fin t) (max zero (min (sub now (Fin s)) (Fin d))))
              (Fin d)).
Proof.
  intros Ht Hd Hn. unfold vestedAt.
  destruct (gtb now (Fin s)) eqn:G.
  - pose proof (sub_start_nonneg _ _ G) as P.
    assert (X : num_le zero (min (sub now (Fin s)) (Fin d))).
    { apply min_glb; [exact P | apply leb_Fin; lra]. }
    rewrite (max_real zero) by (try reflexivity; eapply num_le_real_r; exact X).
    unfold num_le in X. rewrite X. apply num_eq_refl.
    eapply num_le_real_r. apply div_pos_nonneg; [assumption|].
    apply mul_pos_nonneg; [assumption | exact X].
  - assert (P : num_le (sub now (Fin s)) (Fin 0))
      by (apply sub_start_nonpos; assumption).
    assert (X : num_le (min (sub now (Fin s)) (Fin d)) zero).
    { eapply num_le_trans; [|exact P].
      apply min_le_l; [eapply num_le_real_l; exact P | reflexivity]. }
    assert (Z0 : exists z, max zero (min (sub now (Fin s)) (Fin d)) = Fin z
                           /\ z == 0).
    { destruct (@between_Fin 0 0 (max zero (min (sub now (Fin s)) (Fin d))))
        as (z & E & Hz).
      - apply max_le_l; [reflexivity | eapply num_le_real_l; exact X].
      - apply max_lub; [reflexivity | exact X].
      - exists z. split; [assumption | lra]. }
    destruct Z0 as (z & -> & Hz).
    cbn [mul]. destruct (@rnd_of_zero (t * z)) as (z1 & -> & Hz1).
    { rewrite Hz. ring. }
    cbn [div]. rewrite Qzero_false by assumption.
    destruct (@rnd_of_zero (z1 / d)) as (z2 & -> & Hz2).
    { rewrite Hz1. unfold Qdiv. ring. }
    unfold zero. simpl. lra.
Qed.

End Formula.



(** ** Runs of the distribution hook *)

Section HookFacts.
Context {F : NumberFormat}.
Variable service : StellarService.
Variables sender token : jsstring.

Lemma no_recipients_rejected (state : DistributionState) (w : World) :
  recipients state = [] ->
  rejected service sender token state w (lit "No recipients provided").
Proof.
  intros H. unfold rejected, executeTransaction, try_catch_finally, mbind,
    setIsLoading, setError, throw, ret. cbn. rewrite H. reflexivity.
Qed.

Lemma invalid_amounts_rejected (state : DistributionState) (w : World) :
  type state = weighted ->
  existsb invalidAmount (recipients state) = true ->
  rejected service sender token state w
    (lit "All recipients must have valid amounts for weighted distribution").
Proof.
  intros T H. unfold rejected, executeTransaction, try_catch_finally, mbind,
    setIsLoading, setError, throw, ret. cbn. rewrite T.
  fold invalidAmount. rewrite H.
  destruct (recipients state) as [|r rs]; [discriminate|]. reflexivity.
Qed.

End HookFacts.

Lemma nan_amount_is_sent (F : NumberFormat) (sender token hash : jsstring) :
  executeTransaction (fun _ => Returned hash) sender token nan_state initial
  = (Returned {| success := true; transactionHash := Some hash;
                 error := None |},
     {| isLoading := false; hookError := None;
        sent := [distributeWeighted sender token [G_address] [lit "NaN"]] |}).
Proof. reflexivity. Qed.

(* ================================================================== *)
(** * The claims *)
(* ================================================================== *)

(** ** The clock of the progress bar *)

Lemma clock_frozen (p : StreamProgressBarProps) (c : number)
    (readings : list number) :
  ticking p = false -> clock p c readings = c.
Proof.
  intros H. unfold clock. revert c.
  induction readings as [|r rs IH]; intros c; [reflexivity|].
  cbn [fold_left]. unfold fire at 2. rewrite H. apply IH.
Qed.

Lemma clock_latest (p : StreamProgressBarProps) (c r : number)
    (readings : list number) :
  ticking p = true -> clock p c (readings ++ [r]) = r.
Proof.
  intros H. unfold clock. rewrite fold_left_app. cbn [fold_left].
  unfold fire. now rewrite H.
Qed.

(** C2, counterexample.  For the props of a paused stream of 1000 units
    over [0, 1000], [stats] computes the vested size 500 when the clock
    reads 500 and 800 when it reads 800: the computed amount is not
    constant while the stream is paused. *)
Lemma C2_counterexample :
  ticking (example_props "Paused") = false
  /\ num_eq (vestedSize (stats (example_props "Paused") (Fin 500))) (Fin 500)
  /\ num_eq (vestedSize (stats (example_props "Paused") (Fin 800))) (Fin 800)
  /\ ~ num_eq (vestedSize (stats (example_props "Paused") (Fin 500)))
              (vestedSize (stats (example_props "Paused") (Fin 800))).
Proof.
  split; [reflexivity|]. split; [vm_compute; reflexivity|].
  split; [vm_compute; reflexivity|]. vm_compute. discriminate.
Qed.

(** C2, as amended.  For fixed props the vested size that [stats]
    computes does not decrease when the clock reading increases,
    whatever the status: [stats] does not read the status, and the
    props carry no pause instant.  While the status is active the clock
    of the component takes each reading of [Date.now()], so the size
    shown does not decrease in wall-clock time.  While it is not (a
    paused stream) the clock keeps the reading taken when the component
    was mounted: what that component shows stays the same, and it is
    the breakdown at the time of mounting, whose vested size does not
    decrease with that time; it is not pinned to the pause instant. *)
Theorem C2_vested_monotone (p : StreamProgressBarProps)
    (mount dateNow dateLater : number) (readings later : list number) :
  num_le dateNow dateLater ->
  num_le (vestedSize (stats p dateNow)) (vestedSize (stats p dateLater))
  /\ (ticking p = true ->
      num_le
        (vestedSize (stats p (clock p mount (readings ++ [dateNow]))))
        (vestedSize
           (stats p (clock p mount
                       ((readings ++ [dateNow]) ++ later ++ [dateLater])))))
  /\ (ticking p = false ->
      stats p (clock p dateNow readings) = stats p dateNow
      /\ stats p (clock p dateLater later) = stats p dateLater
      /\ num_le (vestedSize (stats p (clock p dateNow readings)))
                (vestedSize (stats p (clock p dateLater later)))).
Proof.
  intros H.
  assert (M : num_le (vestedSize (stats p dateNow))
                     (vestedSize (stats p dateLater)))
    by (now apply stats_vestedSize_mono).
  split; [exact M|]. split.
  - intros T. rewrite (app_assoc (readings ++ [dateNow]) later [dateLater]).
    now rewrite !clock_latest.
  - intros T. rewrite !clock_frozen by assumption. auto.
Qed.

(** C2, witness: an active stream read at 100, 500, 600 and 800, and a
    paused one mounted at 500 and at 800. *)
Lemma C2_witness :
  num_le (vestedSize (stats (example_props "Active") (Fin 500)))
         (vestedSize (stats (example_props "Active") (Fin 800)))
  /\ (ticking (example_props "Active") = true ->
      num_le
        (vestedSize (stats (example_props "Active")
                       (clock (example_props "Active") (Fin 0)
                          ([Fin 100] ++ [Fin 500]))))
        (vestedSize
           (stats (example_props "Active")
              (clock (example_props "Active") (Fin 0)
                 (([Fin 100] ++ [Fin 500]) ++ [Fin 600] ++ [Fin 800])))))
  /\ (ticking (example_props "Active") = false ->
      stats (example_props "Active")
        (clock (example_props "Active") (Fin 500) [Fin 100])
      = stats (example_props "Active") (Fin 500)
      /\ stats (example_props "Active")
           (clock (example_props "Active") (Fin 800) [Fin 600])
         = stats (example_props "Active") (Fin 800)
      /\ num_le
           (vestedSize (stats (example_props "Active")
                          (clock (example_props "Active") (Fin 500)
                             [Fin 100])))
           (vestedSize (stats (example_props "Active")
                          (clock (example_props "Active") (Fin 800)
                             [Fin 600])))).
Proof.
  apply (@C2_vested_monotone (example_props "Active") (Fin 0) (Fin 500)
           (Fin 800) [Fin 100] [Fin 600]).
  reflexivity.
Defined.

(** ** Equal shares *)

(** C3, counterexample.  For a total of 100 and 3 recipients the share
    computed is not 33. *)
Lemma C3_counterexample :
  ~ (forall F : NumberFormat,
       calculateEqualAmount (lit "100") (Fin 3) = lit "33").
Proof.
  intros H. specialize (H plain_format). vm_compute in H. discriminate H.
Qed.

(** ** The error table *)

(** The [Errors] table has exactly sixteen entries, keyed 1 to 16 in that
    order, whose messages are the sixteen error kinds in the order of
    the taxonomy; every kind has its code in the table, and the codes
    the table knows are exactly the codes of the kinds.  Nothing under
    the sources reads the table or raises one of its errors. *)
Lemma Errors_table :
  map fst Errors = [1; 2; 3; 4; 5; 6; 7; 8; 9; 10; 11; 12; 13; 14; 15; 16]%N
  /\ map snd Errors = map kind_name all_kinds
  /\ List.length Errors = 16%nat
  /\ (forall k : ErrorKind,
        In k all_kinds /\ (1 <= code k <= 16)%N
        /\ message_of Errors (code k) = Some (kind_name k))
  /\ (forall c : N,
        message_of Errors c <> None <-> exists k, code k = c)
  /\ (forall k k' : ErrorKind, code k = code k' -> k = k').
Proof.
  split; [reflexivity|]. split; [reflexivity|]. split; [reflexivity|].
  split; [|split].
  - intros k. destruct k; (split; [simpl; tauto|]); split;
      try reflexivity; simpl; lia.
  - intros c. split.
    + intros H.
      assert (D : (1 <= c <= 16)%N).
      { destruct (N.leb_spec 1 c); [destruct (N.leb_spec c 16); [lia|]|].
        - exfalso. apply H. unfold Errors, message_of.
          repeat match goal with
                 | |- context [(?k =? c)%N] =>
                     destruct (N.eqb_spec k c); [lia|]
                 end. reflexivity.
        - exfalso. apply H. unfold Errors, message_of.
          repeat match goal with
                 | |- context [(?k =? c)%N] =>
                     destruct (N.eqb_spec k c); [lia|]
                 end. reflexivity. }
      assert (C : In c [1; 2; 3; 4; 5; 6; 7; 8; 9; 10; 11; 12; 13; 14;
                        15; 16]%N).
      { simpl. lia. }
      change [1; 2; 3; 4; 5; 6; 7; 8; 9; 10; 11; 12; 13; 14; 15; 16]%N
        with (map code all_kinds) in C.
      apply in_map_iff in C. destruct C as (k & E & _). now exists k.
    + intros (k & <-). destruct k; discriminate.
  - intros k k'. destruct k, k'; intros H; try reflexivity; discriminate H.
Qed.

(** ** Submitting a distribution *)

(** C5.  Whatever the service, the addresses and the state of the hook,
    executing a distribution whose recipient list is empty returns a
    failure with an error message, and the log of requests is left as
    it was: nothing is sent. *)
Theorem C5_empty_recipients (F : NumberFormat) (service : StellarService)
    (sender token : jsstring) (state : DistributionState) (w : World) :
  recipients state = [] ->
  exists message,
    executeTransaction service sender token state w
    = (Returned {| success := false; transactionHash := None;
                   error := Some message |},
       {| isLoading := false; hookError := Some message; sent := sent w |}).
Proof.
  intros H. exists (lit "No recipients provided").
  now apply no_recipients_rejected.
Qed.

(** C5, witness: an equal distribution of 100 to nobody. *)
Lemma C5_witness :
  exists message,
    @executeTransaction plain_format accepting (lit "GSENDER") (lit "native")
      empty_state initial
    = (Returned {| success := false; transactionHash := None;
                   error := Some message |},
       {| isLoading := false; hookError := Some message; sent := [] |}).
Proof.
  exact (@C5_empty_recipients plain_format accepting (lit "GSENDER")
           (lit "native") empty_state initial eq_refl).
Defined.

(** C6, the code at the failing input.  A weighted distribution whose
    recipient declares the amount "abc", which [parseFloat] reads as
    NaN, passes the validation: the request is sent, with the amount
    "NaN", and the run reports success when the service accepts it. *)
Theorem C6_nan_amount_sent (F : NumberFormat) (sender token hash : jsstring) :
  existsb (fun r => isNaN (parseFloat_opt (amount r))) (recipients nan_state)
  = true
  /\ executeTransaction (fun _ => Returned hash) sender token nan_state initial
     = (Returned {| success := true; transactionHash := Some hash;
                    error := None |},
        {| isLoading := false; hookError := None;
           sent := [distributeWeighted sender token [G_address]
                      [lit "NaN"]] |}).
Proof. split; reflexivity. Qed.

(** ** Amounts *)

(** Every string that is not a decimal numeral, or that denotes a
    negative number or zero, is rejected by the amount utilities:
    [validateAmount] returns an error message and [isValidAmount]
    returns false; hence [amountToStroops] throws on it and
    [calculateEqualAmount] answers "0". *)
Lemma validators_reject_nonpositive (a : jsstring) :
  match numeral_value a with
  | Some q => q <= 0
  | None => True
  end ->
  validateAmount a <> None
  /\ isValidAmount a = false
  /\ (forall decimals, amountToStroops a decimals
                       = Throw (Error (lit "Invalid amount")))
  /\ (forall (F : NumberFormat) n, calculateEqualAmount a n = lit "0").
Proof.
  intros H.
  assert (V : validateAmount a <> None).
  { intros C. destruct (validateAmount_positive a C) as (q & E & P).
    rewrite E in H. lra. }
  assert (I : isValidAmount a = false).
  { unfold isValidAmount. destruct (validateAmount a); [reflexivity|].
    congruence. }
  repeat split; auto.
  - intros d. unfold amountToStroops. now rewrite I.
  - intros F n. unfold calculateEqualAmount. now rewrite I.
Qed.

(** C7, the code at the failing input.  The total "-5" is rejected by
    [validateAmount] and [isValidAmount], but [executeTransaction] asks
    of the total of an equal distribution only that it is not empty:
    the request is sent, with the amount "-50000000", and the run
    reports success when the service accepts it. *)
Theorem C7_negative_total_sent (F : NumberFormat)
    (sender token hash : jsstring) :
  validateAmount (lit "-5") <> None
  /\ isValidAmount (lit "-5") = false
  /\ DistributionTransaction.totalAmount negative_state = lit "-5"
  /\ executeTransaction (fun _ => Returned hash) sender token negative_state
       initial
     = (Returned {| success := true; transactionHash := Some hash;
                    error := None |},
        {| isLoading := false; hookError := None;
           sent := [distributeEqual sender token (lit "-50000000")
                      [G_address]] |}).
Proof.
  split; [vm_compute; discriminate|]. split; [vm_compute; reflexivity|].
  split; reflexivity.
Qed.

(** ** Addresses *)

(** C8.  The two validators accept the same strings:
    [validateStellarAddress] returns null exactly when
    [isValidStellarAddress] returns true, which is exactly when the
    string matches [^[GC][A-Z2-7]{55}$]: 56 code units, the first G or
    C, the others in A-Z or 2-7. *)
Theorem C8_validators_agree (a : jsstring) :
  (validateStellarAddress a = None <-> isValidStellarAddress a = true)
  /\ (isValidStellarAddress a = true <-> test base32Regex a = true)
  /\ (test base32Regex a = true <->
      List.length a = 56%nat
      /\ exists c t, a = c :: t /\ (c = 71%N \/ c = 67%N)
                     /\ forall x, In x t ->
                          (65 <= x <= 90)%N \/ (50 <= x <= 55)%N).
Proof.
  split; [|split].
  - rewrite validateStellarAddress_regex, isValidStellarAddress_regex. tauto.
  - rewrite isValidStellarAddress_regex. tauto.
  - rewrite base32Regex_spec. split.
    + intros (c & t & -> & Hc & Hl & Hf). split; [simpl; lia|].
      exists c, t. split; [reflexivity|]. split.
      * unfold oneOf in Hc. change (lit "GC") with [71%N; 67%N] in Hc.
        cbn [existsb] in Hc. rewrite !orb_true_iff, !N.eqb_eq in Hc.
        intuition discriminate.
      * intros x Hx. rewrite forallb_forall in Hf. specialize (Hf x Hx).
        unfold base32, orC, range in Hf.
        change (lit "A") with [65%N] in Hf. change (lit "Z") with [90%N] in Hf.
        change (lit "2") with [50%N] in Hf. change (lit "7") with [55%N] in Hf.
        rewrite orb_true_iff, !andb_true_iff, !N.leb_le in Hf. tauto.
    + intros (Hl & c & t & -> & Hc & Hf). exists c, t.
      split; [reflexivity|]. split; [|split].
      * unfold oneOf. change (lit "GC") with [71%N; 67%N]. cbn [existsb].
        rewrite !orb_true_iff, !N.eqb_eq. tauto.
      * simpl in Hl. lia.
      * apply forallb_forall. intros x Hx. specialize (Hf x Hx).
        unfold base32, orC, range.
        change (lit "A") with [65%N]. change (lit "Z") with [90%N].
        change (lit "2") with [50%N]. change (lit "7") with [55%N].
        rewrite orb_true_iff, !andb_true_iff, !N.leb_le. tauto.
Qed.

(** ** Amounts and stroops, there and back *)

(** C9, counterexample.  The valid amount 900719925.4740993, with seven
    decimals and no trailing zero, is [2^53 + 1] stroops; the product
    with [10^7] is not a binary64 number, [amountToStroops] returns
    [2^53], and [stroopsToAmount] prints 900719925.4740992. *)
Lemma C9_counterexample :
  let a := lit "900719925.4740993" in
  let s := lit "900719925.4740992" in
  isValidAmount a = true
  /\ amountToStroops a 7 = Ok 9007199254740992%Z
  /\ stroopsToAmount 9007199254740992 7 = Ok s
  /\ match numeral_value a, numeral_value s with
     | Some q, Some q' => ~ q == q'
     | _, _ => False
     end.
Proof.
  cbv zeta. split; [vm_compute; reflexivity|].
  split; [vm_compute; reflexivity|].
  split; [vm_compute; reflexivity|]. vm_compute. discriminate.
Qed.

(** C9, as amended.  For every valid amount string [a] (at most seven
    decimals) whose value is below [2^51] stroops, that is below
    225179981.3685248, [amountToStroops] returns exactly the value of
    [a] times [10^7], and [stroopsToAmount] of it is a numeral that
    denotes the same number as [a]. *)
Theorem C9_round_trip (a : jsstring) :
  isValidAmount a = true ->
  match numeral_value a with
  | Some q => q < safe_amount
  | None => False
  end ->
  exists n s q q',
    amountToStroops a 7 = Ok n
    /\ stroopsToAmount n 7 = Ok s
    /\ numeral_value a = Some q
    /\ numeral_value s = Some q'
    /\ q == q'
    /\ inject_Z n == q * ten7.
Proof.
  intros V B.
  assert (V' : validateAmount a = None).
  { unfold isValidAmount in V. destruct (validateAmount a); congruence. }
  destruct (amountToStroops_exact a V') as (d1 & d2 & Hs & Hl & Pn & En).
  destruct (shaped_numeral Hs) as (q & Eq & Hq).
  rewrite Eq in B. rewrite (@shaped_value_stroops d1 d2 Hl) in Hq.
  set (n := stroops_of d1 d2) in *.
  assert (T7 : 0 < ten7) by reflexivity.
  assert (Qn : inject_Z n == q * ten7) by (rewrite Hq; field; lra).
  assert (Bn : (n < 2 ^ 51)%Z).
  { rewrite Zlt_Qlt, Qn. unfold safe_amount in B.
    assert (B' : q * ten7 < inject_Z (2 ^ 51) / ten7 * ten7)
      by (apply Qmult_lt_compat_r; assumption).
    setoid_replace (inject_Z (2 ^ 51) / ten7 * ten7)
      with (inject_Z (2 ^ 51)) in B' by (field; lra).
    exact B'. }
  destruct (@stroopsToAmount_exact n ltac:(lia)) as (s & q' & Es & Eq' & Hq').
  exists n, s, q, q'. repeat split; auto.
  now rewrite Hq, Hq'.
Qed.

(** C9, witness: the least amount, 0.0000001, is one stroop and comes
    back. *)
Lemma C9_witness :
  exists n s q q',
    amountToStroops (lit "0.0000001") 7 = Ok n
    /\ stroopsToAmount n 7 = Ok s
    /\ numeral_value (lit "0.0000001") = Some q
    /\ numeral_value s = Some q'
    /\ q == q'
    /\ inject_Z n == q * ten7.
Proof.
  apply (@C9_round_trip (lit "0.0000001")).
  - vm_compute. reflexivity.
  - vm_compute. reflexivity.
Defined.

(** ** The breakdown of the progress bar *)

(** C10, counterexample.  For a total of 1 with 0.2 withdrawn, nine
    tenths of the way, the inputs are valid and the three sizes are
    0.2, 0.7 and 0.09999999999999998: in binary64 they add up to
    0.9999999999999999, not to the total. *)
Lemma C10_counterexample :
  let st := stats tenth_props (Fin 9) in
  validInputs tenth_props = true
  /\ ~ num_eq (add (add (withdrawnSize st) (vestedNotWithdrawnSize st))
                   (remainingSize st))
              (total st).
Proof.
  cbv zeta. split; [vm_compute; reflexivity|]. vm_compute. discriminate.
Qed.

(** C10, as amended.  On valid inputs the formulas of the breakdown
    partition the total: computed without rounding error, the three
    sizes add up to the total and the three percentages to 100.  In the
    binary64 arithmetic of the code each percentage lies in [0, 100];
    the sums are then met up to rounding only. *)
Theorem C10_partition (p : StreamProgressBarProps) (now : number) :
  (@validInputs exact p = true ->
   let st := @stats exact p now in
   num_eq (@add exact (@add exact (withdrawnSize st)
                                  (vestedNotWithdrawnSize st))
                      (remainingSize st))
          (total st)
   /\ num_eq (@add exact (@add exact (withdrawnPercent st) (vestedPercent st))
                         (remainingPercent st))
             hundred)
  /\ (@validInputs IEEE754 p = true ->
      let st := @stats IEEE754 p now in
      (num_le zero (withdrawnPercent st)
       /\ num_le (withdrawnPercent st) hundred)
      /\ (num_le zero (vestedPercent st)
          /\ num_le (vestedPercent st) hundred)
      /\ (num_le zero (remainingPercent st)
          /\ num_le (remainingPercent st) hundred)).
Proof.
  split.
  - apply exact_partition.
  - apply (@percents_in_range IEEE754 _).
Qed.

(** C10, witness: the same props, in both arithmetics. *)
Lemma C10_witness :
  (let st := @stats exact tenth_props (Fin 9) in
   num_eq (@add exact (@add exact (withdrawnSize st)
                                  (vestedNotWithdrawnSize st))
                      (remainingSize st))
          (total st)
   /\ num_eq (@add exact (@add exact (withdrawnPercent st) (vestedPercent st))
                         (remainingPercent st))
             hundred)
  /\ (let st := @stats IEEE754 tenth_props (Fin 9) in
      (num_le zero (withdrawnPercent st)
       /\ num_le (withdrawnPercent st) hundred)
      /\ (num_le zero (vestedPercent st)
          /\ num_le (vestedPercent st) hundred)
      /\ (num_le zero (remainingPercent st)
          /\ num_le (remainingPercent st) hundred)).
Proof.
  split.
  - apply (proj1 (C10_partition tenth_props (Fin 9))). vm_compute. reflexivity.
  - apply (proj2 (C10_partition tenth_props (Fin 9))). vm_compute. reflexivity.
Defined.


(* ================================================================== *)
(** * Further properties of the code *)
(* ================================================================== *)


(** ** Lists of addresses *)

Section AddressLists.
Import StellarValidation.

Lemma set_has_In (s : list jsstring) (x : jsstring) :
  set_has s x = true <-> In x s.
Proof.
  unfold set_has. rewrite existsb_exists. split.
  - intros (y & Hy & E). apply str_eqb_eq in E. now subst.
  - intros H. exists x. split; [assumption|apply str_eqb_refl].
Qed.

Lemma set_has_false (s : list jsstring) (x : jsstring) :
  set_has s x = false <-> ~ In x s.
Proof.
  rewrite <- set_has_In. destruct (set_has s x); split; congruence.
Qed.

Lemma set_add_In (s : list jsstring) (x y : jsstring) :
  In y (set_add s x) <-> In y s \/ y = x.
Proof.
  unfold set_add. destruct (set_has s x) eqn:E.
  - apply set_has_In in E. split; [tauto|]. intros [H | ->]; assumption.
  - rewrite in_app_iff. simpl. intuition congruence.
Qed.

Lemma set_add_NoDup (s : list jsstring) (x : jsstring) :
  NoDup s -> NoDup (set_add s x).
Proof.
  intros H. unfold set_add. destruct (set_has s x) eqn:E; [assumption|].
  apply set_has_false in E.
  apply NoDup_app; [assumption| repeat constructor; simpl; tauto |].
  intros a Ha [<- | []]. contradiction.
Qed.

Lemma count_occ_snoc (p : list jsstring) (x a : jsstring) :
  count_occ str_dec (p ++ [x]) a
  = (count_occ str_dec p a + if str_dec x a then 1 else 0)%nat.
Proof.
  rewrite count_occ_app. simpl. destruct (str_dec x a); reflexivity.
Qed.

Lemma scanned_step (p : list jsstring) (acc : list jsstring * list jsstring)
    (x : jsstring) :
  scanned p acc -> scanned (p ++ [x]) (scan_address acc x).
Proof.
  destruct acc as [seen dups]. intros (Hs & Hn & Hd). simpl in *.
  unfold scan_address. destruct (set_has seen x) eqn:E.
  - apply set_has_In in E. apply Hs in E.
    assert (C : (1 <= count_occ str_dec p x)%nat)
      by (apply (count_occ_In str_dec) in E; lia).
    split; [|split]; simpl.
    + intros a. rewrite Hs, in_app_iff. simpl. intuition congruence.
    + now apply set_add_NoDup.
    + intros a. rewrite set_add_In, Hd, count_occ_snoc.
      destruct (str_dec x a) as [->|N].
      * split; [lia|]. intros _. destruct (le_lt_dec 2 (count_occ str_dec p a)); auto.
      * split; [intros [H | ->]; [lia|congruence]|]. intros H. left. lia.
  - apply set_has_false in E.
    assert (C : count_occ str_dec p x = 0%nat).
    { apply count_occ_not_In. now rewrite <- Hs. }
    split; [|split]; simpl.
    + intros a. rewrite set_add_In, Hs, in_app_iff. simpl. intuition congruence.
    + assumption.
    + intros a. rewrite Hd, count_occ_snoc.
      destruct (str_dec x a) as [->|N]; lia.
Qed.

Lemma scanned_fold (l p : list jsstring) (acc : list jsstring * list jsstring) :
  scanned p acc -> scanned (p ++ l) (fold_left scan_address l acc).
Proof.
  revert p acc. induction l as [|x l IH]; intros p acc H.
  - now rewrite app_nil_r.
  - simpl. replace (p ++ x :: l) with ((p ++ [x]) ++ l)
      by (now rewrite <- app_assoc).
    apply IH. now apply scanned_step.
Qed.

Lemma findDuplicateAddresses_inv (l : list jsstring) :
  NoDup (findDuplicateAddresses l)
  /\ forall a, In a (findDuplicateAddresses l)
               <-> (2 <= count_occ str_dec l a)%nat.
Proof.
  unfold findDuplicateAddresses.
  assert (H : scanned ([] ++ l) (fold_left scan_address l ([], []))).
  { apply scanned_fold. split; [|split]; simpl.
    - tauto.
    - constructor.
    - intros a. split; [tauto|lia]. }
  destruct H as (_ & Hn & Hd). exact (conj Hn Hd).
Qed.

Lemma findDuplicateAddresses_nil (l : list jsstring) :
  findDuplicateAddresses l = [] <-> NoDup l.
Proof.
  destruct (findDuplicateAddresses_inv l) as (_ & Hd).
  rewrite (NoDup_count_occ str_dec). split.
  - intros E a. rewrite E in Hd. specialize (Hd a). simpl in Hd.
    destruct (le_lt_dec 2 (count_occ str_dec l a)); [|lia].
    exfalso. now apply Hd.
  - intros H. destruct (findDuplicateAddresses l) as [|a t] eqn:E; [reflexivity|].
    exfalso. specialize (H a). assert (In a (a :: t)) by (now left).
    apply Hd in H0. lia.
Qed.

(** X8.  [findDuplicateAddresses] returns, each once, exactly the
    addresses that occur at least twice in its argument; it returns the
    empty array exactly when no address is repeated. *)
Theorem X8_duplicates (addresses : list jsstring) :
  NoDup (findDuplicateAddresses addresses)
  /\ (forall a, In a (findDuplicateAddresses addresses)
                <-> (2 <= count_occ str_dec addresses a)%nat)
  /\ (findDuplicateAddresses addresses = [] <-> NoDup addresses).
Proof.
  destruct (findDuplicateAddresses_inv addresses) as (Hn & Hd).
  split; [assumption|]. split; [assumption|].
  apply findDuplicateAddresses_nil.
Qed.

Lemma count_occ_filter_le (f : jsstring -> bool) (l : list jsstring)
    (a : jsstring) :
  (count_occ str_dec (filter f l) a <= count_occ str_dec l a)%nat.
Proof.
  induction l as [|x l IH]; [apply Nat.le_refl|].
  cbn [filter]. destruct (f x).
  - cbn [count_occ]. destruct (str_dec x a); lia.
  - cbn [count_occ]. destruct (str_dec x a); lia.
Qed.

Lemma validateStellarAddress_message (a : jsstring) :
  validateStellarAddress a <> Some [].
Proof.
  unfold validateStellarAddress. destruct a as [|c t]; [discriminate|].
  repeat match goal with
         | |- (if ?b then _ else _) <> _ => destruct b
         end; try discriminate.
Qed.

Lemma sort_address_cases (acc : list jsstring * list InvalidAddress) (a : jsstring) :
  (isValidStellarAddress a = true
   /\ sort_address acc a = (fst acc ++ [a], snd acc))
  \/ (isValidStellarAddress a = false
      /\ exists e, validateStellarAddress a = Some e
                   /\ sort_address acc a
                      = (fst acc, snd acc ++ [{| address := a; error := e |}])).
Proof.
  destruct acc as [v i]. unfold sort_address. cbn [fst snd].
  pose proof (validateStellarAddress_regex a) as R.
  pose proof (isValidStellarAddress_regex a) as I.
  pose proof (validateStellarAddress_message a) as Msg.
  destruct (validateStellarAddress a) as [[|c e]|].
  - exfalso. now apply Msg.
  - right. split.
    + rewrite I. destruct (test base32Regex a); [|reflexivity].
      destruct R as [_ R]. discriminate R. reflexivity.
    + eexists. split; reflexivity.
  - left. split; [|reflexivity]. rewrite I. now apply R.
Qed.

Lemma sort_address_fold (l : list jsstring) (acc : list jsstring * list InvalidAddress) :
  let r := fold_left sort_address l acc in
  fst r = fst acc ++ filter isValidStellarAddress l
  /\ map address (snd r)
     = map address (snd acc)
       ++ filter (fun a => negb (isValidStellarAddress a)) l
  /\ ((forall i, In i (snd acc) ->
         validateStellarAddress (address i) = Some (error i)) ->
      forall i, In i (snd r) ->
         validateStellarAddress (address i) = Some (error i)).
Proof.
  revert acc. induction l as [|a l IH]; intros acc; cbv zeta.
  - simpl. rewrite !app_nil_r. auto.
  - cbn [fold_left]. specialize (IH (sort_address acc a)). cbv zeta in IH.
    destruct IH as (I1 & I2 & I3).
    destruct (sort_address_cases acc a) as [(V & E) | (V & e & Ee & E)];
      rewrite E in *; cbn [fst snd] in *; cbn [filter]; rewrite V; cbn [negb].
    + rewrite I1, I2, <- app_assoc. auto.
    + rewrite I1, I2, map_app, <- app_assoc. cbn [map address app].
      split; [reflexivity|]. split; [reflexivity|].
      intros H. apply I3. intros i Hi. apply in_app_iff in Hi.
      destruct Hi as [Hi | [<- | []]]; [now apply H|]. exact Ee.
Qed.

(** X9.  [validateAddressList] splits its argument, in order, into the
    addresses that [isValidStellarAddress] accepts and the others; each
    of the others is paired with the message of
    [validateStellarAddress]; the duplicates are those of the valid
    addresses, so every one of them is valid and occurs at least twice
    in the argument. *)
Theorem X9_validateAddressList (addresses : list jsstring) :
  let r := validateAddressList addresses in
  validAddresses r = filter isValidStellarAddress addresses
  /\ map address (invalidAddresses r)
     = filter (fun a => negb (isValidStellarAddress a)) addresses
  /\ (forall i, In i (invalidAddresses r) ->
        validateStellarAddress (address i) = Some (error i))
  /\ duplicateAddresses r = findDuplicateAddresses (validAddresses r)
  /\ (forall a, In a (duplicateAddresses r) ->
        isValidStellarAddress a = true
        /\ (2 <= count_occ str_dec addresses a)%nat).
Proof.
  cbv zeta. unfold validateAddressList.
  pose proof (sort_address_fold addresses ([], [])) as H. cbv zeta in H.
  destruct (fold_left sort_address addresses ([], [])) as [v i].
  cbn [fst snd app map] in H. destruct H as (H1 & H2 & H3).
  cbn [validAddresses invalidAddresses duplicateAddresses].
  split; [assumption|]. split; [assumption|].
  split; [apply H3; intros ? []|]. split; [reflexivity|].
  intros a Ha. apply findDuplicateAddresses_inv in Ha.
  rewrite H1 in Ha.
  assert (In a (filter isValidStellarAddress addresses)).
  { apply (count_occ_In str_dec). lia. }
  apply filter_In in H. destruct H as (_ & V). split; [assumption|].
  pose proof (count_occ_filter_le isValidStellarAddress addresses a). lia.
Qed.

(** X10.  The message 'Address cannot be empty' of
    [validateStellarAddress] is never returned: the empty string is
    answered 'Address is required' by the first test. *)
Theorem X10_address_never_empty_message (a : jsstring) :
  validateStellarAddress a <> Some (lit "Address cannot be empty")
  /\ validateStellarAddress [] = Some (lit "Address is required").
Proof.
  split; [|reflexivity].
  unfold validateStellarAddress. destruct a as [|c t]; [vm_compute; discriminate|].
  cbn [List.length Nat.eqb].
  repeat match goal with
         | |- (if ?b then _ else _) <> _ => destruct b
         end;
    try discriminate;
    intros H; injection H as H; apply (f_equal (firstn 9)) in H;
    vm_compute in H; discriminate H.
Qed.

End AddressLists.


(** ** Amounts *)

Section AmountShape.
Import AmountValidation StellarValidation.

Lemma shaped_trim (a d1 d2 : jsstring) : shaped a d1 d2 -> trim a = a.
Proof.
  intros H. apply trim_id. intros c Hc.
  destruct (shaped_chars c H Hc) as [D | ->]; [|reflexivity].
  apply isDigit_bounds in D. unfold isWhiteSpace.
  repeat match goal with
         | |- context [(?x <=? ?y)%N] => destruct (N.leb_spec x y); try lia
         | |- context [(?x =? ?y)%N] => destruct (N.eqb_spec x y); try lia
         end; reflexivity.
Qed.

Lemma digits_no_point (d : jsstring) :
  forallb isDigit d = true -> filter (oneOf ".") d = [] /\ indexOf d 46%N = None.
Proof.
  induction d as [|c d IH]; [auto|]. simpl. intros H.
  apply andb_true_iff in H. destruct H as [Hc Hd]. apply isDigit_bounds in Hc.
  destruct (IH Hd) as [I1 I2].
  unfold oneOf at 1. change (lit ".") with [46%N]. cbn [existsb].
  destruct (N.eqb_spec c 46); [lia|]. simpl. rewrite I2. split; [assumption|].
  reflexivity.
Qed.

Lemma indexOf_app_digits (d r : jsstring) :
  forallb isDigit d = true ->
  indexOf (d ++ 46%N :: r) 46%N = Some (List.length d).
Proof.
  induction d as [|c d IH]; [reflexivity|]. simpl. intros H.
  apply andb_true_iff in H. destruct H as [Hc Hd]. apply isDigit_bounds in Hc.
  destruct (N.eqb_spec c 46); [lia|]. now rewrite IH.
Qed.

Lemma shaped_indexOf (a d1 d2 : jsstring) :
  shaped a d1 d2 ->
  indexOf a 46%N = match d2 with [] => None | _ => Some (List.length d1) end
  /\ decimalCount a = match d2 with [] => 0%nat | _ => 1%nat end
  /\ getDecimalPlaces a = List.length d2.
Proof.
  intros (H1 & H2 & N1 & [[-> ->] | [-> N2]]).
  - destruct (digits_no_point d1 H1) as [F I]. unfold getDecimalPlaces, decimalCount.
    rewrite I, F. auto.
  - pose proof (indexOf_app_digits d1 d2 H1) as I.
    destruct (digits_no_point d1 H1) as [F1 _].
    destruct (digits_no_point d2 H2) as [F2 _].
    unfold getDecimalPlaces, decimalCount. rewrite I.
    rewrite filter_app, F1. cbn [filter app].
    unfold oneOf at 1. change (lit ".") with [46%N]. cbn [existsb N.eqb Pos.eqb orb].
    rewrite F2. destruct d2 as [|c d2]; [congruence|].
    split; [reflexivity|]. split; [reflexivity|].
    rewrite length_app. cbn [List.length]. lia.
Qed.

Lemma shaped_ends (a d1 d2 : jsstring) :
  shaped a d1 d2 ->
  startsWith a (lit ".") = false /\ endsWith a (lit ".") = false.
Proof.
  intros H. split.
  - destruct (shaped_head H) as (c & t & -> & Hc). apply isDigit_bounds in Hc.
    change (lit ".") with [46%N]. cbn [startsWith].
    destruct (N.eqb_spec 46 c); [lia|reflexivity].
  - assert (L : exists t c, a = t ++ [c] /\ isDigit c = true).
    { destruct H as (H1 & H2 & N1 & [[-> ->] | [-> N2]]).
      - destruct (exists_last N1) as (t & c & ->). exists t, c. split; [reflexivity|].
        rewrite forallb_app in H1. apply andb_true_iff in H1. destruct H1 as [_ H1].
        simpl in H1. now rewrite andb_true_r in H1.
      - destruct (exists_last N2) as (t & c & ->). exists (d1 ++ 46%N :: t), c.
        split; [now rewrite <- app_assoc|].
        rewrite forallb_app in H2. apply andb_true_iff in H2. destruct H2 as [_ H2].
        simpl in H2. now rewrite andb_true_r in H2. }
    destruct L as (t & c & -> & Hc). apply isDigit_bounds in Hc.
    unfold endsWith. rewrite rev_app_distr. change (lit ".") with [46%N].
    cbn [rev app startsWith].
    destruct (N.eqb_spec 46 c); [lia|reflexivity].
Qed.

Lemma shaped_regex (a d1 d2 : jsstring) : shaped a d1 d2 -> test re_amount a = true.
Proof.
  intros (H1 & H2 & N1 & [[-> ->] | [-> N2]]); apply re_amount_spec.
  - exists d1, []. rewrite app_nil_r. auto.
  - exists d1, d2. auto.
Qed.

Lemma shaped_unique (a d1 d2 e1 e2 : jsstring) :
  shaped a d1 d2 -> shaped a e1 e2 -> d1 = e1 /\ d2 = e2.
Proof.
  intros H K. pose proof (shaped_split H) as [T D].
  pose proof (shaped_split K) as [T' D']. rewrite T in T'. rewrite D in D'.
  split; [assumption|]. destruct d2, e2; congruence.
Qed.

Lemma tenth_micro_positive :
  exists r, binary64 (1 # 10000000) = Fin r /\ 0 < r.
Proof. eexists. split; [vm_compute; reflexivity|reflexivity]. Qed.

Lemma stroops_of_pos (d1 d2 : jsstring) :
  forallb isDigit d1 = true -> forallb isDigit d2 = true ->
  (List.length d2 <= 7)%nat -> 0 < shaped_value d1 d2 ->
  (1 <= stroops_of d1 d2)%Z.
Proof.
  intros H1 H2 L P. rewrite (shaped_value_stroops d1 d2 L) in P.
  assert (0 < inject_Z (stroops_of d1 d2)).
  { assert (T : 0 < ten7) by reflexivity.
    setoid_replace (inject_Z (stroops_of d1 d2))
      with (inject_Z (stroops_of d1 d2) / ten7 * ten7) by (field; lra).
    apply Qmult_lt_0_compat; assumption. }
  change 0 with (inject_Z 0) in H. rewrite <- Zlt_Qlt in H. lia.
Qed.

Lemma shaped_positive_Number (a d1 d2 : jsstring) :
  shaped a d1 d2 -> (List.length d2 <= 7)%nat -> 0 < shaped_value d1 d2 ->
  isFinite (binary64 (shaped_value d1 d2)) = true ->
  exists r, Number a = Fin r /\ 0 < r.
Proof.
  intros S L P Fi. rewrite (shaped_Number S (@shaped_trim a d1 d2 S)).
  unfold rnd, IEEE754.
  destruct S as (H1 & H2 & _).
  pose proof (@stroops_of_pos d1 d2 H1 H2 L P) as N1.
  assert (Q1 : (1 # 10000000) <= shaped_value d1 d2).
  { rewrite (shaped_value_stroops d1 d2 L).
    assert (inject_Z 1 <= inject_Z (stroops_of d1 d2)) by (rewrite <- Zle_Qle; lia).
    unfold ten7. apply Qle_shift_div_l; [reflexivity|].
    setoid_replace ((1 # 10000000) * inject_Z 10000000) with (inject_Z 1)
      by (vm_compute; reflexivity).
    assumption. }
  pose proof (binary64_mono Q1) as Mn.
  destruct tenth_micro_positive as (r0 & E0 & P0). rewrite E0 in Mn.
  destruct (binary64 (shaped_value d1 d2)) as [| |r];
    [discriminate Fi | discriminate Fi |].
  exists r. split; [reflexivity|].
  unfold num_le in Mn. cbn [leb] in Mn. apply Qle_bool_iff in Mn. lra.
Qed.

Lemma leb_pos_false (r : Q) : 0 < r -> leb (Fin r) (Fin 0) = false.
Proof.
  intros H. cbn [leb]. destruct (Qle_bool r 0) eqn:E; [|reflexivity].
  apply Qle_bool_iff in E. lra.
Qed.

Lemma shaped_accepted (a d1 d2 : jsstring) :
  shaped a d1 d2 -> (List.length d2 <= 7)%nat -> 0 < shaped_value d1 d2 ->
  isFinite (binary64 (shaped_value d1 d2)) = true ->
  validateAmount a = None.
Proof.
  intros S L P Fi.
  destruct (@shaped_positive_Number a d1 d2 S L P Fi) as (r & EN & Pr).
  pose proof (@shaped_trim a d1 d2 S) as T.
  destruct (@shaped_ends a d1 d2 S) as [S1 S2].
  pose proof (@shaped_regex a d1 d2 S) as R.
  destruct (@shaped_indexOf a d1 d2 S) as (I & C & _).
  destruct (shaped_head S) as (c & t & Ea & _).
  unfold validateAmount. rewrite Ea. rewrite <- Ea.
  cbv zeta. rewrite T.
  assert (E1 : str_eqb a [] = false) by (rewrite Ea; reflexivity).
  rewrite E1, str_eqb_refl, R, S1, S2. cbn [negb orb].
  rewrite C.
  assert (E2 : (1 <? match d2 with [] => 0 | _ :: _ => 1 end)%nat = false)
    by (destruct d2; reflexivity).
  rewrite E2, EN. cbn [isNaN isFinite negb orb].
  rewrite (leb_pos_false Pr), I.
  destruct S as (H1 & H2 & N1 & [[Sa Sb] | [Sa Sb]]).
  - subst d2. reflexivity.
  - destruct d2 as [|c2 d2']; [congruence|].
    rewrite Sa, length_app. cbn [List.length] in *.
    match goal with
    | |- context [(?x - List.length d1 - 1)%nat] =>
        replace (x - List.length d1 - 1)%nat with (Datatypes.S (List.length d2'))
          by lia
    end.
    unfold MAX_DECIMAL_PLACES.
    destruct (Nat.ltb_spec 7 (Datatypes.S (List.length d2'))); [lia|reflexivity].
Qed.

Lemma accepted_shaped (a : jsstring) :
  validateAmount a = None ->
  exists d1 d2, shaped a d1 d2 /\ (List.length d2 <= 7)%nat
                /\ 0 < shaped_value d1 d2
                /\ isFinite (binary64 (shaped_value d1 d2)) = true.
Proof.
  intros V. destruct (validateAmount_accepts a V) as (T & (d1 & d2 & S & L) & Fi & _).
  destruct (validateAmount_positive a V) as (q & Eq & Pq).
  destruct (shaped_numeral S) as (q' & Eq' & Hq').
  assert (q = q') by congruence. subst q'.
  exists d1, d2. split; [assumption|]. split; [assumption|].
  split; [now rewrite <- Hq'|].
  now rewrite (shaped_Number S T) in Fi.
Qed.

(** X1.  [validateAmount] accepts exactly the plain decimal numerals
    (digits, optionally a point and more digits, not starting or ending
    with the point, without surrounding white space) with at most 7
    decimals whose value is positive and within the range of a
    Number. *)
Theorem X1_validateAmount_iff (a : jsstring) :
  validateAmount a = None <->
  exists d1 d2, shaped a d1 d2 /\ (List.length d2 <= 7)%nat
                /\ 0 < shaped_value d1 d2
                /\ isFinite (binary64 (shaped_value d1 d2)) = true.
Proof.
  split; [apply accepted_shaped|].
  intros (d1 & d2 & S & L & P & Fi). now apply (@shaped_accepted a d1 d2).
Qed.

(** X7.  An amount that [validateAmount] accepts has at most
    [MAX_DECIMAL_PLACES] decimal places as [getDecimalPlaces] counts
    them. *)
Theorem X7_decimal_places (a : jsstring) :
  validateAmount a = None ->
  (getDecimalPlaces a <= MAX_DECIMAL_PLACES)%nat.
Proof.
  intros V. destruct (@accepted_shaped a V) as (d1 & d2 & S & L & _).
  destruct (@shaped_indexOf a d1 d2 S) as (_ & _ & ->). exact L.
Qed.

Lemma X7_decimal_places_witness :
  (getDecimalPlaces (lit "1.25") <= MAX_DECIMAL_PLACES)%nat.
Proof. apply X7_decimal_places. vm_compute. reflexivity. Defined.

Lemma validateAmount_message (a : jsstring) : validateAmount a <> Some [].
Proof.
  unfold validateAmount. destruct a as [|c t]; [discriminate|]. cbv zeta.
  repeat match goal with
         | |- (if ?b then _ else _) <> _ => destruct b
         | |- (match ?b with Some _ => _ | None => _ end) <> _ => destruct b
         end; try discriminate.
Qed.

(** X2.  The message 'Amount cannot have multiple decimal points' of
    [validateAmount] is never returned: a string with two points fails
    the earlier test of the regular expression and is answered
    'Amount can only contain numbers and one decimal point'. *)
Theorem X2_amount_never_multiple_points (a : jsstring) :
  validateAmount a <> Some (lit "Amount cannot have multiple decimal points")
  /\ validateAmount (lit "1.2.3")
     = Some (lit "Amount can only contain numbers and one decimal point").
Proof.
  split; [|vm_compute; reflexivity].
  unfold validateAmount. destruct a as [|c t]; [vm_compute; discriminate|].
  cbv zeta. set (s := trim (c :: t)).
  destruct (str_eqb s []) eqn:Es; [vm_compute; discriminate|].
  destruct (negb (str_eqb s (c :: t))); [vm_compute; discriminate|].
  destruct (test re_amount s) eqn:R; [|vm_compute; discriminate].
  cbn [negb].
  destruct (startsWith s (lit ".") || endsWith s (lit ".")) eqn:SE;
    [vm_compute; discriminate|].
  apply orb_false_iff in SE. destruct SE as [S1 S2].
  assert (Ns : s <> []).
  { intros E. rewrite E in Es. discriminate Es. }
  destruct (shaped_of_checks Ns R S1 S2) as (d1 & d2 & Sh).
  destruct (@shaped_indexOf s d1 d2 Sh) as (_ & C & _). rewrite C.
  assert (E2 : (1 <? match d2 with [] => 0 | _ :: _ => 1 end)%nat = false)
    by (destruct d2; reflexivity).
  rewrite E2.
  repeat match goal with
         | |- (if ?b then _ else _) <> _ => destruct b
         | |- (match ?b with Some _ => _ | None => _ end) <> _ => destruct b
         end; try discriminate;
    intros H; injection H as H; apply (f_equal (firstn 15)) in H;
    vm_compute in H; discriminate H.
Qed.

End AmountShape.


(** ** Totals, lists and the printed form of amounts *)

Section AmountLists.
Import StellarValidation Examples AmountValidation.

Lemma fold_add_valid_filter (l : list jsstring) (t : number) :
  fold_left add_valid l t = fold_left add_valid (filter isValidAmount l) t.
Proof.
  revert t. induction l as [|a l IH]; intros t; [reflexivity|].
  cbn [fold_left filter]. destruct (isValidAmount a) eqn:E.
  - cbn [fold_left]. apply IH.
  - rewrite <- IH. unfold add_valid at 2. now rewrite E.
Qed.

Lemma calculateTotalAmount_filter {F : NumberFormat} (l : list jsstring) :
  calculateTotalAmount l = calculateTotalAmount (filter isValidAmount l).
Proof. unfold calculateTotalAmount. now rewrite fold_add_valid_filter. Qed.

(** X5.  [calculateTotalAmount] skips the amounts that are not valid:
    its result is that of the valid amounts alone, and "0" when no
    amount is valid. *)
Theorem X5_total_ignores_invalid (F : NumberFormat) (amounts : list jsstring) :
  calculateTotalAmount amounts
  = calculateTotalAmount (filter isValidAmount amounts)
  /\ (filter isValidAmount amounts = [] ->
      calculateTotalAmount amounts = lit "0").
Proof.
  split; [apply calculateTotalAmount_filter|].
  intros H. rewrite calculateTotalAmount_filter, H. vm_compute. reflexivity.
Qed.

Lemma X5_total_ignores_invalid_witness :
  @calculateTotalAmount plain_format [lit "abc"; lit "-1"; lit "0"] = lit "0".
Proof.
  apply (proj2 (@X5_total_ignores_invalid plain_format
                  [lit "abc"; lit "-1"; lit "0"])).
  vm_compute. reflexivity.
Defined.

Lemma sort_amount_cases (acc : list jsstring * list InvalidAmount)
    (i : nat) (a : jsstring) :
  (isValidAmount a = true
   /\ sort_amount acc (i, a) = (fst acc ++ [a], snd acc))
  \/ (isValidAmount a = false
      /\ exists e, validateAmount a = Some e
           /\ sort_amount acc (i, a)
              = (fst acc,
                 snd acc ++ [{| amount := a; error := e; index := i |}])).
Proof.
  destruct acc as [v iv]. unfold sort_amount, isValidAmount. cbn [fst snd].
  pose proof (validateAmount_message a) as Msg.
  destruct (validateAmount a) as [[|c e]|].
  - exfalso. now apply Msg.
  - right. split; [reflexivity|]. eexists. split; reflexivity.
  - left. split; reflexivity.
Qed.

Lemma sort_fold (l : list jsstring) (k : nat)
    (acc : list jsstring * list InvalidAmount) :
  let r := fold_left sort_amount (combine (seq k (List.length l)) l) acc in
  fst r = fst acc ++ filter isValidAmount l
  /\ map amount (snd r)
     = map amount (snd acc) ++ filter (fun a => negb (isValidAmount a)) l
  /\ (forall P : InvalidAmount -> Prop,
        (forall i, In i (snd acc) -> P i) ->
        (forall j a e, nth_error l j = Some a -> validateAmount a = Some e ->
                       P {| amount := a; error := e; index := k + j |}) ->
        forall i, In i (snd r) -> P i).
Proof.
  revert k acc. induction l as [|a l IH]; intros k acc; cbv zeta.
  - simpl. rewrite !app_nil_r. auto.
  - cbn [List.length seq combine fold_left].
    specialize (IH (S k) (sort_amount acc (k, a))). cbv zeta in IH.
    destruct IH as (I1 & I2 & I3).
    destruct (sort_amount_cases acc k a) as [(V & E) | (V & e & Ee & E)];
      rewrite E in *; cbn [fst snd] in *; cbn [filter]; rewrite V; cbn [negb].
    + rewrite I1, I2, <- app_assoc. split; [reflexivity|].
      split; [reflexivity|]. intros P Hacc Hl. apply I3; [assumption|].
      intros j b e Hj Hb. replace (S k + j)%nat with (k + S j)%nat by lia.
      now apply Hl.
    + rewrite I1, I2, map_app, <- app_assoc. cbn [map amount app].
      split; [reflexivity|]. split; [reflexivity|].
      intros P Hacc Hl. apply I3.
      * intros i Hi. apply in_app_iff in Hi.
        destruct Hi as [Hi | [<- | []]]; [now apply Hacc|].
        replace k with (k + 0)%nat at 1 by lia. now apply Hl.
      * intros j b e' Hj Hb. replace (S k + j)%nat with (k + S j)%nat by lia.
        now apply Hl.
Qed.

(** X6.  [validateAmountList] splits its argument, in order, into the
    amounts that are valid and the others; each of the others is
    recorded with its position in the argument and the message of
    [validateAmount]; the total is that of [calculateTotalAmount] on the
    whole argument, and no amount is lost. *)
Theorem X6_validateAmountList (F : NumberFormat) (amounts : list jsstring) :
  let r := validateAmountList amounts in
  validAmounts r = filter isValidAmount amounts
  /\ map amount (invalidAmounts r)
     = filter (fun a => negb (isValidAmount a)) amounts
  /\ (forall i, In i (invalidAmounts r) ->
        nth_error amounts (index i) = Some (amount i)
        /\ validateAmount (amount i) = Some (error i))
  /\ totalAmount r = calculateTotalAmount amounts
  /\ (List.length (validAmounts r) + List.length (invalidAmounts r)
      = List.length amounts)%nat.
Proof.
  cbv zeta. unfold validateAmountList.
  pose proof (sort_fold amounts 0 ([], [])) as H. cbv zeta in H.
  destruct (fold_left sort_amount
              (combine (seq 0 (List.length amounts)) amounts) ([], []))
    as [v iv].
  cbn [fst snd app map] in H. destruct H as (H1 & H2 & H3).
  cbn [validAmounts invalidAmounts totalAmount].
  split; [assumption|]. split; [assumption|]. split; [|split].
  - apply H3; [intros ? []|]. intros j a e Hj Ha. cbn [index amount error].
    auto.
  - rewrite H1. symmetry. apply calculateTotalAmount_filter.
  - rewrite <- (length_map amount iv), H1, H2.
    clear. induction amounts as [|a l IH]; [reflexivity|].
    cbn [filter]. destruct (isValidAmount a); cbn [negb List.length]; lia.
Qed.

Lemma digits_uint (s : jsstring) :
  forallb isDigit s = true -> exists u, s = uint_codes u.
Proof.
  induction s as [|c s IH]; intros H.
  - exists Decimal.Nil. reflexivity.
  - cbn [forallb] in H. apply andb_true_iff in H. destruct H as [Hc Hs].
    destruct (IH Hs) as (u & ->). apply isDigit_bounds in Hc.
    assert (C : (c = 48 \/ c = 49 \/ c = 50 \/ c = 51 \/ c = 52 \/ c = 53
                 \/ c = 54 \/ c = 55 \/ c = 56 \/ c = 57)%N) by lia.
    destruct C as [->|[->|[->|[->|[->|[->|[->|[->|[->| ->]]]]]]]]].
    + now exists (Decimal.D0 u).
    + now exists (Decimal.D1 u).
    + now exists (Decimal.D2 u).
    + now exists (Decimal.D3 u).
    + now exists (Decimal.D4 u).
    + now exists (Decimal.D5 u).
    + now exists (Decimal.D6 u).
    + now exists (Decimal.D7 u).
    + now exists (Decimal.D8 u).
    + now exists (Decimal.D9 u).
Qed.

Lemma uint_codes_nzhead (u : Decimal.uint) :
  uint_codes (Decimal.nzhead u) = dropWhile isZeroDigit (uint_codes u).
Proof. induction u; try reflexivity. exact IHu. Qed.

Lemma Z_toString_of_N (x : N) : Z_toString (Z.of_N x) = uint_codes (N.to_uint x).
Proof. destruct x; reflexivity. Qed.

Lemma Z_toString_digits (s : jsstring) :
  forallb isDigit s = true ->
  Z_toString (digits_value s)
  = match dropWhile isZeroDigit s with
    | [] => lit "0"
    | t => t
    end.
Proof.
  intros H. destruct (digits_uint s H) as (u & ->).
  rewrite uint_codes_value, Z_toString_of_N, DecimalPos.Unsigned.to_of.
  rewrite <- uint_codes_nzhead. unfold Decimal.unorm.
  destruct (Decimal.nzhead u); reflexivity.
Qed.

Lemma dropWhile_id (p : N -> bool) (c : N) (t : jsstring) :
  p c = false -> dropWhile p (c :: t) = c :: t.
Proof. intros H. cbn [dropWhile]. now rewrite H. Qed.

Lemma dropWhile_head_false (p : N -> bool) (s : jsstring) (c : N) (t : jsstring) :
  dropWhile p s = c :: t -> p c = false.
Proof.
  induction s as [|x s IH]; [discriminate|]. cbn [dropWhile].
  destruct (p x) eqn:E; [exact IH|]. intros H. injection H as <- _. exact E.
Qed.

Lemma Z_toString_canonical (c : N) (t : jsstring) :
  forallb isDigit (c :: t) = true -> isZeroDigit c = false ->
  Z_toString (digits_value (c :: t)) = c :: t.
Proof.
  intros H Z. rewrite (Z_toString_digits _ H). now rewrite dropWhile_id.
Qed.

Lemma Z_toString_head (n : Z) :
  (0 < n)%Z -> exists c t, Z_toString n = c :: t /\ isZeroDigit c = false.
Proof.
  intros H. destruct n as [|p|p]; try lia. cbn [Z_toString].
  pose proof (to_uint_nzhead p) as E.
  apply (f_equal uint_codes) in E. rewrite uint_codes_nzhead in E.
  destruct (uint_codes (Pos.to_uint p)) as [|c t] eqn:U.
  - exfalso. pose proof (DecimalPos.Unsigned.to_uint_nonnil p) as NN.
    destruct (Pos.to_uint p); try discriminate U. now apply NN.
  - exists c, t. split; [reflexivity|].
    now apply (dropWhile_head_false isZeroDigit (c :: t) (t := t)).
Qed.

Lemma takeWhile_dropWhile (p : N -> bool) (s : jsstring) :
  s = takeWhile p s ++ dropWhile p s.
Proof.
  induction s as [|c s IH]; [reflexivity|]. cbn [takeWhile dropWhile].
  destruct (p c); [|reflexivity]. cbn [app]. now rewrite <- IH.
Qed.

Lemma takeWhile_zeros (s : jsstring) :
  takeWhile isZeroDigit s = repeat 48%N (List.length (takeWhile isZeroDigit s)).
Proof.
  apply all_zero_repeat. induction s as [|c s IH]; [reflexivity|].
  cbn [takeWhile]. destruct (isZeroDigit c) eqn:E; [|reflexivity].
  cbn [forallb]. now rewrite E.
Qed.

Lemma repeat_snoc (c : N) (k : nat) : repeat c k ++ [c] = repeat c (S k).
Proof. induction k as [|k IH]; [reflexivity|]. cbn [repeat app]. now rewrite IH. Qed.

(** A run of digits is the canonical string of its value, padded with
    zeros to its length. *)
Lemma padStart0_digits (f : jsstring) :
  forallb isDigit f = true -> f <> [] ->
  padStart0 (List.length f) (Z_toString (digits_value f)) = f.
Proof.
  intros H N. rewrite (Z_toString_digits f H). unfold padStart0.
  pose proof (takeWhile_dropWhile isZeroDigit f) as E.
  pose proof (takeWhile_zeros f) as Z.
  set (z := takeWhile isZeroDigit f) in *.
  set (d := dropWhile isZeroDigit f) in *.
  assert (L : List.length f = (List.length z + List.length d)%nat).
  { rewrite E at 1. now rewrite length_app. }
  clearbody z d. destruct d as [|c d'].
  - rewrite app_nil_r in E. subst z.
    change (lit "0") with [48%N]. cbn [List.length]. rewrite repeat_snoc.
    etransitivity; [|symmetry; exact Z]. f_equal.
    destruct f; [congruence|]. cbn [List.length]. lia.
  - rewrite L.
    replace (List.length z + List.length (c :: d') - List.length (c :: d'))%nat
      with (List.length z) by lia.
    rewrite <- Z. symmetry. exact E.
Qed.

Lemma digits_firstn_skipn (m : jsstring) (j : nat) :
  forallb isDigit m = true ->
  forallb isDigit (firstn j m) = true /\ forallb isDigit (skipn j m) = true.
Proof.
  intros H. rewrite <- (firstn_skipn j m), forallb_app in H.
  now apply andb_true_iff in H.
Qed.

Lemma Z_toString_long (n : Z) :
  (10000000 <= n)%Z -> (8 <= List.length (Z_toString n))%nat.
Proof.
  intros H. destruct (Z_toString_spec (z := n) ltac:(lia)) as (D & _ & V).
  destruct (le_lt_dec 8 (List.length (Z_toString n))) as [|C]; [assumption|].
  exfalso. pose proof (digits_value_bounds _ D) as B. rewrite V in B.
  assert ((10 ^ Z.of_nat (List.length (Z_toString n)) <= 10 ^ 7)%Z)
    by (apply Z.pow_le_mono_r; lia).
  change (10 ^ 7)%Z with 10000000%Z in H0. lia.
Qed.

(** The digits that [toFixed(7)] prints for [n] units of [10^-7]: the
    whole part and the seven decimals are those of [stroopsToAmount]. *)
Lemma fixed7_parts (n : Z) :
  (1 <= n)%Z ->
  let m := padStart0 8 (Z_toString n) in
  let k := List.length m in
  firstn (k - 7) m = Z_toString (n / 10000000)
  /\ skipn (k - 7) m = padStart0 7 (Z_toString (n mod 10000000)).
Proof.
  intros Hn m k.
  destruct (Z_toString_spec (z := n) ltac:(lia)) as (D & NE & V).
  destruct (Z_lt_le_dec n 10000000) as [Small|Big].
  - assert (L : (List.length (Z_toString n) <= 7)%nat)
      by (apply Z_toString_length; simpl; lia).
    rewrite Z.div_small, Z.mod_small by lia.
    unfold k, m, padStart0. rewrite length_app, repeat_length.
    replace (8 - List.length (Z_toString n) + List.length (Z_toString n) - 7)%nat
      with 1%nat by lia.
    replace (8 - List.length (Z_toString n))%nat
      with (S (7 - List.length (Z_toString n))) by lia.
    cbn [repeat app firstn skipn]. split; reflexivity.
  - pose proof (Z_toString_long Big) as L.
    assert (Em : m = Z_toString n).
    { unfold m, padStart0.
      replace (8 - List.length (Z_toString n))%nat with 0%nat by lia.
      reflexivity. }
    unfold k. rewrite Em. set (s := Z_toString n) in *.
    set (j := (List.length s - 7)%nat).
    destruct (digits_firstn_skipn s j D) as (Dw & Df).
    assert (Lf : List.length (skipn j s) = 7%nat)
      by (rewrite length_skipn; unfold j; lia).
    assert (Lw : List.length (firstn j s) = j)
      by (rewrite length_firstn; unfold j; lia).
    pose proof (digits_value_app (firstn j s) (skipn j s)) as VA.
    rewrite firstn_skipn, V, Lf in VA. change (10 ^ Z.of_nat 7)%Z with 10000000%Z in VA.
    pose proof (digits_value_bounds _ Df) as Bf. rewrite Lf in Bf.
    change (10 ^ Z.of_nat 7)%Z with 10000000%Z in Bf.
    pose proof (digits_value_bounds _ Dw) as Bw.
    assert (Qw : (n / 10000000 = digits_value (firstn j s))%Z).
    { symmetry. apply Z.div_unique with (digits_value (skipn j s)); lia. }
    assert (Qf : (n mod 10000000 = digits_value (skipn j s))%Z).
    { symmetry. apply Z.mod_unique with (digits_value (firstn j s)); lia. }
    rewrite Qw, Qf. split.
    + destruct (Z_toString_head (n := n) ltac:(lia)) as (c & t & Es & Zc).
      fold s in Es. assert (Hj : (1 <= j)%nat) by (unfold j; lia).
      destruct j as [|j']; [lia|].
      revert Dw. rewrite Es. cbn [firstn]. intros Dw.
      symmetry. now apply Z_toString_canonical.
    + rewrite <- Lf at 1. symmetry. apply padStart0_digits; [assumption|].
      intros C. rewrite C in Lf. discriminate Lf.
Qed.

(** ** [/\.?0+$/] on a printed number *)

Lemma matches_point_zeros (s : jsstring) :
  matches re_point_zeros s = true <->
  (s <> [] /\ forallb isZeroDigit s = true)
  \/ exists z, s = 46%N :: z /\ z <> [] /\ forallb isZeroDigit z = true.
Proof.
  unfold re_point_zeros. rewrite matches_Cat. split.
  - intros (s1 & s2 & -> & H1 & H2). rewrite matches_Plus_Chr in H2.
    fold isZeroDigit in H2. rewrite matches_Opt in H1.
    apply orb_true_iff in H1. destruct H1 as [H1 | H1].
    + apply matches_Chr in H1. destruct H1 as (c & -> & Hc).
      unfold oneOf in Hc. change (lit ".") with [46%N] in Hc.
      cbn [existsb] in Hc. rewrite orb_false_r in Hc. apply N.eqb_eq in Hc.
      subst c. right. exists s2. destruct s2; [discriminate|].
      repeat split; auto. discriminate.
    + destruct s1; [|discriminate]. left. destruct s2; [discriminate|].
      split; [discriminate|assumption].
  - intros [(N & Z) | (z & -> & N & Z)].
    + exists [], s. split; [reflexivity|]. split; [reflexivity|].
      rewrite matches_Plus_Chr. fold isZeroDigit. destruct s; [congruence|assumption].
    + exists [46%N], z. split; [reflexivity|]. split; [reflexivity|].
      rewrite matches_Plus_Chr. fold isZeroDigit. destruct z; [congruence|assumption].
Qed.

Lemma point_not_zero : isZeroDigit 46%N = false.
Proof. reflexivity. Qed.

Lemma digit_not_point (c : N) : isDigit c = true -> c <> 46%N.
Proof. intros H. apply isDigit_bounds in H. lia. Qed.

Lemma strip_point_zeros_digits (f : jsstring) :
  forallb isDigit f = true ->
  replace_at_end re_point_zeros f = replace_at_end re_zeros f.
Proof.
  induction f as [|c f IH]; intros H; [reflexivity|].
  cbn [forallb] in H. apply andb_true_iff in H. destruct H as [Hc Hf].
  cbn [replace_at_end]. rewrite (IH Hf).
  assert (E : matches re_point_zeros (c :: f) = matches re_zeros (c :: f)).
  { apply eq_true_iff_eq. rewrite matches_point_zeros. unfold re_zeros.
    rewrite matches_Plus_Chr. fold isZeroDigit. split.
    - intros [(_ & Z) | (z & E & _)]; [assumption|].
      injection E as -> _. now apply digit_not_point in Hc.
    - intros Z. left. split; [discriminate|assumption]. }
  now rewrite E.
Qed.

Lemma strip_point_zeros (w f : jsstring) :
  forallb isDigit w = true -> forallb isDigit f = true -> f <> [] ->
  replace_at_end re_point_zeros (w ++ lit "." ++ f)
  = if forallb isZeroDigit f then w
    else w ++ lit "." ++ replace_at_end re_zeros f.
Proof.
  intros Hw Hf Nf. change (lit ".") with [46%N]. cbn [app].
  induction w as [|c w IH].
  - cbn [app replace_at_end].
    assert (E : matches re_point_zeros (46%N :: f) = forallb isZeroDigit f).
    { apply eq_true_iff_eq. rewrite matches_point_zeros. split.
      - intros [(_ & Z) | (z & E & _ & Z)].
        + cbn [forallb] in Z. rewrite point_not_zero in Z. discriminate Z.
        + now injection E as <-.
      - intros Z. right. exists f. auto. }
    rewrite E. destruct (forallb isZeroDigit f); [reflexivity|].
    now rewrite strip_point_zeros_digits.
  - cbn [forallb] in Hw. apply andb_true_iff in Hw. destruct Hw as [Hc Hw].
    cbn [app replace_at_end].
    assert (E : matches re_point_zeros (c :: w ++ 46%N :: f) = false).
    { apply not_true_is_false. rewrite matches_point_zeros.
      intros [(_ & Z) | (z & E & _)].
      - cbn [forallb] in Z. rewrite forallb_app in Z. cbn [forallb] in Z.
        rewrite point_not_zero in Z.
        rewrite andb_false_l, andb_false_r, andb_false_r in Z. discriminate Z.
      - injection E as -> _. now apply digit_not_point in Hc. }
    rewrite E, (IH Hw). destruct (forallb isZeroDigit f); reflexivity.
Qed.

Lemma zeros_value (f : jsstring) :
  forallb isDigit f = true ->
  (forallb isZeroDigit f = true <-> digits_value f = 0%Z).
Proof.
  intros D. split.
  - intros Z. rewrite (all_zero_repeat _ Z). apply digits_value_zeros.
  - intros V. pose proof (Z_toString_digits f D) as E. rewrite V in E.
    change (Z_toString 0) with [48%N] in E.
    destruct (dropWhile isZeroDigit f) as [|c t] eqn:Dr.
    + pose proof (takeWhile_dropWhile isZeroDigit f) as S.
      rewrite Dr, app_nil_r in S. rewrite S, takeWhile_zeros.
      clear. induction (List.length (takeWhile isZeroDigit f)); [reflexivity|].
      cbn [repeat forallb]. now rewrite IHn.
    + apply dropWhile_head_false in Dr. injection E as <- _. discriminate Dr.
Qed.

(** ** What [toFixed(7)] reads off a parsed amount *)

Lemma units_of_amount (n : Z) (r : Q) :
  (1 <= n < 2 ^ 51)%Z ->
  binary64 (inject_Z n / ten7) = Fin r ->
  0 < r /\ Qle_bool ten21 (Qabs r) = false
  /\ Qfloor (Qabs r * inject_Z (10 ^ Z.of_nat 7) + (1 # 2)) = n.
Proof.
  intros [L U] E.
  assert (L' : 1 <= inject_Z n) by (change 1 with (inject_Z 1); now rewrite <- Zle_Qle).
  assert (U' : inject_Z n <= 2251799813685247).
  { change 2251799813685247 with (inject_Z (2 ^ 51 - 1)).
    rewrite <- Zle_Qle. lia. }
  set (q := inject_Z n / ten7) in *.
  assert (Eq : q * 10000000 == inject_Z n) by (unfold q, ten7; field).
  destruct (@binary64_close q) as (r1 & E1 & L1 & U1); [lra | lra |].
  rewrite E1 in E. injection E as <-.
  assert (P : 0 < r1) by lra.
  assert (A : Qabs r1 == r1) by (apply Qabs_pos; lra).
  split; [assumption|]. split.
  - destruct (Qle_bool ten21 (Qabs r1)) eqn:C; [|reflexivity].
    apply Qle_bool_iff in C. rewrite A in C. unfold ten21 in C.
    change (inject_Z (10 ^ 21)) with 1000000000000000000000 in C. lra.
  - change (inject_Z (10 ^ Z.of_nat 7)) with 10000000.
    apply Qfloor_unique; rewrite A; lra.
Qed.

Lemma Qsign_pos (r : Q) : 0 < r -> Qsign r = false.
Proof.
  intros H. unfold Qsign. destruct (Qcompare r 0) eqn:C; try reflexivity.
  apply Qlt_alt in C. lra.
Qed.

Section Format.
Context {F : NumberFormat}.

(** For a valid amount below [2^51] stroops, [formatAmount] prints what
    [stroopsToAmount] prints for its stroops. *)
Lemma formatAmount_stroops (a : jsstring) :
  validateAmount a = None ->
  exists d1 d2,
    shaped a d1 d2 /\ (List.length d2 <= 7)%nat
    /\ (0 < stroops_of d1 d2)%Z
    /\ ((stroops_of d1 d2 < 2 ^ 51)%Z ->
        stroopsToAmount (stroops_of d1 d2) 7 = Ok (formatAmount a)).
Proof.
  intros V. destruct (validateAmount_accepts a V)
    as (T & (d1 & d2 & Hs & Hl) & Fi & P).
  destruct (amountToStroops_exact a V) as (e1 & e2 & Hs' & _ & Pos & _).
  destruct (@shaped_unique _ _ _ _ _ Hs Hs') as [<- <-]. clear Hs'.
  exists d1, d2. split; [assumption|]. split; [assumption|].
  split; [assumption|]. intros B.
  set (n := stroops_of d1 d2) in *.
  assert (EN : Number a = binary64 (inject_Z n / ten7)).
  { rewrite (shaped_Number Hs T). apply binary64_proper.
    now apply shaped_value_stroops. }
  unfold formatAmount, isValidAmount. rewrite V. cbn [negb]. cbv zeta.
  rewrite T, EN.
  destruct (binary64 (inject_Z n / ten7)) as [| |r] eqn:Er;
    [rewrite EN in Fi; discriminate Fi | rewrite EN in Fi; discriminate Fi |].
  destruct (@units_of_amount n r ltac:(lia) Er) as (Pr & Big & Fl).
  unfold toFixed, MAX_DECIMAL_PLACES. rewrite Big, Fl, (Qsign_pos Pr).
  cbn [app].
  destruct (@fixed7_parts n ltac:(lia)) as (Ew & Ef). cbv zeta in Ew, Ef.
  rewrite Ew, Ef.
  pose proof (Z.div_pos n 10000000 ltac:(lia) ltac:(lia)) as WB.
  pose proof (Z.mod_pos_bound n 10000000 ltac:(lia)) as RB.
  destruct (Z_toString_spec WB) as (Wd & Wn & Wv).
  destruct (Z_toString_spec (z := n mod 10000000) ltac:(lia)) as (Rd & Rn & Rv).
  assert (RL : (List.length (Z_toString (n mod 10000000)) <= 7)%nat).
  { destruct (Z.eq_dec (n mod 10000000) 0) as [->|NZ]; [simpl; lia|].
    apply Z_toString_length; simpl; lia. }
  destruct (@padStart0_spec 7 _ Rd RL) as (Pd & Pl & Pv).
  assert (Nf : padStart0 7 (Z_toString (n mod 10000000)) <> []).
  { intros C. rewrite C in Pl. discriminate Pl. }
  rewrite (@strip_point_zeros _ _ Wd Pd Nf).
  unfold stroopsToAmount.
  change (pow10 7) with (binary64 (inject_Z 10000000)).
  replace (binary64 (inject_Z 10000000)) with (Fin (inject_Z 10000000))
    by (vm_compute; reflexivity).
  rewrite BigInt_integer. cbn [bind].
  rewrite Z.quot_div_nonneg, Z.rem_mod_nonneg by lia.
  pose proof (@zeros_value _ Pd) as ZV. rewrite Pv, Rv in ZV.
  destruct (Z.eqb_spec (n mod 10000000) 0) as [E0|NE].
  - destruct ZV as [_ ZV]. now rewrite (ZV E0).
  - destruct (forallb isZeroDigit (padStart0 7 (Z_toString (n mod 10000000))))
      eqn:Z; [|reflexivity].
    exfalso. apply NE. now apply ZV.
Qed.

End Format.

Lemma stroopsToAmount_shaped (n : Z) :
  (1 <= n)%Z ->
  exists s d1 d2, stroopsToAmount n 7 = Ok s /\ shaped s d1 d2
                  /\ (List.length d2 <= 7)%nat /\ stroops_of d1 d2 = n.
Proof.
  intros Hn. unfold stroopsToAmount.
  change (pow10 7) with (binary64 (inject_Z 10000000)).
  replace (binary64 (inject_Z 10000000)) with (Fin (inject_Z 10000000))
    by (vm_compute; reflexivity).
  rewrite BigInt_integer. cbn [bind].
  rewrite Z.quot_div_nonneg, Z.rem_mod_nonneg by lia.
  pose proof (Z.div_mod n 10000000 ltac:(lia)) as DM.
  pose proof (Z.mod_pos_bound n 10000000 ltac:(lia)) as MB.
  assert (WB : (0 <= n / 10000000)%Z) by (apply Z.div_pos; lia).
  set (w := (n / 10000000)%Z) in *. set (r := (n mod 10000000)%Z) in *.
  destruct (Z_toString_spec WB) as (Wd & Wn & Wv).
  destruct (Z.eqb_spec r 0) as [E0|NE].
  - exists (Z_toString w), (Z_toString w), []. split; [reflexivity|].
    split; [unfold shaped; repeat split; auto|]. split; [simpl; lia|].
    unfold stroops_of. rewrite app_nil_r, Wv. cbn [List.length].
    change (10 ^ (7 - Z.of_nat 0))%Z with 10000000%Z. lia.
  - assert (RB : (0 <= r)%Z) by lia.
    destruct (Z_toString_spec RB) as (Rd & Rn & Rv).
    assert (RL : (List.length (Z_toString r) <= 7)%nat)
      by (apply Z_toString_length; simpl; lia).
    destruct (@padStart0_spec 7 _ Rd RL) as (Pd & Pl & Pv).
    destruct (strip_zeros_value _ Pd) as (Fd & Fl & Fv).
    set (f := replace_at_end re_zeros (padStart0 7 (Z_toString r))) in *.
    assert (Nf : f <> []).
    { intros C. rewrite C in Fv. rewrite Pv, Rv in Fv.
      unfold digits_value in Fv. simpl in Fv. lia. }
    rewrite Pl in Fl, Fv. rewrite Pv, Rv in Fv.
    exists (Z_toString w ++ lit "." ++ f), (Z_toString w), f.
    split; [reflexivity|].
    split; [unfold shaped; repeat split; auto|]. split; [assumption|].
    unfold stroops_of. rewrite digits_value_app, Wv.
    replace (7 - Z.of_nat (List.length f))%Z
      with (Z.of_nat (7 - List.length f)) by lia.
    rewrite Z.mul_add_distr_r, <- Fv, <- Z.mul_assoc, <- Z.pow_add_r by lia.
    replace (Z.of_nat (List.length f) + Z.of_nat (7 - List.length f))%Z
      with 7%Z by lia.
    change (10 ^ 7)%Z with 10000000%Z. lia.
Qed.

Lemma stroops_value (d1 d2 : jsstring) (q : Q) :
  (List.length d2 <= 7)%nat -> q == shaped_value d1 d2 ->
  inject_Z (stroops_of d1 d2) == q * ten7.
Proof.
  intros L E. rewrite E, (shaped_value_stroops d1 d2 L).
  unfold ten7. field.
Qed.

Lemma below_safe (n : Z) (q : Q) :
  inject_Z n == q * ten7 -> q < safe_amount -> (n < 2 ^ 51)%Z.
Proof.
  intros E B. rewrite Zlt_Qlt, E. unfold safe_amount in B.
  assert (T7 : 0 < ten7) by reflexivity.
  assert (B' : q * ten7 < inject_Z (2 ^ 51) / ten7 * ten7)
    by (apply Qmult_lt_compat_r; assumption).
  setoid_replace (inject_Z (2 ^ 51) / ten7 * ten7)
    with (inject_Z (2 ^ 51)) in B' by (field; lra).
  exact B'.
Qed.

(** What a valid amount below the bound comes to. *)
Lemma valid_amount_stroops (a : jsstring) :
  isValidAmount a = true ->
  match numeral_value a with
  | Some q => q < safe_amount
  | None => False
  end ->
  exists n q, (1 <= n < 2 ^ 51)%Z /\ numeral_value a = Some q
              /\ inject_Z n == q * ten7
              /\ amountToStroops a 7 = Ok n
              /\ forall F : NumberFormat,
                   stroopsToAmount n 7 = Ok (formatAmount a).
Proof.
  intros V B.
  assert (V' : validateAmount a = None).
  { unfold isValidAmount in V. destruct (validateAmount a); congruence. }
  destruct (amountToStroops_exact a V') as (d1 & d2 & Hs & Hl & Pn & En).
  destruct (shaped_numeral Hs) as (q & Eq & Hq).
  rewrite Eq in B.
  pose proof (@stroops_value d1 d2 q Hl Hq) as Qn.
  pose proof (@below_safe _ _ Qn B) as Bn.
  exists (stroops_of d1 d2), q. split; [lia|]. split; [assumption|].
  split; [assumption|]. split; [now apply En|].
  intros F. destruct (@formatAmount_stroops F a V')
    as (e1 & e2 & Hs' & _ & _ & Fm).
  destruct (@shaped_unique _ _ _ _ _ Hs Hs') as [<- <-]. now apply Fm.
Qed.

Lemma finite_below (n : Z) :
  (1 <= n < 2 ^ 51)%Z -> isFinite (binary64 (inject_Z n / ten7)) = true.
Proof.
  intros [L U].
  assert (L' : 1 <= inject_Z n) by (change 1 with (inject_Z 1); now rewrite <- Zle_Qle).
  assert (U' : inject_Z n <= 2251799813685247).
  { change 2251799813685247 with (inject_Z (2 ^ 51 - 1)).
    rewrite <- Zle_Qle. lia. }
  set (q := inject_Z n / ten7) in *.
  assert (Eq : q * 10000000 == inject_Z n) by (unfold q, ten7; field).
  destruct (@binary64_close q) as (r1 & E1 & L1 & U1); [lra | lra |].
  now rewrite E1.
Qed.

Lemma printed_stroops_valid (n : Z) (s : jsstring) :
  (1 <= n < 2 ^ 51)%Z -> stroopsToAmount n 7 = Ok s ->
  isValidAmount s = true
  /\ exists q, numeral_value s = Some q /\ inject_Z n == q * ten7.
Proof.
  intros Hn E. destruct (@stroopsToAmount_shaped n ltac:(lia))
    as (s' & d1 & d2 & E' & Sh & L & St).
  rewrite E in E'. injection E' as <-.
  destruct (shaped_numeral Sh) as (q & Eq & Hq).
  pose proof (@stroops_value d1 d2 q L Hq) as Qn. rewrite St in Qn.
  assert (Vq : shaped_value d1 d2 == inject_Z n / ten7).
  { rewrite (shaped_value_stroops d1 d2 L), St. reflexivity. }
  split.
  - unfold isValidAmount.
    rewrite (@shaped_accepted s d1 d2 Sh L); [reflexivity| |].
    + rewrite Vq. apply Qlt_shift_div_l; [reflexivity|]. rewrite Qmult_0_l.
      change 0 with (inject_Z 0). rewrite <- Zlt_Qlt. lia.
    + rewrite (binary64_proper Vq). now apply finite_below.
  - exists q. split; assumption.
Qed.

Lemma stroops_inj (n m : Z) (p q : Q) :
  inject_Z n == p * ten7 -> inject_Z m == q * ten7 -> p == q -> n = m.
Proof.
  intros En Em E. rewrite E in En. rewrite <- Em in En.
  apply inject_Z_injective. exact En.
Qed.

(** X3.  For a valid amount below 2^51 stroops, [formatAmount] prints
    what [stroopsToAmount] prints for the stroops of the amount:
    the two ways of displaying an amount agree. *)
Theorem X3_formatAmount_stroops (F : NumberFormat) (a : jsstring) :
  isValidAmount a = true ->
  match numeral_value a with
  | Some q => q < safe_amount
  | None => False
  end ->
  exists n, amountToStroops a 7 = Ok n
            /\ stroopsToAmount n 7 = Ok (formatAmount a).
Proof.
  intros V B. destruct (@valid_amount_stroops a V B) as (n & q & _ & _ & _ & E & Fm).
  exists n. split; [assumption|apply Fm].
Qed.

Lemma X3_formatAmount_stroops_witness :
  exists n, amountToStroops (lit "1.5000000") 7 = Ok n
            /\ stroopsToAmount n 7
               = Ok (@formatAmount plain_format (lit "1.5000000")).
Proof.
  apply (@X3_formatAmount_stroops plain_format (lit "1.5000000")).
  - vm_compute. reflexivity.
  - vm_compute. reflexivity.
Defined.

(** X4.  For a valid amount below 2^51 stroops, [formatAmount] returns
    a valid amount of the same value, formatting it again changes
    nothing, and every valid amount of the same value is formatted to
    the same string. *)
Theorem X4_formatAmount_canonical (F : NumberFormat) (a : jsstring) :
  isValidAmount a = true ->
  match numeral_value a with
  | Some q => q < safe_amount
  | None => False
  end ->
  same_value a (formatAmount a)
  /\ isValidAmount (formatAmount a) = true
  /\ formatAmount (formatAmount a) = formatAmount a
  /\ forall b, isValidAmount b = true -> same_value a b ->
               formatAmount b = formatAmount a.
Proof.
  intros V B.
  destruct (@valid_amount_stroops a V B) as (n & q & Hn & Eq & Qn & _ & Fm).
  specialize (Fm F).
  destruct (@printed_stroops_valid n _ Hn Fm) as (Vf & q' & Eq' & Qn').
  assert (T7 : 0 < ten7) by reflexivity.
  assert (QQ : q == q').
  { rewrite Qn in Qn'. apply Qmult_inj_r in Qn'; [assumption|lra]. }
  assert (Canon : forall b, isValidAmount b = true -> same_value a b ->
                            formatAmount b = formatAmount a).
  { intros b Vb Sb. unfold same_value in Sb. rewrite Eq in Sb.
    destruct (numeral_value b) as [qb|] eqn:Eb; [|contradiction].
    assert (Bb : match numeral_value b with
                 | Some q => q < safe_amount
                 | None => False
                 end).
    { rewrite Eb. rewrite Eq in B. now rewrite <- Sb. }
    destruct (@valid_amount_stroops b Vb Bb) as (m & qm & _ & Em & Qm & _ & Fb).
    specialize (Fb F). rewrite Eb in Em. injection Em as <-.
    assert (n = m) by (apply (@stroops_inj _ _ _ _ Qn Qm Sb)). subst m.
    congruence. }
  assert (Sf : same_value a (formatAmount a)).
  { unfold same_value. now rewrite Eq, Eq'. }
  split; [assumption|]. split; [assumption|].
  split; [|assumption]. now apply Canon.
Qed.

Lemma X4_formatAmount_canonical_witness :
  same_value (lit "007.50") (@formatAmount plain_format (lit "007.50"))
  /\ isValidAmount (@formatAmount plain_format (lit "007.50")) = true
  /\ @formatAmount plain_format (@formatAmount plain_format (lit "007.50"))
     = @formatAmount plain_format (lit "007.50")
  /\ forall b, isValidAmount b = true -> same_value (lit "007.50") b ->
               @formatAmount plain_format b
               = @formatAmount plain_format (lit "007.50").
Proof.
  apply (@X4_formatAmount_canonical plain_format (lit "007.50"));
    vm_compute; reflexivity.
Defined.

End AmountLists.


(** ** The transaction hook *)

Section TransactionHook.
Import StellarValidation Examples AmountValidation.
Import DistributionTransaction.

Section HookTotal.
Context {F : NumberFormat}.
Variable service : StellarService.
Variables sender token : jsstring.

Lemma executeTransaction_outcome (state : DistributionState) (w : World) :
  exists r w',
    executeTransaction service sender token state w = (Returned r, w')
    /\ isLoading w' = false
    /\ hookError w' = error r
    /\ ((success r = true /\ error r = None
         /\ exists c hash, sent w' = sent w ++ [c]
                           /\ service c = Returned hash
                           /\ transactionHash r = Some hash)
        \/ (success r = false /\ transactionHash r = None
            /\ error r <> None
            /\ (sent w' = sent w
                \/ exists c e, sent w' = sent w ++ [c]
                               /\ service c = Raised e))).
Proof.
  unfold executeTransaction, mbind, setIsLoading, setError, try_catch_finally,
    ret, throw, await.
  cbn [isLoading hookError sent].
  destruct (recipients state) as [|r0 rs] eqn:R.
  { eexists. eexists. split; [reflexivity|]. cbn.
    split; [reflexivity|]. split; [reflexivity|]. right.
    repeat split; try discriminate. now left. }
  destruct (type state) eqn:Ty.
  - destruct (totalAmount state) as [|c0 t0] eqn:To.
    { eexists. eexists. split; [reflexivity|]. cbn.
      split; [reflexivity|]. split; [reflexivity|]. right.
      repeat split; try discriminate. now left. }
    match goal with
    | |- context [service ?c] => destruct (service c) as [hash|e] eqn:S
    end.
    + eexists. eexists. split; [reflexivity|]. cbn.
      split; [reflexivity|]. split; [reflexivity|]. left.
      repeat split. eexists. eexists. split; [reflexivity|].
      split; [exact S|reflexivity].
    + eexists. eexists. split; [reflexivity|]. cbn.
      split; [reflexivity|]. split; [reflexivity|]. right.
      repeat split; try discriminate. right. eexists. eexists.
      split; [reflexivity|exact S].
  - destruct (existsb invalidAmount (r0 :: rs)) eqn:Ex.
    { eexists. eexists. split; [reflexivity|]. cbn.
      split; [reflexivity|]. split; [reflexivity|]. right.
      repeat split; try discriminate. now left. }
    match goal with
    | |- context [service ?c] => destruct (service c) as [hash|e] eqn:S
    end.
    + eexists. eexists. split; [reflexivity|]. cbn.
      split; [reflexivity|]. split; [reflexivity|]. left.
      repeat split. eexists. eexists. split; [reflexivity|].
      split; [exact S|reflexivity].
    + eexists. eexists. split; [reflexivity|]. cbn.
      split; [reflexivity|]. split; [reflexivity|]. right.
      repeat split; try discriminate. right. eexists. eexists.
      split; [reflexivity|exact S].
Qed.

End HookTotal.

(** X11.  [executeTransaction] never throws and always returns a
    result: loading is switched off, the error of the hook is that of
    the result, and either the result is a success carrying the hash
    that the service returned to the one request sent, or it is a
    failure with an error, after no request or after one request that
    the service refused. *)
Theorem X11_executeTransaction_outcome (F : NumberFormat)
    (service : StellarService) (sender token : jsstring)
    (state : DistributionState) (w : World) :
  exists r w',
    executeTransaction service sender token state w = (Returned r, w')
    /\ isLoading w' = false
    /\ hookError w' = error r
    /\ ((success r = true /\ error r = None
         /\ exists c hash, sent w' = sent w ++ [c]
                           /\ service c = Returned hash
                           /\ transactionHash r = Some hash)
        \/ (success r = false /\ transactionHash r = None
            /\ error r <> None
            /\ (sent w' = sent w
                \/ exists c e, sent w' = sent w ++ [c]
                               /\ service c = Raised e))).
Proof. apply executeTransaction_outcome. Qed.

Lemma digit_not_white (c : N) : isDigit c = true -> isWhiteSpace c = false.
Proof.
  intros D. apply isDigit_bounds in D. unfold isWhiteSpace.
  repeat match goal with
         | |- context [(?x <=? ?y)%N] => destruct (N.leb_spec x y); try lia
         | |- context [(?x =? ?y)%N] => destruct (N.eqb_spec x y); try lia
         end; reflexivity.
Qed.

Lemma shaped_parseFloat (a d1 d2 : jsstring) :
  shaped a d1 d2 -> parseFloat a = binary64 (shaped_value d1 d2).
Proof.
  intros S. unfold parseFloat.
  destruct (shaped_head S) as (c & t & Ea & Dc).
  assert (T : trimStart a = a).
  { rewrite Ea. unfold trimStart. apply dropWhile_head. now apply digit_not_white. }
  rewrite T, (shaped_scan S). cbn [literal_value].
  reflexivity.
Qed.

Lemma Number_toString_Z {F : NumberFormat} (k : Z) :
  (0 <= k < 10 ^ 21)%Z -> Number_toString (Fin (inject_Z k)) = Z_toString k.
Proof.
  intros [L U]. unfold Number_toString.
  assert (I : isInteger (inject_Z k) = true).
  { unfold isInteger. rewrite Qfloor_Z. apply Qeq_bool_iff. reflexivity. }
  assert (B : Qle_bool ten21 (Qabs (inject_Z k)) = false).
  { destruct (Qle_bool ten21 (Qabs (inject_Z k))) eqn:C; [|reflexivity].
    apply Qle_bool_iff in C. rewrite Qabs_pos in C
      by (change 0 with (inject_Z 0); rewrite <- Zle_Qle; lia).
    unfold ten21 in C. rewrite <- Zle_Qle in C. lia. }
  rewrite I, B. cbn [negb andb]. now rewrite Qfloor_Z.
Qed.

(** The product with [10^7] falls within a unit of the stroops. *)
Lemma scaled_near (n : Z) :
  (1 <= n < 2 ^ 51)%Z ->
  exists r, mul (binary64 (inject_Z n / ten7)) (Fin 10000000) = Fin r
            /\ inject_Z n - 1 < r /\ r < inject_Z n + 1.
Proof.
  intros [L U].
  assert (L' : 1 <= inject_Z n) by (change 1 with (inject_Z 1); now rewrite <- Zle_Qle).
  assert (U' : inject_Z n <= 2251799813685247).
  { change 2251799813685247 with (inject_Z (2 ^ 51 - 1)).
    rewrite <- Zle_Qle. lia. }
  set (q := inject_Z n / ten7).
  assert (Eq : q * 10000000 == inject_Z n) by (unfold q, ten7; field).
  destruct (@binary64_close q) as (r1 & E1 & L1 & U1); [lra | lra |].
  rewrite E1.
  change (mul (Fin r1) (Fin 10000000)) with (binary64 (r1 * 10000000)).
  destruct (@binary64_close (r1 * 10000000)) as (r2 & E2 & L2 & U2);
    [lra | lra |].
  exists r2. split; [assumption|]. split; lra.
Qed.

Lemma floor_near (n : Z) (r : Q) :
  inject_Z n - 1 < r -> r < inject_Z n + 1 ->
  Qfloor r = n \/ Qfloor r = (n - 1)%Z.
Proof.
  intros L U.
  assert (E : inject_Z (n - 1) == inject_Z n - 1).
  { unfold Z.sub. rewrite inject_Z_plus, inject_Z_opp. reflexivity. }
  destruct (Qlt_le_dec r (inject_Z n)) as [Lt|Ge].
  - right. apply Qfloor_unique; rewrite E; lra.
  - left. apply Qfloor_unique; lra.
Qed.

Lemma hook_stroops (F : NumberFormat) (a : jsstring) :
  isValidAmount a = true ->
  match numeral_value a with
  | Some q => q < safe_amount
  | None => False
  end ->
  exists n, amountToStroops a 7 = Ok n
            /\ (toStroopsString (parseFloat a) = Z_toString n
                \/ toStroopsString (parseFloat a) = Z_toString (n - 1)).
Proof.
  intros V B.
  assert (V' : validateAmount a = None).
  { unfold isValidAmount in V. destruct (validateAmount a); congruence. }
  destruct (amountToStroops_exact a V') as (d1 & d2 & Hs & Hl & Pn & En).
  destruct (shaped_numeral Hs) as (q & Eq & Hq).
  rewrite Eq in B.
  pose proof (@stroops_value d1 d2 q Hl Hq) as Qn.
  pose proof (@below_safe _ _ Qn B) as Bn.
  set (n := stroops_of d1 d2) in *.
  exists n. split; [now apply En|].
  rewrite (shaped_parseFloat Hs).
  rewrite (binary64_proper (shaped_value_stroops d1 d2 Hl)). fold n.
  unfold toStroopsString.
  destruct (@scaled_near n ltac:(lia)) as (r & E & L & U).
  rewrite E. cbn [floor].
  assert (P51 : (2 ^ 51 < 10 ^ 21)%Z) by reflexivity.
  destruct (@floor_near n r L U) as [-> | ->]; [left|right];
    apply Number_toString_Z; lia.
Qed.

(** X12.  For a valid amount below 2^51 stroops, the stroops that the
    hook sends, [Math.floor(parseFloat(a) * 10000000)], are those of
    [amountToStroops] or one less; one less does happen: for "0.57" the
    hook sends 5699999 where [amountToStroops] gives 5700000. *)
Theorem X12_hook_stroops (F : NumberFormat) :
  (forall a,
     isValidAmount a = true ->
     match numeral_value a with
     | Some q => q < safe_amount
     | None => False
     end ->
     exists n, amountToStroops a 7 = Ok n
               /\ (toStroopsString (parseFloat a) = Z_toString n
                   \/ toStroopsString (parseFloat a) = Z_toString (n - 1)))
  /\ (isValidAmount (lit "0.57") = true
      /\ amountToStroops (lit "0.57") 7 = Ok 5700000%Z
      /\ toStroopsString (parseFloat (lit "0.57")) = lit "5699999").
Proof.
  split; [apply hook_stroops|].
  split; [vm_compute; reflexivity|]. split; vm_compute; reflexivity.
Qed.

Lemma X12_hook_stroops_witness :
  exists n, amountToStroops (lit "2.5") 7 = Ok n
            /\ (@toStroopsString plain_format (parseFloat (lit "2.5"))
                = Z_toString n
                \/ @toStroopsString plain_format (parseFloat (lit "2.5"))
                   = Z_toString (n - 1)).
Proof.
  apply (proj1 (X12_hook_stroops plain_format) (lit "2.5")).
  - vm_compute. reflexivity.
  - vm_compute. reflexivity.
Defined.

Lemma add_NaN_l {A : Arith} (x : number) : add NaN x = NaN.
Proof. reflexivity. Qed.

Lemma add_NaN_r {A : Arith} (x : number) : add x NaN = NaN.
Proof. destruct x; reflexivity. Qed.

Lemma sum_NaN (l : list Recipient) :
  fold_left (fun sum recipient =>
               add sum (parseFloat (amount_or_zero recipient))) l NaN = NaN.
Proof. induction l as [|r l IH]; [reflexivity|]. cbn [fold_left]. exact IH. Qed.

Lemma sum_with_NaN (l : list Recipient) (s : number) :
  existsb (fun r => isNaN (parseFloat (amount_or_zero r))) l = true ->
  fold_left (fun sum recipient =>
               add sum (parseFloat (amount_or_zero recipient))) l s = NaN.
Proof.
  revert s. induction l as [|r l IH]; intros s H; [discriminate|].
  cbn [existsb] in H. cbn [fold_left].
  destruct (parseFloat (amount_or_zero r)) eqn:E.
  - rewrite add_NaN_r. apply sum_NaN.
  - apply IH. exact H.
  - apply IH. exact H.
Qed.

(** X13.  In a weighted distribution, one recipient whose amount does
    not parse makes the total of the summary the text "NaN", while the
    recipient is still counted. *)
Theorem X13_prepareSummary_NaN (F : NumberFormat) (token : jsstring)
    (state : DistributionState) :
  type state = weighted ->
  existsb (fun r => isNaN (parseFloat (amount_or_zero r))) (recipients state)
  = true ->
  Summary.totalAmount (prepareSummary token state) = lit "NaN"
  /\ Summary.recipientCount (prepareSummary token state)
     = List.length (recipients state).
Proof.
  intros T H. unfold prepareSummary. cbn [Summary.totalAmount Summary.recipientCount].
  rewrite T, (sum_with_NaN _ _ H). split; reflexivity.
Qed.

Lemma X13_prepareSummary_NaN_witness :
  Summary.totalAmount (@prepareSummary plain_format (lit "native") nan_state)
  = lit "NaN"
  /\ Summary.recipientCount
       (@prepareSummary plain_format (lit "native") nan_state) = 1%nat.
Proof.
  apply (@X13_prepareSummary_NaN plain_format (lit "native") nan_state).
  - reflexivity.
  - vm_compute. reflexivity.
Defined.

End TransactionHook.


(** ** What the progress bar shows *)

Section ProgressBar.
Import Examples StreamProgressBar.

(** X14.  When the inputs of the progress bar are not valid, the three
    segments get the width "0%" and the first footer reads
    "0.0% withdrawn", but the second footer divides zero by zero and
    reads "NaN% vested". *)
Theorem X14_invalid_inputs_render (A : Arith) (F : NumberFormat)
    (p : StreamProgressBarProps) (now : number) :
  validInputs p = false ->
  let st := stats p now in
  width (withdrawnPercent st) = lit "0%"
  /\ width (vestedPercent st) = lit "0%"
  /\ width (remainingPercent st) = lit "0%"
  /\ withdrawnText st = lit "0.0% withdrawn"
  /\ vestedText st = lit "NaN% vested".
Proof.
  intros V. unfold stats. unfold validInputs in V. rewrite V. cbn [negb].
  cbv zeta. repeat split; vm_compute; reflexivity.
Qed.

Lemma X14_invalid_inputs_render_witness :
  @width plain_format
    (withdrawnPercent (@stats IEEE754 unloaded_props (Fin 5))) = lit "0%"
  /\ @width plain_format
       (vestedPercent (@stats IEEE754 unloaded_props (Fin 5))) = lit "0%"
  /\ @width plain_format
       (remainingPercent (@stats IEEE754 unloaded_props (Fin 5))) = lit "0%"
  /\ @withdrawnText plain_format (@stats IEEE754 unloaded_props (Fin 5))
     = lit "0.0% withdrawn"
  /\ @vestedText IEEE754 plain_format (@stats IEEE754 unloaded_props (Fin 5))
     = lit "NaN% vested".
Proof.
  apply (@X14_invalid_inputs_render IEEE754 plain_format unloaded_props (Fin 5)).
  vm_compute. reflexivity.
Defined.

Lemma binary64_one : binary64 1 = Fin 1.
Proof. vm_compute. reflexivity. Qed.

Lemma binary64_zero : binary64 0 = Fin 0.
Proof. reflexivity. Qed.

Lemma binary64_hundred : binary64 100 = Fin 100.
Proof. vm_compute. reflexivity. Qed.

Lemma share_range (c t : Q) :
  0 <= c -> c <= t -> 0 < t ->
  exists v, mul (div (Fin c) (Fin t)) hundred = Fin v /\ 0 <= v <= 100.
Proof.
  intros C0 Ct Pt. cbn [div]. rewrite Qzero_false by assumption.
  change (@rnd IEEE754) with binary64.
  assert (Q0 : 0 <= c / t) by (apply Qle_shift_div_l; lra).
  assert (Q1 : c / t <= 1) by (apply Qle_shift_div_r; lra).
  pose proof (binary64_mono Q0) as L. pose proof (binary64_mono Q1) as U.
  rewrite binary64_zero in L. rewrite binary64_one in U.
  destruct (between_Fin L U) as (x & -> & Hx).
  unfold hundred. cbn [mul]. change (@rnd IEEE754) with binary64.
  assert (X0 : 0 <= x * 100) by nra.
  assert (X1 : x * 100 <= 100) by nra.
  pose proof (binary64_mono X0) as L'. pose proof (binary64_mono X1) as U'.
  rewrite binary64_zero in L'. rewrite binary64_hundred in U'.
  destruct (between_Fin L' U') as (v & -> & Hv). now exists v.
Qed.

(** X15.  When the inputs are valid, the sizes of the breakdown are
    finite and ordered, 0 <= withdrawn <= vested <= total, the sizes of
    the green and of the grey segment are not negative, and the share
    that the second footer prints lies between 0 and 100. *)
Theorem X15_sizes_ordered (p : StreamProgressBarProps) (now : number) :
  validInputs p = true ->
  let st := stats p now in
  exists t k c v,
    total st = Fin t /\ withdrawnSize st = Fin k /\ vestedSize st = Fin c
    /\ 0 <= k /\ k <= c /\ c <= t
    /\ num_le zero (vestedNotWithdrawnSize st)
    /\ num_le zero (remainingSize st)
    /\ vestedShare st = Fin v /\ 0 <= v <= 100.
Proof.
  intros V.
  destruct (stats_shape p now V)
    as (t & k & c & q & r & v & Et & Ek & Ec & En & Er & Eq & Es & Ev
        & Ep & (Hk & Hkc & Hct) & Hq & Hr & Hv).
  cbv zeta in *.
  assert (Pt : 0 < t).
  { assert (Et2 : total (stats p now) = parseFloat (totalAmount p)).
    { unfold stats. unfold validInputs in V. now rewrite V. }
    unfold validInputs in V. apply isValid_inv in V.
    destruct V as (t' & w & s & e & d & Et' & _ & _ & _ & _ & Ht & _).
    rewrite Et, Et' in Et2. injection Et2 as ->. assumption. }
  destruct (@share_range c t ltac:(lra) Hct Pt) as (s & Es' & Hs).
  exists t, k, c, s. unfold vestedShare. rewrite En, Er, Et, Ek, Ec.
  repeat split; auto; try lra.
  - apply max_le_l; [reflexivity|]. apply (rnd_real (A := IEEE754)).
  - apply max_le_l; [reflexivity|]. apply (rnd_real (A := IEEE754)).
Qed.

Lemma X15_sizes_ordered_witness :
  exists t k c v,
    total (stats tenth_props (Fin 5)) = Fin t
    /\ withdrawnSize (stats tenth_props (Fin 5)) = Fin k
    /\ vestedSize (stats tenth_props (Fin 5)) = Fin c
    /\ 0 <= k /\ k <= c /\ c <= t
    /\ num_le zero (vestedNotWithdrawnSize (stats tenth_props (Fin 5)))
    /\ num_le zero (remainingSize (stats tenth_props (Fin 5)))
    /\ vestedShare (stats tenth_props (Fin 5)) = Fin v /\ 0 <= v <= 100.
Proof.
  apply (@X15_sizes_ordered tenth_props (Fin 5)). vm_compute. reflexivity.
Defined.

Lemma clamp_same (t w : Q) :
  0 < t ->
  exists c k, min (Fin t) (max (Fin w) zero) = Fin c
              /\ min (Fin t) (max zero (Fin w)) = Fin k
              /\ c == k /\ 0 <= k <= t.
Proof.
  intros Ht. unfold zero. cbn [max min isNaN leb].
  destruct (Qle_bool w 0) eqn:E1; destruct (Qle_bool 0 w) eqn:E2;
    try apply Qle_bool_iff in E1; try apply Qle_bool_iff in E2;
    try apply Qle_bool_false in E1; try apply Qle_bool_false in E2;
    cbn [min leb].
  - destruct (Qle_bool t 0) eqn:E3; destruct (Qle_bool t w) eqn:E4;
      try apply Qle_bool_iff in E3; try apply Qle_bool_iff in E4;
      try apply Qle_bool_false in E3; try apply Qle_bool_false in E4;
      try (exfalso; lra).
    exists 0, w. repeat split; auto; lra.
  - destruct (Qle_bool t 0) eqn:E3;
      try apply Qle_bool_iff in E3; try apply Qle_bool_false in E3;
      try (exfalso; lra).
    exists 0, 0. repeat split; auto; lra.
  - destruct (Qle_bool t w) eqn:E4;
      try apply Qle_bool_iff in E4; try apply Qle_bool_false in E4.
    + exists t, t. repeat split; auto; lra.
    + exists w, w. repeat split; auto; lra.
  - exfalso. lra.
Qed.

Lemma binary64_of_zero (x : Q) : x == 0 -> binary64 x = Fin 0.
Proof. intros E. now rewrite (binary64_proper E). Qed.

(** X16.  When the inputs are valid and the clock has not passed the
    start of the stream, nothing is vested beyond what was withdrawn:
    the vested size is the withdrawn size and the green segment is
    empty. *)
Theorem X16_before_start (p : StreamProgressBarProps) (now : number) :
  validInputs p = true ->
  gtb now (startTime p) = false ->
  let st := stats p now in
  num_eq (vestedSize st) (withdrawnSize st)
  /\ vestedNotWithdrawnSize st = zero
  /\ num_eq (vestedPercent st) zero.
Proof.
  intros V G. unfold stats. unfold validInputs in V. rewrite V.
  cbv zeta. cbn [negb vestedPercent vestedSize withdrawnSize
                 vestedNotWithdrawnSize].
  apply isValid_inv in V.
  destruct V as (t & w & s & e & d & Et & Ew & Es & Ee & Ed & Ht & Hd).
  rewrite Et, Ew, Es, Ed in *. unfold vestedAt. rewrite G.
  destruct (clamp_same w Ht) as (c & k & -> & -> & Eck & Hk).
  assert (Z1 : sub (Fin c) (Fin k) = Fin 0).
  { cbn [sub]. apply binary64_of_zero. rewrite Eck. ring. }
  rewrite Z1. change (max zero (Fin 0)) with (Fin 0).
  assert (Z2 : mul (div (Fin 0) (Fin t)) hundred = Fin 0).
  { cbn [div]. rewrite Qzero_false by assumption.
    change (@rnd IEEE754) with binary64.
    rewrite (@binary64_of_zero (0 / t)) by (field; lra).
    vm_compute. reflexivity. }
  rewrite Z2. change (max zero (Fin 0)) with (Fin 0).
  split; [exact Eck|]. split; [reflexivity|].
  destruct (@share_range k t ltac:(lra) ltac:(lra) Ht) as (q & Eq & Hq).
  rewrite Eq.
  assert (W : exists q', min hundred (max zero (Fin q)) = Fin q' /\ 0 <= q' <= 100).
  { unfold zero, hundred. cbn [max isNaN leb].
    destruct (Qle_bool 0 q); cbn [min leb].
    - destruct (Qle_bool 100 q); eexists; split; try reflexivity; lra.
    - destruct (Qle_bool 100 0); eexists; split; try reflexivity; lra. }
  destruct W as (q' & -> & Hq').
  destruct (@sub_hundred_range IEEE754 _ q' Hq') as (r & -> & Hr).
  cbn [min leb]. destruct (Qle_bool r 0) eqn:E.
  - apply Qle_bool_iff in E. unfold num_eq, zero. lra.
  - reflexivity.
Qed.

Lemma X16_before_start_witness :
  num_eq (vestedSize (stats tenth_props (Fin 0)))
         (withdrawnSize (stats tenth_props (Fin 0)))
  /\ vestedNotWithdrawnSize (stats tenth_props (Fin 0)) = zero
  /\ num_eq (vestedPercent (stats tenth_props (Fin 0))) zero.
Proof.
  apply (@X16_before_start tenth_props (Fin 0)); vm_compute; reflexivity.
Defined.

End ProgressBar.


(** ** Reading recipients from a CSV text *)

Section Csv.
Import StellarValidation AmountValidation.
Import DistributionTransaction (DistributionType, equal, weighted).
Import CsvProcessing.

(** *** Trimming and splitting *)

Lemma dropWhile_cases (p : N -> bool) (s : jsstring) :
  dropWhile p s = [] \/ exists c t, dropWhile p s = c :: t /\ p c = false.
Proof.
  induction s as [|x s IH]; [now left|]. cbn [dropWhile].
  destruct (p x) eqn:E; [exact IH|]. right. now exists x, s.
Qed.

Lemma dropWhile_suffix (p : N -> bool) (s : jsstring) :
  exists z, s = z ++ dropWhile p s.
Proof.
  induction s as [|x s (z & IH)]; [now exists []|]. cbn [dropWhile].
  destruct (p x); [|now exists []]. exists (x :: z). cbn [app]. now rewrite <- IH.
Qed.

Lemma trim_trim (s : jsstring) : trim (trim s) = trim s.
Proof.
  unfold trim, trimEnd, trimStart.
  set (a := dropWhile isWhiteSpace s).
  destruct (dropWhile_cases isWhiteSpace (rev a)) as [E | (c & t & E & Hc)].
  - rewrite E. reflexivity.
  - rewrite E. destruct (dropWhile_suffix isWhiteSpace (rev a)) as (z & Ez).
    rewrite E in Ez.
    assert (Ea : a = rev (c :: t) ++ rev z).
    { rewrite <- (rev_involutive a), Ez, rev_app_distr. reflexivity. }
    assert (H1 : dropWhile isWhiteSpace (rev (c :: t)) = rev (c :: t)).
    { destruct (rev (c :: t)) as [|h r] eqn:R.
      - reflexivity.
      - apply dropWhile_head.
        destruct (dropWhile_cases isWhiteSpace s) as [E0 | (c0 & t0 & E0 & H0)].
        + fold a in E0. rewrite E0 in Ea. destruct r; discriminate Ea.
        + fold a in E0. rewrite E0 in Ea. cbn [app] in Ea.
          injection Ea as -> _. exact H0. }
    rewrite H1, rev_involutive. now rewrite (dropWhile_head _ _ t Hc).
Qed.

Lemma split_nonempty (sep : N) (s : jsstring) : split sep s <> [].
Proof.
  destruct s as [|c t]; [discriminate|]. cbn [split].
  destruct (c =? sep)%N; [discriminate|]. destruct (split sep t); discriminate.
Qed.

Lemma split_single (sep : N) (s x : jsstring) : split sep s = [x] -> x = s.
Proof.
  revert x. induction s as [|c t IH]; intros x; cbn [split].
  - intros H. now injection H as <-.
  - destruct (c =? sep)%N.
    + intros H. injection H as _ H. now apply split_nonempty in H.
    + destruct (split sep t) as [|h r] eqn:E.
      * now apply split_nonempty in E.
      * intros H. injection H as <- ->. f_equal. now apply IH.
Qed.

(** *** One line *)

Lemma parseLine_parsed (line : jsstring) (ty : DistributionType) (n : nat)
    (now : Z) (r : Distribution.Recipient) :
  parseLine line ty n now = Parsed r -> well_formed ty r.
Proof.
  unfold parseLine. cbv zeta.
  destruct (map trim (split 44 line)) as [|address rest]; [discriminate|].
  destruct address as [|c t].
  { destruct rest; discriminate. }
  pose proof (validateStellarAddress_message (c :: t)) as Msg.
  destruct (validateStellarAddress (c :: t)) as [[|c1 e1]|] eqn:VA;
    [exfalso; now apply Msg | discriminate |].
  destruct ty.
  - intros H. injection H as <-. unfold well_formed. cbn. auto.
  - destruct rest as [|amount rest']; [discriminate|].
    destruct amount as [|c2 t2]; [discriminate|].
    pose proof (validateAmount_message (c2 :: t2)) as Msg2.
    destruct (validateAmount (c2 :: t2)) as [[|c3 e3]|] eqn:VM;
      [exfalso; now apply Msg2 | discriminate |].
    intros H. injection H as <-. unfold well_formed. cbn.
    repeat split; auto. now exists (c2 :: t2).
Qed.

Lemma parseLine_not_skipped (line : jsstring) (ty : DistributionType) (n : nat)
    (now : Z) :
  line <> [] -> trim line = line -> parseLine line ty n now <> Skipped.
Proof.
  intros NE T. unfold parseLine. cbv zeta.
  destruct (split 44 line) as [|x xs] eqn:S; [now apply split_nonempty in S|].
  cbn [map]. destruct (trim x) as [|c t] eqn:Tx.
  - destruct xs as [|y ys]; [|cbn [map]; discriminate].
    exfalso. apply split_single in S. subst x. congruence.
  - destruct (validateStellarAddress (c :: t)) as [[|c1 e1]|]; try discriminate;
      destruct ty; try discriminate;
      destruct (map trim xs) as [|[|c2 t2] rest']; try discriminate;
      destruct (validateAmount (c2 :: t2)) as [[|c3 e3]|]; discriminate.
Qed.

(** *** The loop over the lines *)

Lemma lines_of_trimmed (text : jsstring) :
  Forall trimmed_line (lines_of text).
Proof.
  unfold lines_of. apply Forall_forall. intros l Hl.
  apply filter_In in Hl. destruct Hl as (Hm & Nl).
  apply in_map_iff in Hm. destruct Hm as (x & <- & _).
  split; [destruct (trim x); [discriminate|discriminate]|apply trim_trim].
Qed.

Lemma process_fold (ty : DistributionType) (clock : nat -> Z)
    (ls : list jsstring) (k : nat)
    (acc : list Distribution.Recipient * list CSVError) :
  Forall trimmed_line ls ->
  let r := fold_left (process_line ty clock)
                     (combine (seq k (List.length ls)) ls) acc in
  (List.length (fst r) + List.length (snd r)
   = List.length (fst acc) + List.length (snd acc) + List.length ls)%nat
  /\ (Forall (well_formed ty) (fst acc) -> Forall (well_formed ty) (fst r))
  /\ (forallb line_error (snd acc) = true -> forallb line_error (snd r) = true).
Proof.
  revert k acc. induction ls as [|l ls IH]; intros k acc T; cbv zeta.
  - cbn. split; [lia|]. auto.
  - cbn [List.length seq combine fold_left].
    inversion T as [|? ? Tl Tls]; subst.
    specialize (IH (S k) (process_line ty clock acc (k, l)) Tls).
    cbv zeta in IH. destruct IH as (I1 & I2 & I3).
    destruct acc as [rs es]. unfold process_line in *. cbn [fst snd] in *.
    destruct (parseLine l ty (k + 1) (clock k)) as [r| |m] eqn:P.
    + cbn [fst snd] in *. rewrite length_app in I1. cbn [List.length] in I1.
      split; [lia|]. split; [|assumption].
      intros W. apply I2. apply Forall_app. split; [assumption|].
      constructor; [|constructor]. now apply parseLine_parsed in P.
    + exfalso. destruct Tl as [NE Tr].
      now apply (@parseLine_not_skipped l ty (k + 1) (clock k) NE Tr).
    + cbn [fst snd] in *. rewrite length_app in I1. cbn [List.length] in I1.
      split; [lia|]. split; [assumption|].
      intros W. apply I3. rewrite forallb_app, W. cbn [forallb line_error line].
      replace (k + 1)%nat with (S k) by lia. reflexivity.
Qed.

(** *** The map of the addresses *)

Lemma str_eqb_false (a b : jsstring) : str_eqb a b = false <-> a <> b.
Proof.
  rewrite <- str_eqb_eq. destruct (str_eqb a b); split; congruence.
Qed.

Lemma str_eqb_sym (a b : jsstring) : str_eqb a b = str_eqb b a.
Proof.
  apply eq_true_iff_eq. rewrite !str_eqb_eq. split; congruence.
Qed.

Lemma push_keys (m : list (jsstring * list nat)) (k : jsstring) (v : nat) :
  forall x, In x (map fst (push m k v)) <-> In x (map fst m) \/ x = k.
Proof.
  induction m as [|[k' vs] m IH]; intros x; cbn [push].
  - cbn. intuition congruence.
  - destruct (str_eqb k' k) eqn:E.
    + apply str_eqb_eq in E. subst k'. cbn. intuition congruence.
    + cbn [map fst In]. rewrite IH. tauto.
Qed.

Lemma push_NoDup (m : list (jsstring * list nat)) (k : jsstring) (v : nat) :
  NoDup (map fst m) -> NoDup (map fst (push m k v)).
Proof.
  induction m as [|[k' vs] m IH]; intros H; cbn [push].
  - cbn. constructor; [tauto|constructor].
  - destruct (str_eqb k' k) eqn:E; [exact H|].
    cbn [map fst] in *. inversion H as [|? ? Hn Hm]; subst.
    constructor; [|now apply IH].
    rewrite push_keys. intros [C | C]; [contradiction|].
    apply str_eqb_false in E. congruence.
Qed.

Lemma push_get (m : list (jsstring * list nat)) (k : jsstring) (v : nat)
    (x : jsstring) :
  get (push m k v) x = if str_eqb k x then get m x ++ [v] else get m x.
Proof.
  unfold get. induction m as [|[k' vs] m IH]; cbn [push find fst snd].
  - destruct (str_eqb k x) eqn:E; reflexivity.
  - destruct (str_eqb k' k) eqn:E.
    + apply str_eqb_eq in E. subst k'. cbn [find fst snd].
      destruct (str_eqb k x); reflexivity.
    + cbn [find fst snd]. destruct (str_eqb k' x) eqn:E'.
      * apply str_eqb_eq in E'. subst k'.
        assert (K : str_eqb k x = false).
        { apply str_eqb_false. apply str_eqb_false in E. congruence. }
        now rewrite K.
      * exact IH.
Qed.

Lemma get_entry (m : list (jsstring * list nat)) (k : jsstring) (vs : list nat) :
  NoDup (map fst m) -> In (k, vs) m -> get m k = vs.
Proof.
  unfold get. induction m as [|[k' vs'] m IH]; intros N H; [contradiction|].
  cbn [map fst] in N. inversion N as [|? ? Hn Hm]; subst.
  cbn [find fst]. destruct H as [H | H].
  - injection H as -> ->. now rewrite str_eqb_refl.
  - destruct (str_eqb k' k) eqn:E.
    + apply str_eqb_eq in E. subst k'. exfalso. apply Hn.
      apply in_map_iff. now exists (k, vs).
    + now apply IH.
Qed.

Lemma get_absent (m : list (jsstring * list nat)) (k : jsstring) :
  ~ In k (map fst m) -> get m k = [].
Proof.
  unfold get. induction m as [|[k' vs'] m IH]; intros H; [reflexivity|].
  cbn [find fst]. destruct (str_eqb k' k) eqn:E.
  - apply str_eqb_eq in E. subst k'. exfalso. apply H. now left.
  - apply IH. intros C. apply H. now right.
Qed.

Lemma addressMap_fold (rs : list Distribution.Recipient) (k : nat)
    (m : list (jsstring * list nat)) :
  NoDup (map fst m) ->
  let m' := fold_left note_address (combine (seq k (List.length rs)) rs) m in
  NoDup (map fst m')
  /\ (forall x, In x (map fst m') <->
                In x (map fst m) \/ In x (map Distribution.address rs))
  /\ (forall x, List.length (get m' x)
                = (List.length (get m x)
                   + count_occ str_dec (map Distribution.address rs) x)%nat).
Proof.
  revert k m. induction rs as [|r rs IH]; intros k m N; cbv zeta.
  - cbn. split; [assumption|]. split; [tauto|]. intros x. lia.
  - cbn [List.length seq combine fold_left map].
    specialize (IH (S k) (note_address m (k, r))
                   (push_NoDup _ _ _ N)).
    cbv zeta in IH. destruct IH as (I1 & I2 & I3).
    split; [assumption|]. split.
    + intros x. rewrite I2. unfold note_address.
      rewrite push_keys. cbn [In]. intuition congruence.
    + intros x. rewrite I3. unfold note_address. cbn [count_occ].
      rewrite push_get.
      destruct (str_dec (Distribution.address r) x) as [E|NE].
      * subst x. rewrite str_eqb_refl, length_app. cbn [List.length]. lia.
      * apply str_eqb_false in NE. rewrite NE. lia.
Qed.

Lemma addressMap_spec (rs : list Distribution.Recipient) :
  NoDup (map fst (addressMap rs))
  /\ (forall x, In x (map fst (addressMap rs))
                <-> In x (map Distribution.address rs))
  /\ (forall x vs, In (x, vs) (addressMap rs) ->
        List.length vs = count_occ str_dec (map Distribution.address rs) x).
Proof.
  pose proof (@addressMap_fold rs 0 [] (NoDup_nil _)) as H. cbv zeta in H.
  fold (addressMap rs) in H. destruct H as (H1 & H2 & H3).
  split; [assumption|]. split.
  - intros x. rewrite H2. cbn. tauto.
  - intros x vs Hx. rewrite <- (@get_entry _ _ _ H1 Hx), H3. reflexivity.
Qed.

Lemma duplicate_errors_spec (start : nat) (rs : list Distribution.Recipient) :
  let ds := flat_map (duplicate_error start) (addressMap rs) in
  (forall e, In e ds ->
     line e = 0%nat
     /\ exists a, value e = Some a
                  /\ (2 <= count_occ str_dec (map Distribution.address rs) a)%nat)
  /\ (forall a, (2 <= count_occ str_dec (map Distribution.address rs) a)%nat ->
        exists e, In e ds /\ value e = Some a)
  /\ (ds = [] <-> NoDup (map Distribution.address rs)).
Proof.
  cbv zeta. destruct (addressMap_spec rs) as (N & K & L).
  assert (A : forall e, In e (flat_map (duplicate_error start) (addressMap rs)) ->
     line e = 0%nat
     /\ exists a, value e = Some a
                  /\ (2 <= count_occ str_dec (map Distribution.address rs) a)%nat).
  { intros e He. apply in_flat_map in He. destruct He as ([a vs] & Hm & He).
    unfold duplicate_error in He.
    destruct (Nat.ltb_spec 1 (List.length vs)) as [G|G]; [|contradiction].
    destruct He as [<- | []]. cbn [line value]. split; [reflexivity|].
    exists a. split; [reflexivity|]. rewrite <- (L a vs Hm). lia. }
  assert (B : forall a,
     (2 <= count_occ str_dec (map Distribution.address rs) a)%nat ->
     exists e, In e (flat_map (duplicate_error start) (addressMap rs))
               /\ value e = Some a).
  { intros a Ha.
    assert (Ia : In a (map fst (addressMap rs))).
    { apply K. apply (count_occ_In str_dec). lia. }
    apply in_map_iff in Ia. destruct Ia as ([a' vs] & Ea & Hm).
    cbn [fst] in Ea. subst a'. pose proof (L a vs Hm) as Lv.
    eexists. split.
    - apply in_flat_map. exists (a, vs). split; [exact Hm|].
      unfold duplicate_error.
      destruct (Nat.ltb_spec 1 (List.length vs)) as [G|G]; [|lia].
      left. reflexivity.
    - reflexivity. }
  split; [exact A|]. split; [exact B|].
  rewrite (NoDup_count_occ str_dec). split.
  - intros E a. destruct (le_lt_dec 2 (count_occ str_dec
                            (map Distribution.address rs) a)) as [G|G]; [|lia].
    destruct (B a G) as (e & He & _). rewrite E in He. contradiction.
  - intros H.
    destruct (flat_map (duplicate_error start) (addressMap rs)) as [|e t] eqn:E;
      [reflexivity|].
    exfalso. destruct (A e (or_introl eq_refl)) as (_ & a & _ & G).
    specialize (H a). lia.
Qed.

Lemma combine_seq_firstn (A : Type) (n k : nat) (l : list A) :
  combine (seq k n) l
  = combine (seq k (List.length (firstn n l))) (firstn n l).
Proof.
  revert k l. induction n as [|n IH]; intros k l; [reflexivity|].
  destruct l as [|x l]; [reflexivity|].
  cbn [seq combine firstn List.length]. f_equal. apply IH.
Qed.

Lemma Forall_skipn (A : Type) (P : A -> Prop) (n : nat) (l : list A) :
  Forall P l -> Forall P (skipn n l).
Proof.
  intros H. rewrite <- (firstn_skipn n l) in H. now apply Forall_app in H.
Qed.

Lemma Forall_firstn (A : Type) (P : A -> Prop) (n : nat) (l : list A) :
  Forall P l -> Forall P (firstn n l).
Proof.
  intros H. rewrite <- (firstn_skipn n l) in H. now apply Forall_app in H.
Qed.

Lemma startLine_le (lines : list jsstring) (ty : DistributionType) :
  lines <> [] -> (startLine_of lines ty <= 1 <= List.length lines)%nat.
Proof.
  intros N. destruct lines as [|l ls]; [congruence|]. cbn [startLine_of List.length].
  destruct (detectHeader l ty); lia.
Qed.

(** What [processCSVText] returns when there is a line. *)
Lemma processCSVText_shape (clock : nat -> Z) (text : jsstring)
    (ty : DistributionType) :
  lines_of text <> [] ->
  let lines := lines_of text in
  let start := startLine_of lines ty in
  exists rs es,
    recipients (processCSVText clock text ty) = rs
    /\ errors (processCSVText clock text ty)
       = es ++ flat_map (duplicate_error start) (addressMap rs)
    /\ (List.length rs + List.length es
        = Nat.min (List.length lines - start) MAX_RECIPIENTS)%nat
    /\ Forall (well_formed ty) rs
    /\ forallb line_error es = true
    /\ (warnings (processCSVText clock text ty) = [] <->
        (List.length lines - start <= MAX_RECIPIENTS)%nat).
Proof.
  intros N. cbv zeta. unfold processCSVText. cbv zeta.
  pose proof (lines_of_trimmed text) as TL.
  pose proof (startLine_le ty N) as SL.
  destruct (lines_of text) as [|l0 ls] eqn:El; [congruence|].
  set (lines := l0 :: ls) in *.
  set (start := startLine_of lines ty) in *.
  set (stop := Nat.min (List.length lines) (start + MAX_RECIPIENTS)).
  rewrite (combine_seq_firstn (stop - start) start (skipn start lines)).
  set (body := firstn (stop - start) (skipn start lines)).
  assert (T : Forall trimmed_line body).
  { unfold body. apply Forall_firstn, Forall_skipn. exact TL. }
  pose proof (@process_fold ty clock body start ([], []) T) as H. cbv zeta in H.
  destruct (fold_left (process_line ty clock)
              (combine (seq start (List.length body)) body) ([], []))
    as [rs es].
  cbn [fst snd List.length] in H. destruct H as (H1 & H2 & H3).
  exists rs, es. cbn [recipients errors warnings].
  split; [reflexivity|]. split; [reflexivity|]. split; [|split; [|split]].
  - rewrite H1. unfold body. rewrite length_firstn, length_skipn.
    unfold stop. lia.
  - apply H2; constructor.
  - apply H3; reflexivity.
  - destruct (Nat.ltb_spec MAX_RECIPIENTS (List.length lines - start)) as [G|G].
    + split; [discriminate|lia].
    + split; [lia|reflexivity].
Qed.

Lemma filter_line_errors (es ds : list CSVError) :
  forallb line_error es = true ->
  (forall e, In e ds -> line e = 0%nat) ->
  filter line_error (es ++ ds) = es.
Proof.
  intros He Hd. rewrite filter_app.
  assert (E1 : filter line_error es = es).
  { clear Hd. induction es as [|e es IH]; [reflexivity|].
    cbn [forallb] in He. apply andb_true_iff in He. destruct He as [H1 H2].
    cbn [filter]. rewrite H1. f_equal. now apply IH. }
  assert (E2 : filter line_error ds = []).
  { clear He E1. induction ds as [|d ds IH]; [reflexivity|].
    cbn [filter]. unfold line_error at 1. rewrite (Hd d (or_introl eq_refl)).
    cbn. apply IH. intros e He. apply Hd. now right. }
  now rewrite E1, E2, app_nil_r.
Qed.

(** X17.  A text whose lines are all blank is answered with no
    recipient, no warning and the single error 'CSV file is empty' on
    line 0. *)
Theorem X17_csv_empty (clock : nat -> Z) (text : jsstring)
    (distributionType : DistributionType) :
  (forall l, In l (split 10 text) -> trim l = []) ->
  processCSVText clock text distributionType
  = {| recipients := [];
       errors := [{| line := 0; column := None;
                     message := lit "CSV file is empty"; value := None |}];
       warnings := [] |}.
Proof.
  intros H. unfold processCSVText.
  assert (E : lines_of text = []).
  { unfold lines_of. induction (split 10 text) as [|l ls IH]; [reflexivity|].
    cbn [map filter]. rewrite (H l (or_introl eq_refl)).
    apply IH. intros x Hx. apply H. now right. }
  now rewrite E.
Qed.

Lemma X17_csv_empty_witness :
  processCSVText still blank_text weighted
  = {| recipients := [];
       errors := [{| line := 0; column := None;
                     message := lit "CSV file is empty"; value := None |}];
       warnings := [] |}.
Proof.
  apply (@X17_csv_empty still blank_text weighted).
  intros l Hl. vm_compute in Hl.
  destruct Hl as [<- | [<- | [<- | []]]]; reflexivity.
Defined.

(** X18.  Every recipient that [processCSVText] returns has an address
    that [validateStellarAddress] accepts and is marked valid; in a
    weighted distribution it carries an amount that [validateAmount]
    accepts, in an equal distribution it carries no amount. *)
Theorem X18_csv_recipients (clock : nat -> Z) (text : jsstring)
    (distributionType : DistributionType) (r : Distribution.Recipient) :
  In r (recipients (processCSVText clock text distributionType)) ->
  validateStellarAddress (Distribution.address r) = None
  /\ Distribution.isValid r = true
  /\ Distribution.validationError r = None
  /\ match distributionType with
     | weighted => exists a, Distribution.amount r = Some a
                             /\ validateAmount a = None
     | equal => Distribution.amount r = None
     end.
Proof.
  intros H. destruct (lines_of text) as [|l0 ls] eqn:E.
  - unfold processCSVText in H. rewrite E in H. contradiction.
  - assert (N : lines_of text <> []) by (rewrite E; discriminate).
    destruct (@processCSVText_shape clock text distributionType N)
      as (rs & es & Er & _ & _ & W & _ & _).
    rewrite Er in H. rewrite Forall_forall in W. exact (W r H).
Qed.

Lemma X18_csv_recipients_witness :
  validateStellarAddress (Distribution.address template_recipient) = None
  /\ Distribution.isValid template_recipient = true
  /\ Distribution.validationError template_recipient = None
  /\ Distribution.amount template_recipient = None.
Proof.
  apply (@X18_csv_recipients still (generateCSVTemplate equal) equal
           template_recipient).
  vm_compute. left. reflexivity.
Defined.

(** X19.  Every line that [processCSVText] reads, after the header and
    up to [MAX_RECIPIENTS] lines, gives either a recipient or an error
    that carries its line number; at most [MAX_RECIPIENTS] recipients
    are returned, and there is a warning exactly when lines were left
    unread. *)
Theorem X19_csv_accounting (clock : nat -> Z) (text : jsstring)
    (distributionType : DistributionType) :
  let r := processCSVText clock text distributionType in
  let lines := lines_of text in
  let startLine := startLine_of lines distributionType in
  (List.length (recipients r)
   + List.length (filter (fun e => negb (line e =? 0)%nat) (errors r))
   = Nat.min (List.length lines - startLine) MAX_RECIPIENTS)%nat
  /\ (List.length (recipients r) <= MAX_RECIPIENTS)%nat
  /\ (warnings r = [] <-> (List.length lines - startLine <= MAX_RECIPIENTS)%nat).
Proof.
  cbv zeta. destruct (lines_of text) as [|l0 ls] eqn:E.
  - unfold processCSVText. rewrite E. cbn. split; [reflexivity|].
    split; [lia|]. split; [lia|reflexivity].
  - assert (N : lines_of text <> []) by (rewrite E; discriminate).
    destruct (@processCSVText_shape clock text distributionType N)
      as (rs & es & Er & Ee & L & _ & Le & Wn).
    cbv zeta in *. rewrite E in *. rewrite Er, Ee.
    change (fun e : CSVError => negb (line e =? 0)%nat) with line_error.
    destruct (duplicate_errors_spec
                (startLine_of (l0 :: ls) distributionType) rs) as (D & _ & _).
    cbv zeta in D.
    rewrite (@filter_line_errors es _ Le (fun e He => proj1 (D e He))).
    split; [exact L|]. split; [lia|]. exact Wn.
Qed.

(** X20.  The errors of [processCSVText] on line 0 are the reports of
    duplicates: there is none exactly when the addresses of the
    recipients returned are pairwise distinct, each of them names an
    address that at least two recipients have, and each such address
    is reported. *)
Theorem X20_csv_duplicates (clock : nat -> Z) (text : jsstring)
    (distributionType : DistributionType) :
  lines_of text <> [] ->
  let r := processCSVText clock text distributionType in
  let addresses := map Distribution.address (recipients r) in
  (NoDup addresses <-> forall e, In e (errors r) -> line e <> 0%nat)
  /\ (forall e, In e (errors r) -> line e = 0%nat ->
        exists a, value e = Some a
                  /\ (2 <= count_occ str_dec addresses a)%nat)
  /\ (forall a, (2 <= count_occ str_dec addresses a)%nat ->
        exists e, In e (errors r) /\ line e = 0%nat /\ value e = Some a).
Proof.
  intros N. cbv zeta.
  destruct (@processCSVText_shape clock text distributionType N)
    as (rs & es & Er & Ee & _ & _ & Le & _).
  cbv zeta in *. rewrite Er, Ee.
  destruct (duplicate_errors_spec
              (startLine_of (lines_of text) distributionType) rs)
    as (D1 & D2 & D3).
  cbv zeta in *.
  set (ds := flat_map (duplicate_error
                         (startLine_of (lines_of text) distributionType))
                      (addressMap rs)) in *.
  clearbody ds.
  assert (Les : forall e, In e es -> line e <> 0%nat).
  { intros e He. rewrite forallb_forall in Le. specialize (Le e He).
    unfold line_error in Le. destruct (Nat.eqb_spec (line e) 0); [discriminate|].
    assumption. }
  split; [|split].
  - rewrite <- D3. split.
    + intros E e He. rewrite E, app_nil_r in He. now apply Les.
    + intros H. destruct ds as [|d t]; [reflexivity|].
      exfalso. apply (H d).
      * apply in_app_iff. right. now left.
      * apply D1. now left.
  - intros e He Z. apply in_app_iff in He. destruct He as [He | He].
    + exfalso. now apply (Les e He).
    + now apply D1.
  - intros a Ha. destruct (D2 a Ha) as (e & He & Ve).
    exists e. split; [apply in_app_iff; now right|].
    split; [now apply D1|assumption].
Qed.

Lemma X20_csv_duplicates_witness :
  (NoDup (map Distribution.address
            (recipients (processCSVText still (generateCSVTemplate equal) equal)))
   <-> forall e,
         In e (errors (processCSVText still (generateCSVTemplate equal) equal)) ->
         line e <> 0%nat)
  /\ (forall e,
        In e (errors (processCSVText still (generateCSVTemplate equal) equal)) ->
        line e = 0%nat ->
        exists a, value e = Some a
                  /\ (2 <= count_occ str_dec
                             (map Distribution.address
                                (recipients (processCSVText still
                                   (generateCSVTemplate equal) equal))) a)%nat)
  /\ (forall a,
        (2 <= count_occ str_dec
                (map Distribution.address
                   (recipients (processCSVText still
                      (generateCSVTemplate equal) equal))) a)%nat ->
        exists e,
          In e (errors (processCSVText still (generateCSVTemplate equal) equal))
          /\ line e = 0%nat /\ value e = Some a).
Proof.
  apply (@X20_csv_duplicates still (generateCSVTemplate equal) equal).
  vm_compute. discriminate.
Defined.

(** X21.  The template that [generateCSVTemplate] offers is read back
    by [processCSVText] as two recipients, with the amounts of the
    template in a weighted distribution, without error or warning. *)
Theorem X21_csv_template (clock : nat -> Z) (distributionType : DistributionType) :
  let r := processCSVText clock (generateCSVTemplate distributionType)
                          distributionType in
  List.length (recipients r) = 2%nat
  /\ map Distribution.amount (recipients r)
     = match distributionType with
       | equal => [None; None]
       | weighted => [Some (lit "100.0000000"); Some (lit "250.0000000")]
       end
  /\ errors r = []
  /\ warnings r = [].
Proof.
  destruct distributionType; cbv zeta; repeat split; vm_compute; reflexivity.
Qed.

(** X22.  A file that [validateCSVFile] accepts is not empty, holds at
    most one megabyte and has one of the three types or a name that
    ends in ".csv" in any case; [processCSVFile] does not refuse such a
    file for its size: its promise is fulfilled with what
    [processCSVText] makes of the text when [file.text()] is fulfilled,
    and is rejected with the same reason when [file.text()] is
    rejected. *)
Theorem X22_csv_file (clock : nat -> Z) (file : File)
    (distributionType : DistributionType) :
  validateCSVFile file = None ->
  (0 < size file <= 1024 * 1024)%N
  /\ (includes [lit "text/csv"; lit "application/csv"; lit "text/plain"]
               (type file) = true
      \/ endsWith (toLowerCase (name file)) (lit ".csv") = true)
  /\ processCSVFile clock file distributionType
     = match text file with
       | Returned content =>
           Returned (processCSVText clock content distributionType)
       | Raised reason => Raised reason
       end.
Proof.
  unfold validateCSVFile, processCSVFile. cbv zeta.
  intros H.
  assert (T : includes [lit "text/csv"; lit "application/csv"; lit "text/plain"]
                       (type file) = true
              \/ endsWith (toLowerCase (name file)) (lit ".csv") = true).
  { destruct (includes _ (type file)); [now left|].
    destruct (endsWith (toLowerCase (name file)) (lit ".csv")); [now right|].
    discriminate H. }
  assert (S : (0 < size file <= 1024 * 1024)%N).
  { destruct (negb (includes _ (type file))
              && negb (endsWith (toLowerCase (name file)) (lit ".csv")));
      [discriminate H|].
    destruct (N.ltb_spec (1024 * 1024) (size file)) as [G|G]; [discriminate H|].
    destruct (N.eqb_spec (size file) 0) as [Z0|Z0]; [discriminate H|].
    lia. }
  split; [exact S|]. split; [exact T|].
  unfold MAX_FILE_SIZE.
  destruct (N.ltb_spec (10 * 1024 * 1024) (size file)) as [G|G]; [lia|reflexivity].
Qed.

Lemma X22_csv_file_witness :
  (0 < size sample_file <= 1024 * 1024)%N
  /\ (includes [lit "text/csv"; lit "application/csv"; lit "text/plain"]
               (type sample_file) = true
      \/ endsWith (toLowerCase (name sample_file)) (lit ".csv") = true)
  /\ processCSVFile still sample_file equal
     = match text sample_file with
       | Returned content => Returned (processCSVText still content equal)
       | Raised reason => Raised reason
       end.
Proof.
  apply (@X22_csv_file still sample_file equal).
  vm_compute. reflexivity.
Defined.

End Csv.


(** ** The state of a distribution *)

Section DistributionStates.
Import DistributionTransaction (DistributionType, equal, weighted).
Import StellarValidation AmountValidation.
Import Distribution DistributionStateHook.

Lemma app_eq_nil_iff (A : Type) (l : list A) (x : A) : l ++ [x] = [] <-> False.
Proof. split; [|tauto]. destruct l; discriminate. Qed.

Lemma check_recipient_nil (ty : DistributionType) (errs : list ValidationError)
    (k : nat) (r : Recipient) :
  check_recipient ty errs (k, r) = [] <-> errs = [] /\ recipient_ok ty r.
Proof.
  unfold check_recipient, recipient_ok.
  pose proof (validateStellarAddress_message (address r)) as Ma.
  destruct (validateStellarAddress (address r)) as [[|c e]|] eqn:VA;
    [exfalso; now apply Ma | |].
  - split.
    + intros H. exfalso.
      destruct ty; [|destruct (amount r) as [a|]];
        try (destruct (validateAmount a) as [[|c' e']|]);
        try (now apply app_eq_nil_iff in H);
        destruct errs; discriminate H.
    + intros (_ & H & _). discriminate H.
  - destruct ty.
    + split; [|now intros (-> & _)].
      intros ->. split; [reflexivity|]. split; [reflexivity|].
      intros C. discriminate C.
    + destruct (amount r) as [a|] eqn:Am.
      * pose proof (validateAmount_message a) as Mm.
        destruct (validateAmount a) as [[|c' e']|] eqn:VM;
          [exfalso; now apply Mm | |].
        -- split; [intros H; now apply app_eq_nil_iff in H|].
           intros (_ & _ & H). specialize (H eq_refl a eq_refl). congruence.
        -- split; [intros ->|now intros (-> & _)].
           repeat split; auto. intros _ a' Ha'. injection Ha' as <-. exact VM.
      * split; [intros ->|now intros (-> & _)].
        repeat split; auto. intros _ a' Ha'. discriminate Ha'.
Qed.

Lemma check_fold_nil (ty : DistributionType) (rs : list Recipient) (k : nat)
    (errs : list ValidationError) :
  fold_left (check_recipient ty) (combine (seq k (List.length rs)) rs) errs = []
  <-> errs = [] /\ Forall (recipient_ok ty) rs.
Proof.
  revert k errs. induction rs as [|r rs IH]; intros k errs.
  - cbn. split; [intros ->; auto|tauto].
  - cbn [List.length seq combine fold_left]. rewrite IH, check_recipient_nil.
    split.
    + intros ((-> & H1) & H2). split; [reflexivity|]. now constructor.
    + intros (-> & H). inversion H; subst. auto.
Qed.

Lemma valid_address_kept (a : jsstring) :
  validateStellarAddress a = None -> negb (str_eqb (trim a) []) = true.
Proof.
  unfold validateStellarAddress. destruct a as [|c t]; [discriminate|].
  destruct (str_eqb (trim (c :: t)) (c :: t)) eqn:E; [|discriminate].
  apply str_eqb_eq in E. rewrite E. reflexivity.
Qed.

Lemma filter_valid_addresses (ty : DistributionType) (rs : list Recipient) :
  Forall (recipient_ok ty) rs ->
  filter (fun addr => negb (str_eqb (trim addr) [])) (map address rs)
  = map address rs.
Proof.
  induction 1 as [|r rs (Hr & _) _ IH]; [reflexivity|].
  cbn [map filter]. rewrite (valid_address_kept _ Hr). now rewrite IH.
Qed.

Lemma total_ok (t : jsstring) (errs : list ValidationError) :
  match t with
  | [] => errs ++ [{| field := lit "totalAmount";
                      message := lit "Total amount is required for equal distribution";
                      recipientId := None |}]
  | _ =>
      if str_eqb (trim t) [] then
        errs ++ [{| field := lit "totalAmount";
                    message := lit "Total amount is required for equal distribution";
                    recipientId := None |}]
      else
        match validateAmount t with
        | Some ((_ :: _) as totalAmountError) =>
            errs ++ [{| field := lit "totalAmount";
                        message := totalAmountError;
                        recipientId := None |}]
        | _ => errs
        end
  end = [] <-> errs = [] /\ validateAmount t = None.
Proof.
  destruct t as [|c t].
  - rewrite app_eq_nil_iff. split; [tauto|]. intros (_ & H). discriminate H.
  - destruct (str_eqb (trim (c :: t)) []) eqn:E.
    + rewrite app_eq_nil_iff. split; [tauto|]. intros (_ & H).
      unfold validateAmount in H. rewrite E in H. discriminate H.
    + pose proof (validateAmount_message (c :: t)) as Mm.
      destruct (validateAmount (c :: t)) as [[|c' e']|] eqn:VM;
        [exfalso; now apply Mm | |].
      * rewrite app_eq_nil_iff. split; [tauto|]. intros (_ & H). discriminate H.
      * tauto.
Qed.

Lemma validateState_nil (s : DistributionState) :
  validateState s = [] <->
  recipients s <> []
  /\ Forall (recipient_ok (type s)) (recipients s)
  /\ NoDup (map address (recipients s))
  /\ (type s = equal -> validateAmount (totalAmount s) = None).
Proof.
  unfold validateState. cbv zeta.
  set (e0 := match recipients s with [] => _ | _ => [] end).
  set (e1 := fold_left _ _ e0).
  set (ads := filter _ (map address (recipients s))).
  set (e2 := match findDuplicateAddresses ads with [] => e1 | _ => _ end).
  assert (H0 : e0 = [] <-> recipients s <> []).
  { unfold e0. destruct (recipients s); split; congruence. }
  assert (H1 : e1 = [] <-> e0 = [] /\ Forall (recipient_ok (type s)) (recipients s)).
  { apply check_fold_nil. }
  assert (H2 : e2 = [] <-> e1 = [] /\ findDuplicateAddresses ads = []).
  { unfold e2. destruct (findDuplicateAddresses ads).
    - tauto.
    - rewrite app_eq_nil_iff. split; [tauto|]. intros (_ & H). discriminate H. }
  assert (H3 : Forall (recipient_ok (type s)) (recipients s) ->
               (findDuplicateAddresses ads = []
                <-> NoDup (map address (recipients s)))).
  { intros W. unfold ads. rewrite (filter_valid_addresses W).
    apply findDuplicateAddresses_nil. }
  destruct (type s) eqn:Ty.
  - rewrite total_ok, H2, H1, H0. split.
    + intros (((N & W) & D) & T). repeat split; auto. now apply H3.
    + intros (N & W & D & T). repeat split; auto. now apply H3.
  - rewrite H2, H1, H0. split.
    + intros ((N & W) & D). repeat split; auto; [now apply H3|discriminate].
    + intros (N & W & D & _). repeat split; auto. now apply H3.
Qed.

(** X23.  [validateState] finds no error exactly when there is a
    recipient, every address is accepted by [validateStellarAddress],
    in a weighted distribution every amount that is present is accepted
    by [validateAmount], no address occurs twice, and in an equal
    distribution the total is accepted by [validateAmount]. *)
Theorem X23_validateState_iff (s : DistributionState) :
  validateState s = [] <->
  recipients s <> []
  /\ (forall r, In r (recipients s) ->
        validateStellarAddress (address r) = None
        /\ (type s = weighted ->
            forall a, amount r = Some a -> validateAmount a = None))
  /\ NoDup (map address (recipients s))
  /\ (type s = equal -> validateAmount (totalAmount s) = None).
Proof.
  rewrite validateState_nil, Forall_forall. unfold recipient_ok. tauto.
Qed.

Lemma validateState_validated (s : DistributionState) :
  validateState (validated s) = validateState s.
Proof. reflexivity. Qed.

Lemma validated_coherent (s : DistributionState) : coherent (validated s).
Proof.
  unfold coherent. rewrite validateState_validated. unfold validated.
  cbn [stateIsValid errors]. destruct (validateState s); split; split;
    congruence.
Qed.

Lemma initial_coherent : coherent createInitialState.
Proof. unfold coherent. cbn. split; split; discriminate. Qed.

Lemma act_coherent (s : DistributionState) (a : action) : coherent (act s a).
Proof.
  destruct a; cbn [act]; try apply validated_coherent. apply initial_coherent.
Qed.

Lemma run_coherent (actions : list action) : coherent (run actions).
Proof.
  unfold run. induction actions as [|a l IH] using rev_ind.
  - apply initial_coherent.
  - rewrite fold_left_app. cbn [fold_left]. apply act_coherent.
Qed.

(** X24.  After any sequence of actions of the hook from the initial
    state, and after at least one action from any state whatever (such
    as one restored from the session), the flag [isValid] of the state
    is set exactly when the list of errors is empty, and exactly when
    validating the state anew finds no error. *)
Theorem X24_state_coherent (restored : DistributionState) (a : action)
    (actions : list action) :
  let fresh := run actions in
  let later := fold_left act (actions ++ [a]) restored in
  ((stateIsValid fresh = true <-> validateState fresh = [])
   /\ (errors fresh = [] <-> validateState fresh = []))
  /\ ((stateIsValid later = true <-> validateState later = [])
      /\ (errors later = [] <-> validateState later = [])).
Proof.
  cbv zeta. split; [apply run_coherent|].
  rewrite fold_left_app. cbn [fold_left]. apply act_coherent.
Qed.

Lemma updateType_recipients (ty : DistributionType) (s : DistributionState) :
  map id (recipients (updateType ty s)) = map id (recipients s)
  /\ map address (recipients (updateType ty s)) = map address (recipients s).
Proof.
  unfold updateType, validated. cbn [recipients]. rewrite !map_map. cbn [id address].
  split; reflexivity.
Qed.

(** X25.  Switching the type of the distribution, any number of times,
    keeps the ids and the addresses of the recipients, in order; after
    a switch the state has the chosen type, no recipient carries an
    amount in an equal distribution and every recipient carries one in
    a weighted distribution, whose total is emptied. *)
Theorem X25_updateType_preserves (tys : list DistributionType)
    (ty : DistributionType) (s : DistributionState) :
  (let s' := fold_left switch tys s in
   map id (recipients s') = map id (recipients s)
   /\ map address (recipients s') = map address (recipients s))
  /\ (let s' := updateType ty s in
      type s' = ty
      /\ totalAmount s' = match ty with
                          | equal => totalAmount s
                          | weighted => []
                          end
      /\ forall r, In r (recipients s') ->
           match ty with
           | equal => amount r = None
           | weighted => exists a, amount r = Some a
           end).
Proof.
  split.
  - cbv zeta. induction tys as [|t l IH] using rev_ind.
    + split; reflexivity.
    + rewrite fold_left_app. cbn [fold_left]. unfold switch at 1 3.
      destruct (updateType_recipients t (fold_left switch l s)) as (E1 & E2).
      destruct IH as (I1 & I2). split; congruence.
  - cbv zeta. split; [reflexivity|]. split; [reflexivity|].
    intros r Hr. unfold updateType, validated in Hr. cbn [recipients] in Hr.
    apply in_map_iff in Hr. destruct Hr as (x & <- & _). cbn [amount].
    destruct ty; [reflexivity|]. eexists. reflexivity.
Qed.

Lemma filter_nonempty (l : list jsstring) :
  Forall (fun x => x <> []) l ->
  filter (fun amount => negb (str_eqb amount [])) l = l.
Proof.
  induction 1 as [|x l Hx _ IH]; [reflexivity|]. cbn [filter].
  destruct x; [congruence|]. cbn [str_eqb negb]. now rewrite IH.
Qed.

(** X26.  In a weighted distribution the [validRecipientCount] of
    [calculatedValues] is the number of all the recipients: a missing
    or empty amount is replaced by "0" before the filter looks for
    empty amounts, so the filter removes nothing. *)
Theorem X26_validRecipientCount (F : NumberFormat) (s : DistributionState) :
  type s = weighted ->
  validRecipientCount (calculatedValues s) = Some (List.length (recipients s))
  /\ recipientCount (calculatedValues s) = List.length (recipients s).
Proof.
  intros T. unfold calculatedValues. rewrite T.
  cbn [validRecipientCount recipientCount]. split; [|reflexivity].
  f_equal. rewrite filter_nonempty; [apply length_map|].
  apply Forall_forall. intros x Hx. apply in_map_iff in Hx.
  destruct Hx as (r & <- & _). destruct (amount r) as [[|c t]|]; discriminate.
Qed.

Lemma X26_validRecipientCount_witness :
  validRecipientCount (@calculatedValues plain_format missing_amount_state)
  = Some (List.length (recipients missing_amount_state))
  /\ recipientCount (@calculatedValues plain_format missing_amount_state)
     = List.length (recipients missing_amount_state).
Proof.
  apply (@X26_validRecipientCount plain_format missing_amount_state).
  reflexivity.
Defined.

End DistributionStates.


(** ** From a state to the request *)

Section Submission.
Import StellarValidation AmountValidation.
Import DistributionTransaction.
Import CsvProcessing.
Import Distribution DistributionStateHook.

Lemma valid_amount_passes (a : jsstring) :
  validateAmount a = None ->
  falsy (Some a) = false /\ leb (parseFloat a) (Fin 0) = false.
Proof.
  intros V. destruct (validateAmount_accepts a V) as (T & (d1 & d2 & S & L) & Fi & P).
  split.
  - destruct (shaped_head S) as (c & t & -> & _). reflexivity.
  - rewrite (shaped_parseFloat S). rewrite (shaped_Number S T) in P. exact P.
Qed.

Section Submit.
Context {F : NumberFormat}.
Variable service : StellarService.
Variables sender token : jsstring.

Lemma submits (s : Distribution.DistributionState) (w : World) :
  Distribution.recipients s <> [] ->
  (Distribution.type s = equal -> Distribution.totalAmount s <> []) ->
  (Distribution.type s = weighted ->
   existsb invalidAmount (map request_recipient (Distribution.recipients s))
   = false) ->
  exists res w',
    executeTransaction service sender token (request s) w = (Returned res, w')
    /\ sent w' = sent w ++ [request_call sender token s]
    /\ (success res = true <->
        exists h, service (request_call sender token s) = Returned h).
Proof.
  intros N T A.
  unfold executeTransaction, mbind, setIsLoading, setError, try_catch_finally,
    ret, throw, await, request, request_call.
  cbn [isLoading hookError sent DistributionTransaction.recipients
       DistributionTransaction.type DistributionTransaction.totalAmount].
  destruct (Distribution.recipients s) as [|r0 rs] eqn:R; [congruence|].
  rewrite <- R in *.
  assert (Ad : map DistributionTransaction.address
                 (map request_recipient (Distribution.recipients s))
               = map Distribution.address (Distribution.recipients s)).
  { rewrite map_map. reflexivity. }
  assert (Am : map (fun r => toStroopsString
                               (parseFloat_opt (DistributionTransaction.amount r)))
                 (map request_recipient (Distribution.recipients s))
               = map (fun r => toStroopsString
                                 (parseFloat_opt (Distribution.amount r)))
                     (Distribution.recipients s)).
  { rewrite map_map. reflexivity. }
  destruct (map request_recipient (Distribution.recipients s)) as [|q0 qs] eqn:Q.
  { rewrite R in Q. discriminate Q. }
  rewrite <- Q in *. clear Q.
  destruct (Distribution.type s) eqn:Ty.
  - destruct (Distribution.totalAmount s) as [|c0 t0] eqn:To;
      [exfalso; now apply T|].
    rewrite Ad.
    match goal with
    | |- context [service ?c] => destruct (service c) as [hash|e] eqn:S
    end.
    + eexists. eexists. split; [reflexivity|]. cbn. split; [reflexivity|].
      split; [intros _; now exists hash|reflexivity].
    + eexists. eexists. split; [reflexivity|]. cbn. split; [reflexivity|].
      split; [discriminate|]. intros (h & C). unfold toStroopsString in C.
      congruence.
  - rewrite (A eq_refl), Ad, Am.
    match goal with
    | |- context [service ?c] => destruct (service c) as [hash|e] eqn:S
    end.
    + eexists. eexists. split; [reflexivity|]. cbn. split; [reflexivity|].
      split; [intros _; now exists hash|reflexivity].
    + eexists. eexists. split; [reflexivity|]. cbn. split; [reflexivity|].
      split; [discriminate|]. intros (h & C). congruence.
Qed.

Lemma valid_state_submits (s : Distribution.DistributionState) (w : World) :
  validateState s = [] ->
  (Distribution.type s = weighted ->
   forall r, In r (Distribution.recipients s) -> Distribution.amount r <> None) ->
  exists res w',
    executeTransaction service sender token (request s) w = (Returned res, w')
    /\ sent w' = sent w ++ [request_call sender token s]
    /\ (success res = true <->
        exists h, service (request_call sender token s) = Returned h).
Proof.
  intros V P. apply validateState_nil in V. destruct V as (N & W & D & T).
  apply submits; [assumption| |].
  - intros Ty E. specialize (T Ty). rewrite E in T. discriminate T.
  - intros Ty. rewrite Ty in W. specialize (P Ty). clear N D T.
    revert W P. generalize (Distribution.recipients s). intros l.
    induction l as [|r rs IH]; intros W P; [reflexivity|].
    inversion W as [|? ? (Wa & Wm) Wrs]; subst. cbn [map existsb].
    rewrite IH; [|assumption|intros x Hx; apply P; now right].
    rewrite orb_false_r. unfold invalidAmount, request_recipient.
    cbn [DistributionTransaction.amount].
    destruct (Distribution.amount r) as [a|] eqn:Ea.
    + destruct (@valid_amount_passes a (Wm eq_refl a eq_refl)) as (H1 & H2).
      cbn [parseFloat_opt]. now rewrite H1, H2.
    + exfalso. apply (P r (or_introl eq_refl)). exact Ea.
Qed.

Lemma missing_amount_rejected (s : Distribution.DistributionState) (w : World) :
  Distribution.type s = weighted ->
  (exists r, In r (Distribution.recipients s) /\ Distribution.amount r = None) ->
  rejected service sender token (request s) w
    (lit "All recipients must have valid amounts for weighted distribution").
Proof.
  intros Ty (r & Hr & Ha). apply invalid_amounts_rejected; [exact Ty|].
  unfold request. cbn [DistributionTransaction.recipients].
  apply existsb_exists. exists (request_recipient r).
  split; [now apply in_map|]. unfold invalidAmount, request_recipient.
  cbn [DistributionTransaction.amount]. now rewrite Ha.
Qed.

End Submit.

(** X27.  A state in which [validateState] finds no error and, in a
    weighted distribution, every recipient carries an amount, passes
    the checks of [executeTransaction]: exactly one request is sent,
    with the addresses of the state in order, and the result is a
    success exactly when the service accepts it. *)
Theorem X27_valid_state_submits (F : NumberFormat) (service : StellarService)
    (sender token : jsstring) (s : Distribution.DistributionState) (w : World) :
  validateState s = [] ->
  (Distribution.type s = weighted ->
   forall r, In r (Distribution.recipients s) -> Distribution.amount r <> None) ->
  exists res w',
    executeTransaction service sender token (request s) w = (Returned res, w')
    /\ sent w' = sent w ++ [request_call sender token s]
    /\ (success res = true <->
        exists h, service (request_call sender token s) = Returned h).
Proof. apply valid_state_submits. Qed.

Lemma X27_valid_state_submits_witness :
  exists res w',
    @executeTransaction plain_format accepting (lit "GSENDER") (lit "native")
      (request ready_state) initial = (Returned res, w')
    /\ sent w'
       = sent initial
         ++ [@request_call plain_format (lit "GSENDER") (lit "native")
               ready_state]
    /\ (success res = true <->
        exists h, accepting (@request_call plain_format (lit "GSENDER")
                               (lit "native") ready_state) = Returned h).
Proof.
  apply (@X27_valid_state_submits plain_format accepting (lit "GSENDER")
           (lit "native") ready_state initial).
  - vm_compute. reflexivity.
  - intros H. discriminate H.
Defined.

(** X28.  The two validations differ on missing amounts: a weighted
    state whose recipients have valid, distinct addresses and no
    amount is valid for [validateState], which validates only the
    amounts that are present, and is refused by [executeTransaction]
    with 'All recipients must have valid amounts for weighted
    distribution'. *)
Theorem X28_missing_amount_gap (F : NumberFormat) (service : StellarService)
    (sender token : jsstring) (s : Distribution.DistributionState) (w : World) :
  Distribution.type s = weighted ->
  Distribution.recipients s <> [] ->
  (forall r, In r (Distribution.recipients s) ->
     validateStellarAddress (Distribution.address r) = None
     /\ Distribution.amount r = None) ->
  NoDup (map Distribution.address (Distribution.recipients s)) ->
  validateState s = []
  /\ rejected service sender token (request s) w
       (lit "All recipients must have valid amounts for weighted distribution").
Proof.
  intros Ty N H D. split.
  - apply validateState_nil. split; [assumption|]. split; [|split].
    + apply Forall_forall. intros r Hr. destruct (H r Hr) as (Ha & Hm).
      split; [assumption|]. intros _ a Ea. congruence.
    + assumption.
    + intros C. congruence.
  - apply missing_amount_rejected; [assumption|].
    destruct (Distribution.recipients s) as [|r rs]; [congruence|].
    exists r. split; [now left|]. apply H. now left.
Qed.

Lemma X28_missing_amount_gap_witness :
  validateState missing_amount_state = []
  /\ @rejected plain_format accepting (lit "GSENDER") (lit "native")
       (request missing_amount_state) initial
       (lit "All recipients must have valid amounts for weighted distribution").
Proof.
  apply (@X28_missing_amount_gap plain_format accepting (lit "GSENDER")
           (lit "native") missing_amount_state initial).
  - reflexivity.
  - discriminate.
  - intros r [<- | []]. split; vm_compute; reflexivity.
  - repeat constructor. intros [].
Defined.

(** X29.  From a file to the request: when [processCSVText] reports no
    error and at least one recipient, the state obtained by choosing
    the type, entering the total (a valid amount, in an equal
    distribution) and replacing the recipients by those of the file is
    valid, and [executeTransaction] sends exactly one request for it,
    succeeding exactly when the service accepts. *)
Theorem X29_csv_import_submits (F : NumberFormat) (service : StellarService)
    (sender token : jsstring) (clock : nat -> Z) (text total : jsstring)
    (ty : DistributionType) (w : World) :
  let r := processCSVText clock text ty in
  let s := imported ty total (CsvProcessing.recipients r) in
  CsvProcessing.errors r = [] ->
  CsvProcessing.recipients r <> [] ->
  (ty = equal -> validateAmount total = None) ->
  stateIsValid s = true
  /\ exists res w',
       executeTransaction service sender token (request s) w = (Returned res, w')
       /\ sent w' = sent w ++ [request_call sender token s]
       /\ (success res = true <->
           exists h, service (request_call sender token s) = Returned h).
Proof.
  cbv zeta. intros E N T.
  set (rs := CsvProcessing.recipients (processCSVText clock text ty)) in *.
  assert (NL : lines_of text <> []).
  { intros C. unfold processCSVText in E. rewrite C in E. discriminate E. }
  destruct (@processCSVText_shape clock text ty NL)
    as (rs' & es & Er & Ee & _ & W & _ & _).
  cbv zeta in *. fold rs in Er. subst rs'.
  rewrite E in Ee. symmetry in Ee. apply app_eq_nil in Ee. destruct Ee as (_ & Ed).
  destruct (duplicate_errors_spec
              (startLine_of (lines_of text) ty) rs) as (_ & _ & D3).
  cbv zeta in D3. apply D3 in Ed.
  assert (Ts : Distribution.type (imported ty total rs) = ty) by reflexivity.
  assert (Rs : Distribution.recipients (imported ty total rs) = rs) by reflexivity.
  assert (To : Distribution.totalAmount (imported ty total rs) = total)
    by reflexivity.
  assert (V : validateState (imported ty total rs) = []).
  { apply validateState_nil. rewrite Ts, Rs, To.
    split; [assumption|]. split; [|split; assumption].
    apply Forall_forall. intros x Hx. rewrite Forall_forall in W.
    destruct (W x Hx) as (Wa & _ & _ & Wm). split; [assumption|].
    intros -> a Ea. destruct Wm as (a' & Ea' & Va). congruence. }
  split.
  - unfold imported, replaceRecipients. unfold validated at 1.
    cbn [stateIsValid]. fold (imported ty total rs).
    change (validateState _) with (validateState (imported ty total rs)).
    now rewrite V.
  - apply valid_state_submits; [assumption|].
    rewrite Ts, Rs. intros -> x Hx. rewrite Forall_forall in W.
    destruct (W x Hx) as (_ & _ & _ & (a & Ea & _)). congruence.
Qed.

Lemma X29_csv_import_submits_witness :
  stateIsValid
    (imported equal (lit "100")
       (CsvProcessing.recipients
          (processCSVText still (generateCSVTemplate equal) equal))) = true
  /\ exists res w',
       @executeTransaction plain_format accepting (lit "GSENDER") (lit "native")
         (request
            (imported equal (lit "100")
               (CsvProcessing.recipients
                  (processCSVText still (generateCSVTemplate equal) equal))))
         initial = (Returned res, w')
       /\ sent w'
          = sent initial
            ++ [@request_call plain_format (lit "GSENDER") (lit "native")
                  (imported equal (lit "100")
                     (CsvProcessing.recipients
                        (processCSVText still (generateCSVTemplate equal)
                           equal)))]
       /\ (success res = true <->
           exists h,
             accepting
               (@request_call plain_format (lit "GSENDER") (lit "native")
                  (imported equal (lit "100")
                     (CsvProcessing.recipients
                        (processCSVText still (generateCSVTemplate equal)
                           equal)))) = Returned h).
Proof.
  apply (@X29_csv_import_submits plain_format accepting (lit "GSENDER")
           (lit "native") still (generateCSVTemplate equal) (lit "100")
           equal initial).
  - vm_compute. reflexivity.
  - vm_compute. discriminate.
  - intros _. vm_compute. reflexivity.
Defined.

End Submission.


(** ** The countdown *)

Section Countdown.
Import StreamCountdown.

Lemma Qred_Z (n : Z) : Qred (inject_Z n) = inject_Z n.
Proof.
  unfold Qred, inject_Z.
  pose proof (Z.ggcd_gcd n 1) as G.
  pose proof (Z.ggcd_correct_divisors n 1) as D.
  destruct (Z.ggcd n 1) as (g, (a, b)). cbn [fst snd] in *.
  rewrite Z.gcd_1_r in G. subst g. destruct D as [Da Db].
  rewrite Z.mul_1_l in Da, Db. subst a b. reflexivity.
Qed.

Lemma Qfloor_eq_Z (N : Z) (X : Q) : X == inject_Z N -> Qfloor X = N.
Proof.
  intros E. apply Qfloor_unique; rewrite E; lra.
Qed.

Lemma half_even_eq_Z (M : Z) (y : Q) : y == inject_Z M -> half_even y = M.
Proof.
  intros E. apply Z.le_antisymm.
  - apply half_even_le. rewrite E. apply Qle_refl.
  - apply half_even_ge. rewrite E. apply Qle_refl.
Qed.

(** Integers of at most 53 bits are binary64 numbers. *)
Lemma round_units_exact (n : Z) (X : Q) :
  (1 <= n < 2 ^ 53)%Z -> X == inject_Z (n * 2 ^ 1074) -> round_units X == X.
Proof.
  intros [L U] E. unfold round_units.
  assert (P : (0 < 2 ^ 1074)%Z) by (apply Z.pow_pos_nonneg; lia).
  assert (F : Qfloor X = (n * 2 ^ 1074)%Z) by (now apply Qfloor_eq_Z).
  assert (Lg : Z.log2 (n * 2 ^ 1074) = (Z.log2 n + 1074)%Z).
  { rewrite Z.log2_mul_pow2 by lia. lia. }
  assert (Ln : (0 <= Z.log2 n <= 52)%Z).
  { split; [apply Z.log2_nonneg|].
    assert (Z.log2 n < 53)%Z by (apply Z.log2_lt_pow2; lia). lia. }
  assert (Ee : ulp_exp X = (Z.log2 n + 1022)%Z).
  { unfold ulp_exp. rewrite F, Lg. lia. }
  rewrite Ee. set (l := Z.log2 n) in *.
  assert (S1 : (2 ^ 1074 = 2 ^ (52 - l) * 2 ^ (l + 1022))%Z).
  { rewrite <- Z.pow_add_r by lia. f_equal. lia. }
  assert (Pe : (0 < 2 ^ (l + 1022))%Z) by (apply Z.pow_pos_nonneg; lia).
  assert (Hy : X / p2 (l + 1022) == inject_Z (n * 2 ^ (52 - l))).
  { unfold p2. rewrite E. rewrite S1 at 1.
    rewrite !inject_Z_mult. field.
    change 0 with (inject_Z 0). rewrite inject_Z_injective. lia. }
  rewrite (half_even_eq_Z Hy). rewrite E. unfold p2.
  rewrite <- inject_Z_mult. rewrite S1.
  apply inject_Z_injective. ring.
Qed.

Lemma binary64_Z (n : Z) :
  (0 <= n < 2 ^ 53)%Z -> binary64 (inject_Z n) = Fin (inject_Z n).
Proof.
  intros [L U]. destruct (Z.eq_dec n 0) as [->|NZ]; [reflexivity|].
  assert (Pn : 0 < inject_Z n).
  { change 0 with (inject_Z 0). rewrite <- Zlt_Qlt. lia. }
  unfold binary64.
  destruct (Qcompare_spec (inject_Z n) 0) as [C|C|C]; try (exfalso; lra).
  assert (R : round_pos (inject_Z n) == inject_Z n).
  { rewrite round_pos_units.
    assert (EX : inject_Z n / quantum == inject_Z (n * 2 ^ 1074)).
    { unfold quantum. rewrite inject_Z_mult. field. discriminate. }
    rewrite (@round_units_exact n _ ltac:(lia) EX), EX.
    unfold quantum. rewrite inject_Z_mult. field. discriminate. }
  assert (O : Qle_bool overflow_threshold (round_pos (inject_Z n)) = false).
  { destruct (Qle_bool overflow_threshold (round_pos (inject_Z n))) eqn:B;
      [|reflexivity].
    apply Qle_bool_iff in B. rewrite R in B. unfold overflow_threshold in B.
    rewrite <- Zle_Qle in B.
    assert ((2 ^ 53 < 2 ^ 1024)%Z) by (apply Z.pow_lt_mono_r; lia). lia. }
  rewrite O. f_equal. rewrite (Qred_complete _ _ R). apply Qred_Z.
Qed.

Lemma binary64_neg_Z (n : Z) :
  (n <= 0)%Z -> leb (binary64 (inject_Z n)) (Fin 0) = true.
Proof.
  intros H. apply (rnd_nonpos (A := IEEE754)).
  change 0 with (inject_Z 0). now rewrite <- Zle_Qle.
Qed.

(** The quotient of two integers falls between the integer quotient and
    the next integer. *)
Lemma div_between (d c : Z) :
  (0 < d < 2 ^ 53)%Z -> (0 < c < 2 ^ 53)%Z ->
  exists r, div (Fin (inject_Z d)) (Fin (inject_Z c)) = Fin r
            /\ inject_Z (d / c) <= r /\ r < inject_Z (d / c) + 1.
Proof.
  intros [Ld Ud] [Lc Uc]. cbn [div].
  assert (Pc : 0 < inject_Z c).
  { change 0 with (inject_Z 0). rewrite <- Zlt_Qlt. lia. }
  assert (Pd : 1 <= inject_Z d).
  { change 1 with (inject_Z 1). rewrite <- Zle_Qle. lia. }
  assert (Bd : inject_Z d < inject_Z (2 ^ 53)) by (rewrite <- Zlt_Qlt; lia).
  assert (Bc : inject_Z c < inject_Z (2 ^ 53)) by (rewrite <- Zlt_Qlt; lia).
  change (inject_Z (2 ^ 53)) with 9007199254740992 in Bd, Bc.
  rewrite Qzero_false by assumption. change (@rnd IEEE754) with binary64.
  set (k := (d / c)%Z).
  pose proof (Z.div_mod d c ltac:(lia)) as DM.
  pose proof (Z.mod_pos_bound d c ltac:(lia)) as MB.
  assert (K0 : (0 <= k)%Z) by (apply Z.div_pos; lia).
  assert (Kd : (k <= d)%Z).
  { unfold k. apply Z.div_le_upper_bound; nia. }
  set (x := inject_Z d / inject_Z c).
  assert (Xc : x * inject_Z c == inject_Z d) by (unfold x; field; lra).
  assert (Lx : inject_Z k <= x).
  { unfold x. apply Qle_shift_div_l; [assumption|].
    rewrite <- inject_Z_mult, <- Zle_Qle. fold k in DM. nia. }
  assert (Ux : x * (1 + u53) < inject_Z k + 1).
  { assert (M : inject_Z d + 1 <= (inject_Z k + 1) * inject_Z c).
    { change 1 with (inject_Z 1). rewrite <- !inject_Z_plus, <- inject_Z_mult.
      rewrite <- Zle_Qle. fold k in DM. nia. }
    assert (E : x * (1 + u53) == inject_Z d * (1 + u53) / inject_Z c)
      by (unfold x; field; lra).
    rewrite E. apply Qlt_shift_div_r; [assumption|].
    rewrite u53_val. lra. }
  assert (X1 : (1 # 9007199254740992) <= x).
  { unfold x. apply Qle_shift_div_l; [assumption|]. lra. }
  destruct (@binary64_rel x) as (r & Er & L1 & U1).
  - assert (min_normal <= 1 # 9007199254740992)
      by (vm_compute; discriminate).
    lra.
  - apply Qlt_le_trans with (inject_Z k + 1); [assumption|].
    assert (9007199254740993 <= overflow_threshold)
      by (apply Qlt_le_weak; vm_compute; reflexivity).
    assert (inject_Z k <= inject_Z d) by (rewrite <- Zle_Qle; lia). lra.
  - exists r. split; [assumption|]. split; [|lra].
    pose proof (binary64_mono Lx) as Mn.
    rewrite (@binary64_Z k ltac:(lia)), Er in Mn.
    unfold num_le in Mn. cbn [leb] in Mn. now apply Qle_bool_iff in Mn.
Qed.

Lemma Qtrunc_nonneg (q : Q) : 0 <= q -> Qtrunc q = Qfloor q.
Proof.
  intros H. unfold Qtrunc. apply Qle_bool_iff in H. now rewrite H.
Qed.

(** The remainder by an integer, rounded down, of a number in [k, k+1). *)
Lemma floor_rem (k m : Z) (r : Q) :
  (0 <= k)%Z -> (0 < m)%Z -> inject_Z k <= r -> r < inject_Z k + 1 ->
  floor (rem (Fin r) (Fin (inject_Z m))) = Fin (inject_Z (k mod m)).
Proof.
  intros K0 M0 L U. cbn [rem].
  assert (Pm : 0 < inject_Z m).
  { change 0 with (inject_Z 0). rewrite <- Zlt_Qlt. lia. }
  assert (Pk : 0 <= inject_Z k).
  { change 0 with (inject_Z 0). rewrite <- Zle_Qle. lia. }
  rewrite Qzero_false by assumption.
  pose proof (Z.div_mod k m ltac:(lia)) as DM.
  pose proof (Z.mod_pos_bound k m ltac:(lia)) as MB.
  set (t := (k / m)%Z) in *. set (j := (k mod m)%Z) in *.
  assert (Ek : inject_Z k == inject_Z m * inject_Z t + inject_Z j).
  { rewrite DM, inject_Z_plus, inject_Z_mult. reflexivity. }
  assert (J1 : inject_Z j + 1 <= inject_Z m).
  { change 1 with (inject_Z 1). rewrite <- inject_Z_plus, <- Zle_Qle. lia. }
  assert (J0 : 0 <= inject_Z j).
  { change 0 with (inject_Z 0). rewrite <- Zle_Qle. lia. }
  assert (T : Qtrunc (r / inject_Z m) = t).
  { rewrite Qtrunc_nonneg by (apply Qle_shift_div_l; lra).
    apply Qfloor_unique.
    - apply Qle_shift_div_l; [assumption|]. lra.
    - apply Qlt_shift_div_r; [assumption|]. lra. }
  rewrite T. cbn [floor]. f_equal. f_equal.
  apply Qfloor_unique; lra.
Qed.

Lemma floor_between (k : Z) (r : Q) :
  inject_Z k <= r -> r < inject_Z k + 1 -> floor (Fin r) = Fin (inject_Z k).
Proof. intros L U. cbn [floor]. f_equal. f_equal. now apply Qfloor_unique. Qed.

Lemma div_div (d a b : Z) : (0 < a)%Z -> (0 < b)%Z -> (d / a / b = d / (a * b))%Z.
Proof. intros. now rewrite Z.div_div by lia. Qed.

(** X30.  For an active stream whose end and whose clock are whole
    numbers of milliseconds below 2^53, the countdown is exact: when
    the end is not ahead there is no time left, and otherwise the days,
    hours, minutes and seconds are those of the integer division of the
    difference, without any error from the floating-point quotients. *)
Theorem X30_countdown (status : jsstring) (endTime currentTime : Z) :
  str_eqb (toLowerCase status) (lit "active") = true ->
  (0 <= currentTime < 2 ^ 53)%Z -> (0 <= endTime < 2 ^ 53)%Z ->
  let p := {| StreamCountdown.endTime := ofZ endTime;
              StreamCountdown.status := status |} in
  let d := (endTime - currentTime)%Z in
  timeLeft p (ofZ currentTime)
  = if (d <=? 0)%Z then None
    else Some {| days := ofZ (d / 86400000);
                 hours := ofZ ((d / 3600000) mod 24);
                 minutes := ofZ ((d / 60000) mod 60);
                 seconds := ofZ ((d / 1000) mod 60) |}.
Proof.
  intros St Hc He. cbv zeta. unfold timeLeft.
  cbn [StreamCountdown.status StreamCountdown.endTime]. rewrite St. cbn [negb].
  set (d := (endTime - currentTime)%Z).
  assert (Ed : inject_Z endTime - inject_Z currentTime == inject_Z d).
  { unfold d, Z.sub. rewrite inject_Z_plus, inject_Z_opp. ring. }
  assert (Sd : sub (ofZ endTime) (ofZ currentTime) = binary64 (inject_Z d)).
  { unfold ofZ. cbn [sub]. change (@rnd IEEE754) with binary64.
    apply (binary64_proper Ed). }
  rewrite Sd.
  destruct (Z.leb_spec d 0) as [Neg|Pos].
  - now rewrite binary64_neg_Z.
  - rewrite (@binary64_Z d ltac:(lia)).
    assert (Pd : leb (Fin (inject_Z d)) (Fin 0) = false).
    { cbn [leb]. destruct (Qle_bool (inject_Z d) 0) eqn:B; [|reflexivity].
      apply Qle_bool_iff in B. change 0 with (inject_Z 0) in B.
      rewrite <- Zle_Qle in B. lia. }
    rewrite Pd.
    replace (mul (Fin 1000) (Fin 60)) with (Fin (inject_Z 60000))
      by (vm_compute; reflexivity).
    replace (mul (Fin (inject_Z 60000)) (Fin 60)) with (Fin (inject_Z 3600000))
      by (vm_compute; reflexivity).
    replace (mul (Fin (inject_Z 3600000)) (Fin 24))
      with (Fin (inject_Z 86400000)) by (vm_compute; reflexivity).
    change (Fin 1000) with (Fin (inject_Z 1000)).
    change (Fin 60) with (Fin (inject_Z 60)).
    change (Fin 24) with (Fin (inject_Z 24)).
    destruct (@div_between d 1000 ltac:(lia) ltac:(lia)) as (r1 & -> & L1 & U1).
    destruct (@div_between d 60000 ltac:(lia) ltac:(lia)) as (r2 & -> & L2 & U2).
    destruct (@div_between d 3600000 ltac:(lia) ltac:(lia)) as (r3 & -> & L3 & U3).
    destruct (@div_between d 86400000 ltac:(lia) ltac:(lia)) as (r4 & -> & L4 & U4).
    assert (Q1 : (0 <= d / 1000)%Z) by (apply Z.div_pos; lia).
    assert (Q2 : (0 <= d / 60000)%Z) by (apply Z.div_pos; lia).
    assert (Q3 : (0 <= d / 3600000)%Z) by (apply Z.div_pos; lia).
    rewrite (@floor_rem (d / 1000) 60 r1 Q1 ltac:(lia) L1 U1).
    rewrite (@floor_rem (d / 60000) 60 r2 Q2 ltac:(lia) L2 U2).
    rewrite (@floor_rem (d / 3600000) 24 r3 Q3 ltac:(lia) L3 U3).
    rewrite (@floor_between (d / 86400000) r4 L4 U4).
    reflexivity.
Qed.

Lemma X30_countdown_witness :
  timeLeft {| StreamCountdown.endTime := ofZ 93784000;
              StreamCountdown.status := lit "Active" |} (ofZ 0)
  = Some {| days := ofZ 1; hours := ofZ 2; minutes := ofZ 3;
            seconds := ofZ 4 |}.
Proof.
  apply (@X30_countdown (lit "Active") 93784000 0); [reflexivity|lia|lia].
Defined.

End Countdown.

(* ================================================================== *)
(** * The claims on the vested size and on equal shares *)
(* ================================================================== *)

(** ** The vested size of a stream, as the progress bar computes it *)

Section VestedSize.
Import AmountValidation VestingSpec StreamProgressBar.

(** *** Whole numbers in binary64 *)








(** *** The size computed *)







End VestedSize.

(** ** Equal shares *)

Section EqualShares.
Import StellarValidation Examples AmountValidation.

(** *** [/0+$/] and then [/\.$/] on a printed number *)

Lemma strip_zeros_after_point (w f : jsstring) :
  replace_at_end re_zeros (w ++ lit "." ++ f)
  = w ++ lit "." ++ replace_at_end re_zeros f.
Proof.
  change (lit ".") with [46%N]. cbn [app].
  induction w as [|c w IH].
  - cbn [app replace_at_end].
    assert (E : matches re_zeros (46%N :: f) = false).
    { unfold re_zeros. rewrite matches_Plus_Chr. fold isZeroDigit.
      cbn [forallb]. now rewrite point_not_zero. }
    now rewrite E.
  - cbn [app replace_at_end].
    assert (E : matches re_zeros (c :: w ++ 46%N :: f) = false).
    { unfold re_zeros. rewrite matches_Plus_Chr. fold isZeroDigit.
      cbn [forallb]. rewrite forallb_app. cbn [forallb].
      rewrite point_not_zero.
      now rewrite andb_false_l, andb_false_r, andb_false_r. }
    now rewrite E, IH.
Qed.

Lemma matches_dot (s : jsstring) : matches re_dot s = true <-> s = [46%N].
Proof.
  unfold re_dot. rewrite matches_Chr. split.
  - intros (c & -> & Hc). unfold oneOf in Hc. change (lit ".") with [46%N] in Hc.
    cbn [existsb] in Hc. rewrite orb_false_r in Hc. apply N.eqb_eq in Hc.
    now subst c.
  - intros ->. exists 46%N. split; reflexivity.
Qed.

Lemma strip_dot_digits (g : jsstring) :
  forallb isDigit g = true -> replace_at_end re_dot g = g.
Proof.
  induction g as [|c g IH]; intros H; [reflexivity|].
  cbn [forallb] in H. apply andb_true_iff in H. destruct H as [Hc Hg].
  cbn [replace_at_end].
  assert (E : matches re_dot (c :: g) = false).
  { apply not_true_is_false. rewrite matches_dot. intros C.
    injection C as -> _. now apply digit_not_point in Hc. }
  now rewrite E, (IH Hg).
Qed.

Lemma strip_dot (w g : jsstring) :
  forallb isDigit w = true -> forallb isDigit g = true ->
  replace_at_end re_dot (w ++ lit "." ++ g)
  = match g with [] => w | _ => w ++ lit "." ++ g end.
Proof.
  intros Hw Hg. change (lit ".") with [46%N]. cbn [app].
  induction w as [|c w IH].
  - cbn [app replace_at_end]. destruct g as [|x g].
    + reflexivity.
    + assert (E : matches re_dot (46%N :: x :: g) = false).
      { apply not_true_is_false. rewrite matches_dot. discriminate. }
      now rewrite E, (strip_dot_digits _ Hg).
  - cbn [forallb] in Hw. apply andb_true_iff in Hw. destruct Hw as [Hc Hw].
    cbn [app replace_at_end].
    assert (E : matches re_dot (c :: w ++ 46%N :: g) = false).
    { apply not_true_is_false. rewrite matches_dot. intros C.
      injection C as -> _. now apply digit_not_point in Hc. }
    rewrite E, (IH Hw). destruct g; reflexivity.
Qed.

(** The two replacements leave what [stroopsToAmount] prints. *)
Lemma stripped_units (k : Z) :
  (0 <= k)%Z ->
  stroopsToAmount k 7
  = Ok (replace_at_end re_dot
          (replace_at_end re_zeros
             (Z_toString (k / 10000000) ++ lit "."
                ++ padStart0 7 (Z_toString (k mod 10000000))))).
Proof.
  intros Hk.
  pose proof (Z.div_pos k 10000000 Hk ltac:(lia)) as WB.
  pose proof (Z.mod_pos_bound k 10000000 ltac:(lia)) as RB.
  destruct (Z_toString_spec WB) as (Wd & Wn & Wv).
  destruct (Z_toString_spec (z := k mod 10000000) ltac:(lia)) as (Rd & Rn & Rv).
  assert (RL : (List.length (Z_toString (k mod 10000000)) <= 7)%nat).
  { destruct (Z.eq_dec (k mod 10000000) 0) as [->|NZ]; [simpl; lia|].
    apply Z_toString_length; simpl; lia. }
  destruct (@padStart0_spec 7 _ Rd RL) as (Pd & Pl & Pv).
  rewrite strip_zeros_after_point.
  destruct (strip_zeros_value _ Pd) as (Gd & _ & _).
  cbv zeta in Gd. rewrite (strip_dot _ _ Wd Gd).
  unfold stroopsToAmount.
  change (pow10 7) with (binary64 (inject_Z 10000000)).
  replace (binary64 (inject_Z 10000000)) with (Fin (inject_Z 10000000))
    by (vm_compute; reflexivity).
  rewrite BigInt_integer. cbn [bind].
  rewrite Z.quot_div_nonneg, Z.rem_mod_nonneg by lia.
  destruct (Z.eqb_spec (k mod 10000000) 0) as [E0|NE].
  - rewrite E0. reflexivity.
  - destruct (replace_at_end re_zeros
                (padStart0 7 (Z_toString (k mod 10000000)))) as [|x g] eqn:Eg;
      [|reflexivity].
    exfalso. destruct (strip_zeros_spec
                         (padStart0 7 (Z_toString (k mod 10000000))))
      as (j & Ej).
    rewrite Eg in Ej. cbn [app] in Ej.
    rewrite Ej, digits_value_zeros in Pv. lia.
Qed.

(** What [toFixed(7)] prints for a number that is not negative. *)
Lemma toFixed7 (F : NumberFormat) (q : Q) :
  0 <= q -> q < ten21 ->
  toFixed (Fin q) 7
  = Z_toString (Qfloor (q * ten7 + (1 # 2)) / 10000000) ++ lit "."
      ++ padStart0 7 (Z_toString (Qfloor (q * ten7 + (1 # 2)) mod 10000000)).
Proof.
  intros P B. unfold toFixed.
  assert (A : Qabs q == q) by (now apply Qabs_pos).
  assert (Big : Qle_bool ten21 (Qabs q) = false).
  { apply Qle_bool_false. now rewrite A. }
  assert (Fl : Qfloor (Qabs q * inject_Z (10 ^ Z.of_nat 7) + (1 # 2))
               = Qfloor (q * ten7 + (1 # 2))).
  { apply Qfloor_comp. rewrite A. reflexivity. }
  rewrite Big, Fl, (Qsign_false P). cbn [app].
  set (k := Qfloor (q * ten7 + (1 # 2))).
  assert (Hk : (0 <= k)%Z).
  { unfold k. apply Qfloor_ge. unfold ten7.
    assert (0 <= q * inject_Z 10000000) by (apply Qmult_le_0_compat; [assumption|discriminate]).
    change (inject_Z 0) with 0. lra. }
  destruct (Z.eq_dec k 0) as [->|NZ]; [reflexivity|].
  destruct (@fixed7_parts k ltac:(lia)) as (Ew & Ef). cbv zeta in Ew, Ef.
  now rewrite Ew, Ef.
Qed.

(** C3, as amended.  For every valid total of at most [2^53] and every
    count of recipients from 1 to below [2^53], [calculateEqualAmount]
    divides the total by the count in binary64, rounds the quotient to
    seven decimals, a half upwards, and prints the result as
    [stroopsToAmount] prints that many units of [10^-7], without
    trailing zeros: for a total of 1000 and 4 recipients the share is
    250, for 100 and 3 it is 33.3333333 and for 200 and 3 it is
    66.6666667; the quotient is not rounded down to an integer and no
    remainder is set aside. *)
Theorem C3_equal_share (F : NumberFormat) :
  (forall (totalAmount : jsstring) (t : Q) (n : Z),
     isValidAmount totalAmount = true ->
     Number (trim totalAmount) = Fin t -> t <= inject_Z (2 ^ 53) ->
     (1 <= n < 2 ^ 53)%Z ->
     exists q s,
       div (Fin t) (ofZ n) = Fin q /\ 0 <= q
       /\ stroopsToAmount (Qfloor (q * ten7 + (1 # 2))) 7 = Ok s
       /\ calculateEqualAmount totalAmount (ofZ n) = s)
  /\ calculateEqualAmount (lit "1000") (Fin 4) = lit "250"
  /\ calculateEqualAmount (lit "100") (Fin 3) = lit "33.3333333"
  /\ calculateEqualAmount (lit "200") (Fin 3) = lit "66.6666667".
Proof.
  split; [|repeat split; vm_compute; reflexivity].
  intros a t n V Et Bt [Ln Un].
  assert (V' : validateAmount a = None).
  { unfold isValidAmount in V. destruct (validateAmount a); congruence. }
  destruct (validateAmount_accepts a V') as (T & _ & _ & P).
  rewrite T in Et. rewrite Et in P.
  assert (Pt : 0 < t).
  { cbn [leb] in P. now apply Qle_bool_false in P. }
  assert (Pn : 1 <= inject_Z n).
  { change 1 with (inject_Z 1). now rewrite <- Zle_Qle. }
  assert (Q0 : 0 <= t / inject_Z n) by (apply Qle_shift_div_l; lra).
  assert (Q1 : t / inject_Z n <= inject_Z (2 ^ 53)).
  { apply Qle_shift_div_r; [lra|].
    assert (0 <= inject_Z (2 ^ 53)) by discriminate. nra. }
  pose proof (binary64_mono Q0) as L. pose proof (binary64_mono Q1) as U.
  replace (binary64 0) with (Fin 0) in L by reflexivity.
  replace (binary64 (inject_Z (2 ^ 53))) with (Fin (inject_Z (2 ^ 53))) in U
    by (vm_compute; reflexivity).
  destruct (between_Fin L U) as (q & Eq & Hq0 & Hq1).
  assert (D : div (Fin t) (ofZ n) = Fin q).
  { unfold ofZ. cbn [div]. rewrite Qzero_false by lra. exact Eq. }
  assert (B21 : q < ten21).
  { eapply Qle_lt_trans; [exact Hq1|]. reflexivity. }
  set (k := Qfloor (q * ten7 + (1 # 2))).
  assert (Hk : (0 <= k)%Z).
  { unfold k. apply Qfloor_ge. unfold ten7.
    assert (0 <= q * inject_Z 10000000)
      by (apply Qmult_le_0_compat; [assumption|discriminate]).
    change (inject_Z 0) with 0. lra. }
  exists q. eexists. split; [exact D|]. split; [exact Hq0|].
  split; [apply (stripped_units Hk)|].
  unfold calculateEqualAmount. rewrite V, T, Et.
  assert (Ln' : leb (ofZ n) (Fin 0) = false).
  { unfold ofZ. cbn [leb]. apply Qle_bool_false. lra. }
  rewrite Ln'. cbn [negb orb]. cbv zeta. rewrite D.
  unfold MAX_DECIMAL_PLACES. now rewrite (@toFixed7 F q Hq0 B21).
Qed.

(** C3, witness: a total of 100 among 3 recipients. *)
Lemma C3_witness :
  exists q s,
    div (Fin 100) (ofZ 3) = Fin q /\ 0 <= q
    /\ stroopsToAmount (Qfloor (q * ten7 + (1 # 2))) 7 = Ok s
    /\ @calculateEqualAmount plain_format (lit "100") (ofZ 3) = s.
Proof.
  apply (proj1 (C3_equal_share plain_format) (lit "100") 100%Q 3%Z).
  - vm_compute. reflexivity.
  - vm_compute. reflexivity.
  - vm_compute. discriminate.
  - lia.
Defined.

End EqualShares.
